(** * EncodeManageModel: the encode job manager of EPGStation

    A shallow embedding of [src/model/service/encode/EncodeManageModel.ts]:
    the execution gate ([getExecution] / [unLockExecution]), the wait queue
    and the running queue, the scheduler ([checkQueue]), the process
    supervisor ([addQueue] and its exit handler), [finalize] and [cancel],
    [getRecordedIndex] and the loops of [cancelEncodeByRecordedId] that
    collect the ids to cancel.

    The class runs on a single-threaded event loop.  Every method is
    embedded as a state transformer over [State]; an [async] method is cut
    at [await this.getExecution(..)] into the part that runs at once and the
    part that runs once the ticket is granted (its name ends in [_body]). *)

From Stdlib Require Import ZArith QArith Lia Sorted.
From stdpp Require Import base gmap list strings pretty.

Close Scope Q_scope.
Local Open Scope Z_scope.

(** ** Data model *)

(** [interface ExeQueueData]: a ticket of the execution gate. *)
Record ExeQueueData := mkExeQueueData {
  id : string;
  priority : Z
}.

(** [apid.AddEncodeProgramOption], with the fields the class reads. *)
Record AddEncodeProgramOption := mkAddOption {
  o_recordedId : Z;
  o_sourceVideoFileId : Z;
  o_mode : string;
  o_parentDir : string;
  o_directory : option string;
  o_removeOriginal : bool
}.

(** [interface EncodeQueueItem extends apid.AddEncodeProgramOption]. *)
Record EncodeQueueItem := mkEncodeQueueItem {
  encodeId : Z;
  recordedId : Z;
  sourceVideoFileId : Z;
  mode : string;
  parentDir : string;
  directory : option string;
  removeOriginal : bool
}.

(** Queue items are JavaScript objects: the wait queue, the running queue
    and the closures of [addQueue] hold references to them.  A reference is
    an index into [store]. *)
Definition ref := nat.

(** The handle that [processManager.create] returns. *)
Record ChildProcess := mkChildProcess {
  pid : Z;
  stderr : bool   (* [childProcess.stderr !== null] *)
}.

(** What runs when a timer fires: the two callbacks given to [setTimeout]. *)
Inductive TimerAction :=
| EncodeTimeout (queueItem : ref) (outputFilePath : option string)
| GetExecutionTimeout (ticket : string) (prio : Z).

(** A [NodeJS.Timer]: [t_delay] is the second argument of [setTimeout],
    which the runtime reads in milliseconds. *)
Record Timer := mkTimer {
  t_handle : nat;
  t_delay : Q;
  t_onFire : TimerAction
}.

(** [interface RunningQueueItem]. *)
Record RunningQueueItem := mkRunningQueueItem {
  process : ChildProcess;
  encodeProgram : ref;
  isCanceld : bool;
  timerId : Timer
}.

(** A JavaScript [Error]; [message] is the string given to [new Error]. *)
Record JsError := Error { message : string }.

(** The rest of an [async] method after [await this.getExecution(..)]. *)
Inductive Cont :=
| KPush (addOption : AddEncodeProgramOption)
| KCheckQueue
| KFinalize (encodeId : Z)
| KCancel (encodeId : Z).

(** A listener of [UNLOCK_EVENT]: the closure [onDone] of [getExecution],
    which captures the ticket id, the timeout timer and [resolve]. *)
Record Waiter := mkWaiter {
  w_id : string;
  w_timer : Timer;
  w_cont : Cont
}.

Inductive Level := Debug | Info | ErrorLevel | Fatal.

(** The log lines of the class, one constructor per template string. *)
Inductive LogMsg :=
| GetExecutionError (prio : Z)
| AddNewEncode (encodeId : Z)
| CreateEncodeProcessError (encodeId : Z)
| ErrorObject (err : JsError)
| VideoFileIsNotFound (inputFilePath : string)
| Mkdirp (outputDirPath : string)
| EncodeStart (mode name inputFilePath : string) (outputFilePath : option string)
| EncodeProcessIsTimeOut (encodeId : Z) (outputFilePath : option string)
| ExitCode (code : option Z) (signal : option string)
| EncodeItemIsRemoved (recordedId : Z)
| CanceldEncode (encodeId : Z)
| EncodeFailed (encodeId : Z) (outputFilePath : option string)
| SuccessfullyEncod (encodeId : Z) (outputFilePath : option string)
| DeleteEncodeOutputFile (outputFilePath : string)
| DeleteEncodeOutputFileFailed (outputFilePath : string)
| ParentDirConfigIsNotFound (parentDir : string)
| CancelEncode (encodeId : Z)
| KillEncodeProcessFailed (encodeId : Z).

(** The argument of [encodeEvent.emitFinishEncode]. *)
Record FinishEncodeInfo := mkFinishEncodeInfo {
  f_recordedId : Z;
  f_videoFileId : Z;
  f_parentDirName : string;
  f_filePath : option string;
  f_fullOutputPath : option string;
  f_mode : string;
  f_removeOriginal : bool
}.

(** The argument of [processManager.create].  The [spawnOption.env] block
    (the environment of the encoder) is handed to the collaborator as it is
    and is left out: no field of the class depends on it. *)
Record CreateOption := mkCreateOption {
  input : string;
  output : option string;
  c_cmd : string;
  c_priority : Z
}.

(** What the class does to its collaborators, in the order it does it. *)
Inductive Effect :=
| Log (level : Level) (msg : LogMsg)
| EmitAddEncode (encodeId : Z)
| EmitFinishEncode (info : FinishEncodeInfo)
| EmitErrorEncode
| SetTimeout (t : Timer)
| ClearTimeout (t : Timer)
| Sleep (ms : Z)
| Mkdir (path : string)
| Unlink (path : string)
| Spawn (opt : CreateOption)
| Kill (p : ChildProcess)
| OnStderrData (p : ChildProcess)
| OnExit (p : ChildProcess) (queueItem : ref) (outputFilePath : option string)
| Reject (ticket : string) (k : Cont) (err : JsError).

(** The fields of the class, the objects they point to, and what the event
    loop holds for it: [resolved] are the continuations of granted
    [getExecution] promises, [ticks] counts the pending [process.nextTick]
    callbacks (each one is [emitNeedsCheckQueue]), [trace] is the history of
    effects. *)
Record State := mkState {
  lockId : option string;
  exeQueue : list ExeQueueData;
  listeners : list Waiter;
  waitQueue : list ref;
  runningQueue : list RunningQueueItem;
  idCnt : Z;
  store : list EncodeQueueItem;
  timerCnt : nat;
  ticketCnt : nat;
  resolved : list (string * Cont);
  ticks : nat;
  trace : list Effect
}.

(** [namespace EncodeManageModel]. *)
Definition UNLOCK_TIMEOUT : Q := (1000 * 60) # 1.
Definition CANCEL_ENCODE_PRIPORITY : Z := 1.
Definition ADD_ENCODE_PRIPORITY : Z := 2.
Definition CREATE_ENCODING_PROCESS_PRIPORITY : Z := 2.
Definition CLEAR_QUEUE_PRIPORITY : Z := 3.
Definition ENCODE_PRIPORITY : Z := 10.
Definition DEFAULT_TIMEOUT_RATE : Q := 4 # 1.

(** [Number.MAX_SAFE_INTEGER]; the counter is a double that holds an integer
    of at most this size, on which [++] is exact. *)
Definition MAX_SAFE_INTEGER : Z := 2 ^ 53 - 1.

(** The state the field initialisers of the class build. *)
Definition init : State :=
  mkState None [] [] [] [] 1 [] 0 0 [] 0 [].

(** ** Field updates *)

Definition set_lockId (v : option string) (s : State) : State :=
  mkState v (exeQueue s) (listeners s) (waitQueue s) (runningQueue s) (idCnt s)
    (store s) (timerCnt s) (ticketCnt s) (resolved s) (ticks s) (trace s).
Definition set_exeQueue (v : list ExeQueueData) (s : State) : State :=
  mkState (lockId s) v (listeners s) (waitQueue s) (runningQueue s) (idCnt s)
    (store s) (timerCnt s) (ticketCnt s) (resolved s) (ticks s) (trace s).
Definition set_listeners (v : list Waiter) (s : State) : State :=
  mkState (lockId s) (exeQueue s) v (waitQueue s) (runningQueue s) (idCnt s)
    (store s) (timerCnt s) (ticketCnt s) (resolved s) (ticks s) (trace s).
Definition set_waitQueue (v : list ref) (s : State) : State :=
  mkState (lockId s) (exeQueue s) (listeners s) v (runningQueue s) (idCnt s)
    (store s) (timerCnt s) (ticketCnt s) (resolved s) (ticks s) (trace s).
Definition set_runningQueue (v : list RunningQueueItem) (s : State) : State :=
  mkState (lockId s) (exeQueue s) (listeners s) (waitQueue s) v (idCnt s)
    (store s) (timerCnt s) (ticketCnt s) (resolved s) (ticks s) (trace s).
Definition set_idCnt (v : Z) (s : State) : State :=
  mkState (lockId s) (exeQueue s) (listeners s) (waitQueue s) (runningQueue s) v
    (store s) (timerCnt s) (ticketCnt s) (resolved s) (ticks s) (trace s).
Definition set_store (v : list EncodeQueueItem) (s : State) : State :=
  mkState (lockId s) (exeQueue s) (listeners s) (waitQueue s) (runningQueue s) (idCnt s)
    v (timerCnt s) (ticketCnt s) (resolved s) (ticks s) (trace s).
Definition set_timerCnt (v : nat) (s : State) : State :=
  mkState (lockId s) (exeQueue s) (listeners s) (waitQueue s) (runningQueue s) (idCnt s)
    (store s) v (ticketCnt s) (resolved s) (ticks s) (trace s).
Definition set_ticketCnt (v : nat) (s : State) : State :=
  mkState (lockId s) (exeQueue s) (listeners s) (waitQueue s) (runningQueue s) (idCnt s)
    (store s) (timerCnt s) v (resolved s) (ticks s) (trace s).
Definition set_resolved (v : list (string * Cont)) (s : State) : State :=
  mkState (lockId s) (exeQueue s) (listeners s) (waitQueue s) (runningQueue s) (idCnt s)
    (store s) (timerCnt s) (ticketCnt s) v (ticks s) (trace s).
Definition set_ticks (v : nat) (s : State) : State :=
  mkState (lockId s) (exeQueue s) (listeners s) (waitQueue s) (runningQueue s) (idCnt s)
    (store s) (timerCnt s) (ticketCnt s) (resolved s) v (trace s).
Definition set_trace (v : list Effect) (s : State) : State :=
  mkState (lockId s) (exeQueue s) (listeners s) (waitQueue s) (runningQueue s) (idCnt s)
    (store s) (timerCnt s) (ticketCnt s) (resolved s) (ticks s) v.

(** ** The monad of the methods: state, and a thrown error that stops *)

Inductive Outcome (A : Type) : Type :=
| Return (a : A)
| Throw (e : JsError)
| Diverge.
Arguments Return {A} a.
Arguments Throw {A} e.
Arguments Diverge {A}.

Definition M (A : Type) : Type := State -> Outcome A * State.

Definition ret {A} (a : A) : M A := fun s => (Return a, s).

Definition bind {A B} (m : M A) (f : A -> M B) : M B := fun s =>
  match m s with
  | (Return a, s') => f a s'
  | (Throw e, s') => (Throw e, s')
  | (Diverge, s') => (Diverge, s')
  end.

Definition throw {A} (e : JsError) : M A := fun s => (Throw e, s).

(** [try { m } catch (err) { h err }]. *)
Definition try_catch {A} (m : M A) (h : JsError -> M A) : M A := fun s =>
  match m s with
  | (Throw e, s') => h e s'
  | r => r
  end.

#[global] Instance M_ret : MRet M := @ret.
#[global] Instance M_bind : MBind M := fun A B f m => bind m f.
#[global] Instance M_throw : MThrow JsError M := @throw.

Definition gets {A} (f : State -> A) : M A := fun s => (Return (f s), s).
Definition modify (f : State -> State) : M unit := fun s => (Return tt, f s).

(** Performing an effect appends it to the history. *)
Definition effect (e : Effect) : M unit :=
  modify (fun s => set_trace (trace s ++ [e]) s).
Definition log (l : Level) (m : LogMsg) : M unit := effect (Log l m).

(** [await] of a collaborator's promise: a rejection is thrown. *)
Definition await {A} (r : JsError + A) : M A :=
  match r with
  | inl e => throw e
  | inr a => ret a
  end.

Fixpoint forM_ {A} (l : list A) (f : A -> M unit) : M unit :=
  match l with
  | [] => mret tt
  | x :: rest => f x;; forM_ rest f
  end.

(** ** The collaborators *)

(** An entry of [configure.getConfig().encode]. *)
Record EncodeCmd := mkEncodeCmd {
  name : string;
  cmd : string;
  suffix : option string;
  rate : option Q
}.

(** A row of the recorded table, with the fields [addQueue] reads outside
    the [spawnOption.env] block. *)
Record Recorded := mkRecorded {
  r_id : Z;
  r_name : string;
  duration : Q
}.

(** The answers of the collaborators injected into the constructor, of
    [FileUtil], [ProcessUtil] and [path], and the values that [Date] and
    [Math.random] give to [getExecution].  [concurrentEncodeNum] is the
    field that the constructor copies from the configuration.  [inl] is a
    rejected promise.  [loopBound] bounds the iterations of the [while (1)]
    of [getFilePath]. *)
Record Env := mkEnv {
  concurrentEncodeNum : Z;
  encode : list EncodeCmd;
  videoFileDB_findId : Z -> JsError + option unit;
  recordedDB_findId : Z -> JsError + option Recorded;
  getFullFilePath : Z -> JsError + option string;
  getParentDirPath : string -> option string;
  stat : string -> JsError + unit;
  mkdir : string -> JsError + unit;
  unlink : string -> JsError + unit;
  create : CreateOption -> JsError + ChildProcess;
  kill : ChildProcess -> JsError + unit;
  basename : string -> string;
  basename_ext : string -> string -> string;
  extname : string -> string;
  join : string -> string -> string;
  ticketId : nat -> string;
  loopBound : nat
}.

(** ** The execution gate *)

(** The [for] loop of [getExecution]: the first position whose ticket has a
    priority strictly below [p], the length of the queue when there is none. *)
Fixpoint findPosition (p : Z) (q : list ExeQueueData) : nat :=
  match q with
  | [] => O
  | x :: rest => if priority x <? p then O else S (findPosition p rest)
  end.

(** [l.splice(position, 0, x)]. *)
Definition splice {A} (position : nat) (x : A) (l : list A) : list A :=
  take position l ++ x :: drop position l.

(** The loop and the [splice] of [getExecution]. *)
Definition insertTicket (t : ExeQueueData) (q : list ExeQueueData) : list ExeQueueData :=
  splice (findPosition (priority t) q) t q.

Definition setTimeout (a : TimerAction) (delay : Q) : M Timer :=
  n ← gets timerCnt;
  modify (set_timerCnt (S n));;
  effect (SetTimeout (mkTimer n delay a));;
  mret (mkTimer n delay a).

Definition clearTimeout (t : Timer) : M unit := effect (ClearTimeout t).

(** [onDone] of a listener whose ticket is the one announced. *)
Definition onDone (w : Waiter) : M unit :=
  clearTimeout (w_timer w);;
  modify (fun s => set_resolved (resolved s ++ [(w_id w, w_cont w)]) s);;
  modify (fun s =>
    set_listeners (List.filter (fun v => negb (t_handle (w_timer v) =? t_handle (w_timer w))%nat)
                               (listeners s)) s).

(** [exeEventEmitter.emit(UNLOCK_EVENT, i)]: every listener registered at
    this time is called; those of another ticket return at once. *)
Definition emitUnlockEvent (i : string) : M unit :=
  ls ← gets listeners;
  forM_ (List.filter (fun w => String.eqb (w_id w) i) ls) onDone.

Definition unLockExecution (i : string) : M unit :=
  l ← gets lockId;
  (if decide (l = Some i) then modify (set_lockId None) else mret tt);;
  l ← gets lockId;
  match l with
  | None =>
      q ← gets exeQueue;
      match q with
      | [] => mret tt
      | x :: rest =>
          modify (set_exeQueue rest);;
          modify (set_lockId (Some (id x)));;
          emitUnlockEvent (id x)
      end
  | Some _ => mret tt
  end.

Section Manager.

Variable env : Env.

(** [getExecution], up to the point where its promise is pending; [k] is
    what the caller does once the promise resolves. *)
Definition getExecution (p : Z) (k : Cont) : M unit :=
  n ← gets ticketCnt;
  modify (set_ticketCnt (S n));;
  let exeQueueData := mkExeQueueData (ticketId env n) p in
  modify (fun s => set_exeQueue (insertTicket exeQueueData (exeQueue s)) s);;
  timer ← setTimeout (GetExecutionTimeout (id exeQueueData) p) UNLOCK_TIMEOUT;
  modify (fun s => set_listeners (listeners s ++ [mkWaiter (id exeQueueData) timer k]) s);;
  unLockExecution (id exeQueueData).

(** The callback of the timer of [getExecution]. *)
Definition onGetExecutionTimeout (t : Timer) (prio : Z) : M unit :=
  log ErrorLevel (GetExecutionError prio);;
  ls ← gets listeners;
  match List.find (fun w => (t_handle (w_timer w) =? t_handle t)%nat) ls with
  | Some w =>
      modify (set_listeners
        (List.filter (fun v => negb (t_handle (w_timer v) =? t_handle t)%nat) ls));;
      effect (Reject (w_id w) (w_cont w) (Error "GetExecutionTimeoutError"))
  | None => mret tt
  end.

(** ** Queues *)

Definition alloc (it : EncodeQueueItem) : M ref :=
  st ← gets store;
  modify (set_store (st ++ [it]));;
  mret (length st).

(** Reading a field through a reference.  The references that the queues
    and the closures hold point into the store; reading through one that
    does not is reading a property of [undefined], a [TypeError]. *)
Definition deref (r : ref) : M EncodeQueueItem :=
  st ← gets store;
  match st !! r with
  | Some it => mret it
  | None => mthrow (Error "TypeError")
  end.

(** [r.f === v] for a reference [r] held by a queue. *)
Definition fieldIs (st : list EncodeQueueItem) (f : EncodeQueueItem -> Z) (v : Z) (r : ref) : bool :=
  match st !! r with
  | Some it => f it =? v
  | None => false
  end.

Definition getRunnginQueueItem (eid : Z) (s : State) : option RunningQueueItem :=
  List.find (fun q => fieldIs (store s) encodeId eid (encodeProgram q)) (runningQueue s).

Definition hasSamVideoFileIdItem (videoFileId : Z) (s : State) : bool :=
  match List.find (fun q => fieldIs (store s) sourceVideoFileId videoFileId (encodeProgram q))
                  (runningQueue s) with
  | Some _ => true
  | None =>
      match List.find (fun q => fieldIs (store s) sourceVideoFileId videoFileId q) (waitQueue s) with
      | Some _ => true
      | None => false
      end
  end.

(** ** checkQueue and push *)

Definition checkQueue : M unit :=
  rq ← gets runningQueue;
  wq ← gets waitQueue;
  if (concurrentEncodeNum env <=? Z.of_nat (length rq)) || (length wq =? 0)%nat
  then mret tt
  else getExecution CREATE_ENCODING_PROCESS_PRIPORITY KCheckQueue.

(** The one listener of [NEEDS_CHECK_QUEUE_EVENT] is [checkQueue], which
    [emit] calls at once. *)
Definition emitNeedsCheckQueue : M unit := checkQueue.

Definition cloneDeep (o : AddEncodeProgramOption) (eid : Z) : EncodeQueueItem :=
  mkEncodeQueueItem eid (o_recordedId o) (o_sourceVideoFileId o) (o_mode o)
    (o_parentDir o) (o_directory o) (o_removeOriginal o).

Definition push (addOption : AddEncodeProgramOption) : M unit :=
  if concurrentEncodeNum env <=? 0
  then mthrow (Error "CncurrentEncodeNumIsZero")
  else getExecution ADD_ENCODE_PRIPORITY (KPush addOption).

Definition push_body (addOption : AddEncodeProgramOption) (exeId : string) : M Z :=
  eid ← gets idCnt;
  queueItem ← alloc (cloneDeep addOption eid);
  (if eid =? MAX_SAFE_INTEGER then modify (set_idCnt 0) else mret tt);;
  modify (fun s => set_idCnt (idCnt s + 1) s);;
  modify (fun s => set_waitQueue (waitQueue s ++ [queueItem]) s);;
  emitNeedsCheckQueue;;
  log Info (AddNewEncode eid);;
  unLockExecution exeId;;
  effect (EmitAddEncode eid);;
  mret eid.

(** ** finalize and cancel *)

Definition finalize (eid : Z) : M unit :=
  getExecution CLEAR_QUEUE_PRIPORITY (KFinalize eid).

Definition nextTick_emitNeedsCheckQueue : M unit :=
  modify (fun s => set_ticks (S (ticks s)) s).

Definition finalize_body (eid : Z) (exeId : string) : M unit :=
  queueItem ← gets (getRunnginQueueItem eid);
  match queueItem with
  | Some q => clearTimeout (timerId q)
  | None => mret tt
  end;;
  modify (fun s =>
    set_runningQueue
      (List.filter (fun q => negb (fieldIs (store s) encodeId eid (encodeProgram q)))
                   (runningQueue s)) s);;
  unLockExecution exeId;;
  nextTick_emitNeedsCheckQueue.

Definition cancel (eid : Z) : M unit :=
  getExecution CANCEL_ENCODE_PRIPORITY (KCancel eid).

(** [runningQueueItem.isCanceld = true] on the entry that [find] returned,
    the first one with this encode id. *)
Fixpoint markCanceld (st : list EncodeQueueItem) (eid : Z) (rq : list RunningQueueItem)
  : list RunningQueueItem :=
  match rq with
  | [] => []
  | q :: rest =>
      if fieldIs st encodeId eid (encodeProgram q)
      then mkRunningQueueItem (process q) (encodeProgram q) true (timerId q) :: rest
      else q :: markCanceld st eid rest
  end.

(** [cancel] with the ticket; the await of [ProcessUtil.kill] touches no
    field of the class. *)
Definition cancel_body (eid : Z) (exeId : string) : M unit :=
  log Info (CancelEncode eid);;
  runningQueueItem ← gets (getRunnginQueueItem eid);
  match runningQueueItem with
  | Some q =>
      modify (fun s => set_runningQueue (markCanceld (store s) eid (runningQueue s)) s);;
      effect (Kill (process q));;
      match kill env (process q) with
      | inl err =>
          log ErrorLevel (KillEncodeProcessFailed eid);;
          log ErrorLevel (ErrorObject err)
      | inr _ => mret tt
      end
  | None =>
      modify (fun s =>
        set_waitQueue
          (List.filter (fun q => negb (fieldIs (store s) encodeId eid q)) (waitQueue s)) s);;
      nextTick_emitNeedsCheckQueue
  end;;
  unLockExecution exeId.

(** ** The process supervisor *)

Definition getDirPath (queueItem : EncodeQueueItem) : M string :=
  match getParentDirPath env (parentDir queueItem) with
  | None =>
      log ErrorLevel (ParentDirConfigIsNotFound (parentDir queueItem));;
      mthrow (Error "parentDirIsNotFound")
  | Some dir =>
      mret (match directory queueItem with
            | None => dir
            | Some d => join env dir d
            end)
  end.

(** The [while (1)] of [getFilePath]; [n] bounds its iterations.  The test
    [result === null] after the loop never holds and is left out. *)
Fixpoint getFilePath_loop (n : nat) (outputDirPath basefileName sfx : string) (conflict : Z)
  : M string :=
  match n with
  | O => fun s => (Diverge, s)
  | S n' =>
      let fileName :=
        basefileName +:+ (if 0 <? conflict then "(" +:+ pretty conflict +:+ ")" else "") +:+ sfx in
      let result := join env outputDirPath fileName in
      match stat env result with
      | inr _ => getFilePath_loop n' outputDirPath basefileName sfx (conflict + 1)
      | inl _ => mret result
      end
  end.

Definition getFilePath (outputDirPath inputFilePath sfx : string) : M string :=
  getFilePath_loop (loopBound env) outputDirPath
    (basename_ext env inputFilePath (extname env inputFilePath)) sfx 0.

(** [o === null ? throw new Error(msg) : o]. *)
Definition orThrow {A} (o : option A) (msg : string) : M A :=
  match o with
  | Some a => mret a
  | None => mthrow (Error msg)
  end.

(** The delay of the encode timeout: [recorded.duration * rate], with
    [DEFAULT_TIMEOUT_RATE] for a profile without rate.  The two numbers are
    rationals; their product is the JavaScript product wherever that one is
    exact. *)
Definition timeoutDelay (recorded : Recorded) (encodeCmd : EncodeCmd) : Q :=
  Qmult (duration recorded)
        (match rate encodeCmd with
         | None => DEFAULT_TIMEOUT_RATE
         | Some r => r
         end).

(** The cleanup of the exit handler: deletes the output file, if any. *)
Definition deleteOutputFile (outputFilePath : option string) : M unit :=
  match outputFilePath with
  | Some p =>
      log Info (DeleteEncodeOutputFile p);;
      effect (Sleep 1000);;
      effect (Unlink p);;
      match unlink env p with
      | inl err =>
          log ErrorLevel (DeleteEncodeOutputFileFailed p);;
          log ErrorLevel (ErrorObject err)
      | inr _ => mret tt
      end
  | None => mret tt
  end.

(** [item] with [removeOriginal] set to [false]. *)
Definition keepOriginal (item : EncodeQueueItem) : EncodeQueueItem :=
  mkEncodeQueueItem (encodeId item) (recordedId item) (sourceVideoFileId item)
    (mode item) (parentDir item) (directory item) false.

(** [queueItem.removeOriginal = false], on the object itself: every holder
    of the reference sees it. *)
Definition clearRemoveOriginal (r : ref) : M unit :=
  it ← deref r;
  modify (fun s => set_store (<[r := keepOriginal it]> (store s)) s).

(** The listener of the child's [exit] event, installed by [addQueue]; it
    closes over [queueItem] and [outputFilePath].  It reads the queues
    without a ticket.  Its awaits ([Util.sleep], [FileUtil.unlink]) touch no
    field of the class, so it is taken as one step; the call of [finalize]
    at its end is not awaited. *)
Definition exitHandler (r : ref) (outputFilePath : option string)
  (code : option Z) (signal : option string) : M unit :=
  queueItem ← deref r;
  log Info (ExitCode code signal);;
  encodingQueueItem ← gets (getRunnginQueueItem (encodeId queueItem));
  isError ←
    match encodingQueueItem with
    | None =>
        log Fatal (EncodeItemIsRemoved (recordedId queueItem));;
        mret true
    | Some q =>
        if isCanceld q then
          log Info (CanceldEncode (encodeId queueItem));;
          mret true
        else if negb (bool_decide (code = Some 0)) then
          log ErrorLevel (EncodeFailed (encodeId queueItem) outputFilePath);;
          mret true
        else
          log Info (SuccessfullyEncod (encodeId queueItem) outputFilePath);;
          let fileName := basename env <$> outputFilePath in
          has ← gets (hasSamVideoFileIdItem (sourceVideoFileId queueItem));
          (if removeOriginal queueItem && has then clearRemoveOriginal r else mret tt);;
          queueItem ← deref r;
          effect (EmitFinishEncode
            (mkFinishEncodeInfo (recordedId queueItem) (sourceVideoFileId queueItem)
               (parentDir queueItem)
               (match fileName with
                | None => None
                | Some f =>
                    Some (match directory queueItem with
                          | None => f
                          | Some d => join env d f
                          end)
                end)
               outputFilePath (mode queueItem) (removeOriginal queueItem)));;
          mret false
    end;
  (if isError : bool then
     deleteOutputFile outputFilePath;;
     effect EmitErrorEncode
   else mret tt);;
  finalize (encodeId queueItem).

(** The callback of the encode timeout installed by [addQueue]. *)
Definition onEncodeTimeout (r : ref) (outputFilePath : option string) : M unit :=
  queueItem ← deref r;
  log ErrorLevel (EncodeProcessIsTimeOut (encodeId queueItem) outputFilePath);;
  cancel (encodeId queueItem).

Definition addQueue (r : ref) : M unit :=
  queueItem ← deref r;
  video ← await (videoFileDB_findId env (sourceVideoFileId queueItem));
  _ ← orThrow video "VideoFileIdIsNotFound";
  recorded ← await (recordedDB_findId env (recordedId queueItem));
  recorded ← orThrow recorded "RecordedIsNotFound";
  inputFilePath ← await (getFullFilePath env (sourceVideoFileId queueItem));
  inputFilePath ← orThrow inputFilePath "VideoPathIsNotFound";
  try_catch (await (stat env inputFilePath))
    (fun err => log ErrorLevel (VideoFileIsNotFound inputFilePath);; mthrow err);;
  encodeCmd ← orThrow (List.find (fun enc => String.eqb (name enc) (mode queueItem)) (encode env))
                       "EncodeCommandIsNotFound";
  outputDirPath ←
    match suffix encodeCmd with
    | None => mret None
    | Some _ => d ← getDirPath queueItem; mret (Some d)
    end;
  match outputDirPath with
  | Some d =>
      try_catch (await (stat env d))
        (fun _ => log Info (Mkdirp d);; effect (Mkdir d);; await (mkdir env d))
  | None => mret tt
  end;;
  outputFilePath ←
    match outputDirPath, suffix encodeCmd with
    | Some d, Some sfx => p ← getFilePath d inputFilePath sfx; mret (Some p)
    | _, _ => mret None
    end;
  log Info (EncodeStart (mode queueItem) (r_name recorded) inputFilePath outputFilePath);;
  let opt := mkCreateOption inputFilePath outputFilePath (cmd encodeCmd) ENCODE_PRIPORITY in
  effect (Spawn opt);;
  childProcess ← await (create env opt);
  timer ← setTimeout (EncodeTimeout r outputFilePath) (timeoutDelay recorded encodeCmd);
  modify (fun s =>
    set_runningQueue (runningQueue s ++ [mkRunningQueueItem childProcess r false timer]) s);;
  (if stderr childProcess then effect (OnStderrData childProcess) else mret tt);;
  effect (OnExit childProcess r outputFilePath).

(** The awaits of [addQueue] touch no field of the class, so the part of
    [checkQueue] that holds the ticket is taken as one step. *)
Definition checkQueue_body (exeId : string) : M unit :=
  wq ← gets waitQueue;
  needsFinalize ←
    match wq with
    | encodeProgram :: rest =>
        modify (set_waitQueue rest);;
        try_catch (addQueue encodeProgram;; mret None)
          (fun err =>
             queueItem ← deref encodeProgram;
             log ErrorLevel (CreateEncodeProcessError (encodeId queueItem));;
             log ErrorLevel (ErrorObject err);;
             effect EmitErrorEncode;;
             mret (Some (encodeId queueItem)))
    | [] => mret None
    end;
  unLockExecution exeId;;
  match needsFinalize with
  | Some eid => finalize eid
  | None => mret tt
  end.

(** ** The event loop *)

(** A granted [getExecution] promise resumes its caller. *)
Definition resume (exeId : string) (k : Cont) : M unit :=
  match k with
  | KPush addOption => _ ← push_body addOption exeId; mret tt
  | KCheckQueue => checkQueue_body exeId
  | KFinalize eid => finalize_body eid exeId
  | KCancel eid => cancel_body eid exeId
  end.

Definition runTick : M unit :=
  t ← gets ticks;
  match t with
  | O => mret tt
  | S t' => modify (set_ticks t');; emitNeedsCheckQueue
  end.

Definition runResolved : M unit :=
  rs ← gets resolved;
  match rs with
  | [] => mret tt
  | (exeId, k) :: rest => modify (set_resolved rest);; resume exeId k
  end.

Definition fireTimer (t : Timer) : M unit :=
  match t_onFire t with
  | EncodeTimeout r outputFilePath => onEncodeTimeout r outputFilePath
  | GetExecutionTimeout _ prio => onGetExecutionTimeout t prio
  end.

(** What can happen to the manager: a call of a public method, a callback
    of the event loop, the exit of a child, a timer that fires. *)
Inductive Event :=
| CallPush (addOption : AddEncodeProgramOption)
| CallCancel (eid : Z)
| RunTick
| RunResolved
| ProcessExit (queueItem : ref) (outputFilePath : option string)
              (code : option Z) (signal : option string)
| TimerFires (t : Timer).

Definition handle (ev : Event) : M unit :=
  match ev with
  | CallPush addOption => push addOption
  | CallCancel eid => cancel eid
  | RunTick => runTick
  | RunResolved => runResolved
  | ProcessExit r outputFilePath code signal => exitHandler r outputFilePath code signal
  | TimerFires t => fireTimer t
  end.

Definition step (ev : Event) (s : State) : State := (handle ev s).2.

Definition run (evs : list Event) (s : State) : State := foldl (fun s ev => step ev s) s evs.

(** Pending ticks first, then granted promises, until nothing is left to do
    or [n] callbacks have run. *)
Fixpoint runLoop (n : nat) (s : State) : State :=
  match n with
  | O => s
  | S n' =>
      match ticks s, resolved s with
      | S _, _ => runLoop n' (step RunTick s)
      | O, _ :: _ => runLoop n' (step RunResolved s)
      | O, [] => s
      end
  end.

End Manager.

(** The states the manager can be in. *)
Inductive Reachable (env : Env) : State -> Prop :=
| Reachable_init : Reachable env init
| Reachable_step s ev : Reachable env s -> Reachable env (step env ev s).

(** The effects that [m] adds to the history of [s]. *)
Definition effectsOf {A} (m : M A) (s : State) : list Effect :=
  drop (length (trace s)) (trace (m s).2).

(** ** Properties of methods *)

(** [m] keeps the property [P] of the state, however it ends. *)
Definition preserves {A} (P : State -> Prop) (m : M A) : Prop :=
  forall s, P s -> P (m s).2.

(** [m] returns normally from every state. *)
Definition total {A} (m : M A) : Prop :=
  forall s, exists a, (m s).1 = Return a.

(** The ticket queue is ordered by priority, highest first. *)
Definition gate_sorted (q : list ExeQueueData) : Prop :=
  StronglySorted (fun a b => priority b <= priority a) q.

(** ** Concrete collaborators and scenarios *)

(** One encoder profile with rate 2, a recording of duration 60, an input
    file and an output directory that exist, and a spawn that succeeds. *)
Definition env0 : Env :=
  mkEnv 1 [mkEncodeCmd "H264" "ffmpeg" (Some ".mp4") (Some (2 # 1)%Q)]
    (fun _ => inr (Some tt))
    (fun i => inr (Some (mkRecorded i "prog" (60 # 1)%Q)))
    (fun _ => inr (Some "/rec/a.ts"))
    (fun _ => Some "/enc")
    (fun p => if String.eqb p "/rec/a.ts" || String.eqb p "/enc"
              then inr tt else inl (Error "ENOENT"))
    (fun _ => inr tt)
    (fun _ => inr tt)
    (fun _ => inr (mkChildProcess 100 true))
    (fun _ => inr tt)
    (fun _ => "a.mp4")
    (fun _ _ => "a")
    (fun _ => ".ts")
    (fun a b => a +:+ "/" +:+ b)
    (fun n => "t" +:+ pretty n)
    10.

(** The same collaborators with encoding switched off. *)
Definition env_off : Env :=
  mkEnv 0 (encode env0) (videoFileDB_findId env0) (recordedDB_findId env0)
    (getFullFilePath env0) (getParentDirPath env0) (stat env0) (mkdir env0)
    (unlink env0) (create env0) (kill env0) (basename env0) (basename_ext env0)
    (extname env0) (join env0) (ticketId env0) (loopBound env0).

(** A request for source video file 7 that asks to remove the original. *)
Definition optA : AddEncodeProgramOption :=
  mkAddOption 5 7 "H264" "recorded" None true.

(** [optA] was pushed and promoted: job 1 is the only entry of the running
    queue, the wait queue is empty, the gate is free. *)
Definition s_running : State :=
  runLoop env0 20 (step env0 (CallPush optA) init).

(** Job 1 runs and a push holds the ticket while a cancel, a push, the exit
    of job 1 (which calls [finalize]) and one more push arrive: their
    tickets wait in the ticket queue. *)
Definition s_contended : State :=
  run env0 [CallPush optA; CallCancel 1; CallPush optA;
            ProcessExit 0%nat (Some "/enc/a.mp4") (Some 0) None; CallPush optA] s_running.

(** ** Effects *)

(** [s] with the effects [l] added to its history. *)
Definition add_effects (l : list Effect) (s : State) : State :=
  set_trace (trace s ++ l) s.

(** The effects of the cleanup of the exit handler. *)
Definition cleanupEffects (env : Env) (outputFilePath : option string) : list Effect :=
  match outputFilePath with
  | Some p =>
      [Log Info (DeleteEncodeOutputFile p); Sleep 1000; Unlink p] ++
      match unlink env p with
      | inl err => [Log ErrorLevel (DeleteEncodeOutputFileFailed p); Log ErrorLevel (ErrorObject err)]
      | inr _ => []
      end
  | None => []
  end.

(** Setting and clearing timers is all the gate does to the outside. *)
Definition isTimerEffect (e : Effect) : Prop :=
  match e with
  | SetTimeout _ | ClearTimeout _ => True
  | _ => False
  end.

(** The history of [s] is [t0] followed by effects that satisfy [Q]. *)
Definition extends_by (Q : Effect -> Prop) (t0 : list Effect) (s : State) : Prop :=
  exists l, trace s = t0 ++ l /\ Forall Q l.

(** The ids announced by [emitAddEncode]: what the calls of [push] returned,
    in order. *)
Fixpoint addedIds (t : list Effect) : list Z :=
  match t with
  | [] => []
  | EmitAddEncode i :: rest => i :: addedIds rest
  | _ :: rest => addedIds rest
  end.

(** The manager with its id counter at the upper bound. *)
Definition s_max : State := set_idCnt MAX_SAFE_INTEGER init.

(** The deadline in the words of the specification: duration in seconds
    times rate, in seconds; here in the milliseconds of [setTimeout]. *)
Definition deadline_in_seconds_ms (duration_seconds rate : Q) : Q :=
  Qmult (1000 # 1) (Qmult duration_seconds rate).

(** The argument that the success branch of the exit handler gives to
    [emitFinishEncode], for the value [ro] of [queueItem.removeOriginal]. *)
Definition finishInfo (env : Env) (item : EncodeQueueItem) (outputFilePath : option string)
  (ro : bool) : FinishEncodeInfo :=
  mkFinishEncodeInfo (recordedId item) (sourceVideoFileId item) (parentDir item)
    (match basename env <$> outputFilePath with
     | None => None
     | Some f => Some (match directory item with
                       | None => f
                       | Some d => join env d f
                       end)
     end)
    outputFilePath (mode item) ro.

Definition isFinishEvent (e : Effect) : Prop :=
  match e with
  | EmitFinishEncode _ => True
  | _ => False
  end.

(** Job 1 of [s_running] was cancelled: its entry is marked, the child was
    sent a kill. *)
Definition s_canceld : State :=
  runLoop env0 20 (step env0 (CallCancel 1) s_running).

(** Job 1 of [s_running] has exited with code 0 and was finalized. *)
Definition s_done : State :=
  runLoop env0 20 (step env0 (ProcessExit 0%nat (Some "/enc/a.mp4") (Some 0) None) s_running).

(** [optA] was pushed and waits for its promotion: the item is in the
    store and in the wait queue, [checkQueue] holds the ticket. *)
Definition s_wait : State :=
  step env0 RunResolved (step env0 (CallPush optA) init).

(** Two pushes from [s_max], each run to the end. *)
Definition s_wrapped : State :=
  runLoop env0 20 (step env0 (CallPush optA)
    (runLoop env0 20 (step env0 (CallPush optA) s_max))).

(** A thrown error, or the loop of [getFilePath] that does not end, leaves
    [P] as it was. *)
Definition on_throw {A} (P : State -> Prop) (m : M A) : Prop :=
  forall s, P s ->
    match (m s).1 with
    | Return _ => True
    | _ => P (m s).2
    end.

(** ** More scenarios and notions for statements *)

(** A second request, for the same source video file. *)
Definition optB : AddEncodeProgramOption :=
  mkAddOption 6 7 "H264" "recorded" None true.

(** Two calls of [push] made back to back on a fresh manager, and the
    event loop run until nothing is left to do. *)
Definition s_two : State :=
  runLoop env0 40 (run env0 [CallPush optA; CallPush optB] init).

(** The gate fields. *)
Definition gate_of (s : State) : option string * list ExeQueueData :=
  (lockId s, exeQueue s).

(** What [onDone] leaves of the listeners after the waiters [hit] were
    resumed: those whose timer is none of theirs. *)
Definition unsubscribe (hit ls : list Waiter) : list Waiter :=
  foldl (fun acc w =>
           List.filter (fun v => negb (t_handle (w_timer v) =? t_handle (w_timer w))%nat) acc)
        ls hit.

(** In [s_contended] the timer of the waiting [finalize] ticket fires. *)
Definition s_timedout : State :=
  step env0 (TimerFires (mkTimer 6 UNLOCK_TIMEOUT (GetExecutionTimeout "t5" 3))) s_contended.

(** The two pushes of [s_two] after three callbacks: the first job runs,
    the second waits, and the second [checkQueue] has been granted the
    ticket that it asked for before the first job was promoted. *)
Definition s_second : State :=
  set_resolved [] (runLoop env0 3 (run env0 [CallPush optA; CallPush optB] init)).

(** The collaborators of [env0] with a video file table that has no row. *)
Definition env_novideo : Env :=
  mkEnv 1 (encode env0) (fun _ => inr None) (recordedDB_findId env0)
    (getFullFilePath env0) (getParentDirPath env0) (stat env0) (mkdir env0)
    (unlink env0) (create env0) (kill env0) (basename env0) (basename_ext env0)
    (extname env0) (join env0) (ticketId env0) (loopBound env0).

(** The collaborators of [env0] with a [ProcessUtil.kill] that rejects. *)
Definition env_nokill : Env :=
  mkEnv 1 (encode env0) (videoFileDB_findId env0) (recordedDB_findId env0)
    (getFullFilePath env0) (getParentDirPath env0) (stat env0) (mkdir env0)
    (unlink env0) (create env0) (fun _ => inl (Error "ESRCH")) (basename env0)
    (basename_ext env0) (extname env0) (join env0) (ticketId env0) (loopBound env0).

(** [q] with [isCanceld] set. *)
Definition canceld (q : RunningQueueItem) : RunningQueueItem :=
  mkRunningQueueItem (process q) (encodeProgram q) true (timerId q).

(** Job 1 runs and job 2 waits behind it. *)
Definition s_queued : State :=
  runLoop env0 20 (step env0 (CallPush optB) s_running).

(** The lifecycle events among some effects: finish and error. *)
Definition emitted (l : list Effect) : list Effect :=
  List.filter (fun e => match e with
                        | EmitFinishEncode _ | EmitErrorEncode => true
                        | _ => false
                        end) l.

(** The file names that [getFilePath] tries, by the value of [conflict]. *)
Definition candidate (env : Env) (outputDirPath basefileName sfx : string) (conflict : Z)
  : string :=
  join env outputDirPath
    (basefileName +:+ (if 0 <? conflict then "(" +:+ pretty conflict +:+ ")" else "") +:+ sfx).

(** Effects that leave something behind for a job: a timer, a listener. *)
Definition installs (e : Effect) : Prop :=
  match e with
  | SetTimeout _ | OnExit _ _ _ | OnStderrData _ => True
  | _ => False
  end.

(** The collaborators of [env0] with an output file name that is taken
    twice over. *)
Definition env_taken : Env :=
  mkEnv 1 (encode env0) (videoFileDB_findId env0) (recordedDB_findId env0)
    (getFullFilePath env0) (getParentDirPath env0)
    (fun p => if String.eqb p "/enc/a.mp4" || String.eqb p "/enc/a(1).mp4"
              then inr tt else inl (Error "ENOENT"))
    (mkdir env0) (unlink env0) (create env0) (kill env0) (basename env0)
    (basename_ext env0) (extname env0) (join env0) (ticketId env0) (loopBound env0).

(** ** getRecordedIndex and the ids of cancelEncodeByRecordedId *)

(** An entry of [EncodeRecordedIdIndex]. *)
Record IndexItem := mkIndexItem {
  i_encodeId : Z;
  i_name : string
}.

(** [if (typeof index[k] === 'undefined') index[k] = []; index[k].push(..)]
    for the queue item [it]. *)
Definition addToIndex (index : gmap Z (list IndexItem)) (it : EncodeQueueItem)
  : gmap Z (list IndexItem) :=
  <[recordedId it :=
      default [] (index !! recordedId it) ++ [mkIndexItem (encodeId it) (mode it)]]> index.

(** One of the two [for] loops of [getRecordedIndex]. *)
Fixpoint indexItems (index : gmap Z (list IndexItem)) (refs : list ref)
  : M (gmap Z (list IndexItem)) :=
  match refs with
  | [] => mret index
  | r :: rest => it ← deref r; indexItems (addToIndex index it) rest
  end.

Definition getRecordedIndex : M (gmap Z (list IndexItem)) :=
  rq ← gets runningQueue;
  index ← indexItems ∅ (map encodeProgram rq);
  wq ← gets waitQueue;
  indexItems index wq.

(** One of the two [for] loops of [cancelEncodeByRecordedId] that collect
    the encode ids of a recorded id. *)
Fixpoint idsOfRecorded (rid : Z) (refs : list ref) : M (list Z) :=
  match refs with
  | [] => mret []
  | r :: rest =>
      it ← deref r;
      ids ← idsOfRecorded rid rest;
      mret (if recordedId it =? rid then encodeId it :: ids else ids)
  end.

(** The first part of [cancelEncodeByRecordedId]: the ids that it will
    cancel, those of the wait queue first. *)
Definition cancelEncodeByRecordedId_ids (rid : Z) : M (list Z) :=
  wq ← gets waitQueue;
  a ← idsOfRecorded rid wq;
  rq ← gets runningQueue;
  b ← idsOfRecorded rid (map encodeProgram rq);
  mret (a ++ b).

(** The queue items behind a list of references. *)
Fixpoint derefAll (st : list EncodeQueueItem) (refs : list ref)
  : option (list EncodeQueueItem) :=
  match refs with
  | [] => Some []
  | r :: rest =>
      match st !! r, derefAll st rest with
      | Some it, Some its => Some (it :: its)
      | _, _ => None
      end
  end.

(** The queue items of a recorded id among [items]. *)
Definition ofRecorded (rid : Z) (items : list EncodeQueueItem) : list EncodeQueueItem :=
  List.filter (fun it => recordedId it =? rid) items.

Definition toIndexItem (it : EncodeQueueItem) : IndexItem :=
  mkIndexItem (encodeId it) (mode it).

(** The references that the two queues hold, the wait queue first. *)
Definition refsOf (s : State) : list ref :=
  waitQueue s ++ map encodeProgram (runningQueue s).

(** Every reference of a queue has its item in the store, and no item is
    referred to twice. *)
Definition queues_wf (s : State) : Prop :=
  Forall (fun r => (r < length (store s))%nat) (refsOf s) /\ NoDup (refsOf s).

(** The encode ids of the stored items, as long as the id counter has not
    wrapped: the item behind the reference [k] has the id [k + 1], and the
    counter is the next one. *)
Definition ids_wf (s : State) : Prop :=
  Z.of_nat (length (store s)) < MAX_SAFE_INTEGER ->
  idCnt s = Z.of_nat (length (store s)) + 1
  /\ forall k item, store s !! k = Some item -> encodeId item = Z.of_nat k + 1.
(** ** Rules for [preserves] and [total] *)

Lemma preserves_ret {A} P (a : A) : preserves P (mret a).
Proof. intros s H. exact H. Qed.

Lemma preserves_throw {A} P (e : JsError) : preserves P (mthrow e : M A).
Proof. intros s H. exact H. Qed.

Lemma preserves_gets {A} P (f : State -> A) : preserves P (gets f).
Proof. intros s H. exact H. Qed.

Lemma preserves_modify P f : (forall s, P s -> P (f s)) -> preserves P (modify f).
Proof. intros Hf s H. apply Hf, H. Qed.

Lemma preserves_bind {A B} P (m : M A) (f : A -> M B) :
  preserves P m -> (forall a, preserves P (f a)) -> preserves P (m ≫= f).
Proof.
  intros Hm Hf s H. unfold mbind, M_bind, bind.
  specialize (Hm s H). destruct (m s) as [[a|e|] s']; simpl in *; auto.
  apply Hf, Hm.
Qed.

Lemma preserves_try_catch {A} P (m : M A) h :
  preserves P m -> (forall e, preserves P (h e)) -> preserves P (try_catch m h).
Proof.
  intros Hm Hh s H. unfold try_catch.
  specialize (Hm s H). destruct (m s) as [[a|e|] s']; simpl in *; auto.
  apply Hh, Hm.
Qed.

Lemma preserves_await {A} P (r : JsError + A) : preserves P (await r).
Proof. destruct r; intros s H; exact H. Qed.

Lemma preserves_forM_ {A} P (l : list A) f :
  (forall a, preserves P (f a)) -> preserves P (forM_ l f).
Proof.
  intros Hf. induction l as [|x l IH]; simpl.
  - apply preserves_ret.
  - apply preserves_bind; auto.
Qed.

Lemma total_ret {A} (a : A) : total (mret a).
Proof. intros s. eauto. Qed.

Lemma total_gets {A} (f : State -> A) : total (gets f).
Proof. intros s. eauto. Qed.

Lemma total_modify f : total (modify f).
Proof. intros s. eauto. Qed.

Lemma total_bind {A B} (m : M A) (f : A -> M B) :
  total m -> (forall a, total (f a)) -> total (m ≫= f).
Proof.
  intros Hm Hf s. unfold mbind, M_bind, bind.
  destruct (Hm s) as [a Ha]. destruct (m s) as [o s']; simpl in *; subst o.
  apply Hf.
Qed.

Lemma total_forM_ {A} (l : list A) f : (forall a, total (f a)) -> total (forM_ l f).
Proof.
  intros Hf. induction l as [|x l IH]; simpl.
  - apply total_ret.
  - apply total_bind; auto.
Qed.

(** Running a method that returns, then the rest. *)
Lemma bind_total {A B} (m : M A) (f : A -> M B) s :
  total m -> exists a, (m s).1 = Return a /\ (m ≫= f) s = f a (m s).2.
Proof.
  intros Hm. destruct (Hm s) as [a Ha]. exists a. split; [exact Ha|].
  unfold mbind, M_bind, bind. destruct (m s) as [o s']; simpl in *; subst o. reflexivity.
Qed.

Create HintDb pres.

Ltac pres_step :=
  lazymatch goal with
  | |- preserves _ (mbind _ _) => apply preserves_bind; [|intros ?]
  | |- preserves _ (mret _) => apply preserves_ret
  | |- preserves _ (mthrow _) => apply preserves_throw
  | |- preserves _ (gets _) => apply preserves_gets
  | |- preserves _ (await _) => apply preserves_await
  | |- preserves _ (try_catch _ _) => apply preserves_try_catch; [|intros ?]
  | |- preserves _ (forM_ _ _) => apply preserves_forM_; intros ?
  | |- preserves _ (modify _) => apply preserves_modify; intros ? ?; simpl; auto with pres
  | |- preserves _ (match ?x with _ => _ end) => destruct x
  | |- preserves _ (let _ := _ in _) => cbv zeta
  | |- total (mbind _ _) => apply total_bind; [|intros ?]
  | |- total (mret _) => apply total_ret
  | |- total (gets _) => apply total_gets
  | |- total (modify _) => apply total_modify
  | |- total (forM_ _ _) => apply total_forM_; intros ?
  | |- total (match ?x with _ => _ end) => destruct x
  | |- total (let _ := _ in _) => cbv zeta
  end.

Ltac pres := repeat first [ solve [auto with pres] | pres_step ].

(** ** The gate keeps what its updates keep *)

Section GateStable.

Variable env : Env.
Variable P : State -> Prop.
Hypothesis P_lockId : forall v s, P s -> P (set_lockId v s).
Hypothesis P_insert : forall t s, P s -> P (set_exeQueue (insertTicket t (exeQueue s)) s).
Hypothesis P_shift : forall s, P s -> P (set_exeQueue (tail (exeQueue s)) s).
Hypothesis P_listeners : forall v s, P s -> P (set_listeners v s).
Hypothesis P_timerCnt : forall v s, P s -> P (set_timerCnt v s).
Hypothesis P_ticketCnt : forall v s, P s -> P (set_ticketCnt v s).
Hypothesis P_resolved : forall v s, P s -> P (set_resolved v s).
Hypothesis P_setTimeout : forall t s, P s -> P (set_trace (trace s ++ [SetTimeout t]) s).
Hypothesis P_clearTimeout : forall t s, P s -> P (set_trace (trace s ++ [ClearTimeout t]) s).

Lemma setTimeout_preserves a d : preserves P (setTimeout a d).
Proof using P_timerCnt P_setTimeout. unfold setTimeout, effect. pres. Qed.

Lemma emitUnlockEvent_preserves i : preserves P (emitUnlockEvent i).
Proof using P_listeners P_resolved P_clearTimeout.
  unfold emitUnlockEvent, onDone, clearTimeout, effect. pres.
Qed.

Lemma unLockExecution_preserves i : preserves P (unLockExecution i).
Proof using P_lockId P_shift P_listeners P_resolved P_clearTimeout.
  assert (Hhand : forall s, P s -> lockId s = None ->
            P ((q ← gets exeQueue;
                match q with
                | [] => mret tt
                | x :: rest =>
                    modify (set_exeQueue rest);;
                    modify (set_lockId (Some (id x)));;
                    emitUnlockEvent (id x)
                end) s).2).
  { intros s Hs _. unfold mbind, M_bind, bind, gets, modify. simpl.
    destruct (exeQueue s) as [|x rest] eqn:Eq; simpl; [exact Hs|].
    assert (Hs' : P (set_lockId (Some (id x)) (set_exeQueue rest s))).
    { apply P_lockId. specialize (P_shift s Hs). rewrite Eq in P_shift. exact P_shift. }
    pose proof (emitUnlockEvent_preserves (id x) _ Hs') as He.
    destruct (emitUnlockEvent (id x) _) as [[[]|e|] s']; exact He. }
  intros s Hs. unfold unLockExecution.
  unfold mbind at 1, M_bind, bind at 1, gets at 1. simpl.
  destruct (decide (lockId s = Some i)) as [E|E].
  - unfold mbind at 1, M_bind, bind at 1, modify at 1. simpl.
    unfold mbind at 1, M_bind, bind at 1, gets at 1. simpl.
    apply (Hhand (set_lockId None s)); auto.
  - unfold mbind at 1, M_bind, bind at 1, mret, M_ret, ret. simpl.
    unfold mbind at 1, M_bind, bind at 1, gets at 1. simpl.
    destruct (lockId s) eqn:El; [exact Hs|].
    apply (Hhand s); auto.
Qed.

Lemma getExecution_preserves p k : preserves P (getExecution env p k).
Proof using All.
  unfold getExecution.
  pose proof unLockExecution_preserves. pose proof setTimeout_preserves.
  pres.
Qed.

Lemma checkQueue_preserves : preserves P (checkQueue env).
Proof using All.
  unfold checkQueue. pose proof getExecution_preserves. pres.
Qed.

Lemma finalize_preserves eid : preserves P (finalize env eid).
Proof using All. apply getExecution_preserves. Qed.

Lemma cancel_preserves eid : preserves P (cancel env eid).
Proof using All. apply getExecution_preserves. Qed.

End GateStable.

(** ** The whole manager keeps what its updates keep *)

Section QueueStable.

Variable env : Env.
Variable P : State -> Prop.
Hypothesis P_lockId : forall v s, P s -> P (set_lockId v s).
Hypothesis P_insert : forall t s, P s -> P (set_exeQueue (insertTicket t (exeQueue s)) s).
Hypothesis P_shift : forall s, P s -> P (set_exeQueue (tail (exeQueue s)) s).
Hypothesis P_listeners : forall v s, P s -> P (set_listeners v s).
Hypothesis P_timerCnt : forall v s, P s -> P (set_timerCnt v s).
Hypothesis P_ticketCnt : forall v s, P s -> P (set_ticketCnt v s).
Hypothesis P_resolved : forall v s, P s -> P (set_resolved v s).
Hypothesis P_effect : forall e s, P s -> P (set_trace (trace s ++ [e]) s).
Hypothesis P_waitQueue : forall v s, P s -> P (set_waitQueue v s).
Hypothesis P_runningQueue : forall v s, P s -> P (set_runningQueue v s).
Hypothesis P_store : forall v s, P s -> P (set_store v s).
Hypothesis P_ticks : forall v s, P s -> P (set_ticks v s).

Lemma effect_preserves e : preserves P (effect e).
Proof using P_effect. unfold effect. pres. Qed.

Lemma log_preserves l m : preserves P (log l m).
Proof using P_effect. apply effect_preserves. Qed.

Local Hint Resolve effect_preserves log_preserves setTimeout_preserves
  emitUnlockEvent_preserves unLockExecution_preserves getExecution_preserves
  checkQueue_preserves finalize_preserves cancel_preserves : pres.

Lemma onGetExecutionTimeout_preserves t prio : preserves P (onGetExecutionTimeout t prio).
Proof using P_listeners P_effect.
  unfold onGetExecutionTimeout. pres.
Qed.

Lemma deref_preserves r : preserves P (deref r).
Proof. unfold deref. pres. Qed.

Lemma finalize_body_preserves eid i : preserves P (finalize_body eid i).
Proof using All.
  unfold finalize_body, nextTick_emitNeedsCheckQueue, clearTimeout. pres.
Qed.

Lemma cancel_body_preserves eid i : preserves P (cancel_body env eid i).
Proof using All.
  unfold cancel_body, nextTick_emitNeedsCheckQueue. pres.
Qed.

Lemma getFilePath_preserves d f sfx : preserves P (getFilePath env d f sfx).
Proof.
  unfold getFilePath. generalize 0. generalize (loopBound env).
  intros n. induction n as [|n IH]; intros c; simpl.
  - intros s H. exact H.
  - destruct (stat env _); [apply preserves_ret | apply IH].
Qed.

Lemma deleteOutputFile_preserves o : preserves P (deleteOutputFile env o).
Proof using P_effect. unfold deleteOutputFile. pres. Qed.

Lemma addQueue_preserves r : preserves P (addQueue env r).
Proof using All.
  pose proof getFilePath_preserves. pose proof deref_preserves.
  unfold addQueue, orThrow, getDirPath. pres.
Qed.

Lemma exitHandler_preserves r o code signal : preserves P (exitHandler env r o code signal).
Proof using All.
  pose proof deleteOutputFile_preserves. pose proof deref_preserves.
  unfold exitHandler, clearRemoveOriginal. pres.
Qed.

Lemma onEncodeTimeout_preserves r o : preserves P (onEncodeTimeout env r o).
Proof using All.
  pose proof deref_preserves. unfold onEncodeTimeout. pres.
Qed.

Lemma checkQueue_body_preserves i : preserves P (checkQueue_body env i).
Proof using All.
  pose proof addQueue_preserves. pose proof deref_preserves.
  unfold checkQueue_body. pres.
Qed.

(** One event keeps [P]; the part of [push] that runs with the ticket is
    the one place that writes the id counter and is left to the caller. *)
Lemma step_stable ev s :
  P s ->
  (forall i o rest, ev = RunResolved -> resolved s = (i, KPush o) :: rest ->
     P (push_body env o i (set_resolved rest s)).2) ->
  P (step env ev s).
Proof using All.
  pose proof onGetExecutionTimeout_preserves.
  intros Hs Hpush. unfold step. destruct ev as [o|eid| | |r out code signal|t]; simpl.
  - revert s Hs Hpush. intros s Hs _. revert s Hs. change (preserves P (push env o)).
    unfold push. pres.
  - apply cancel_preserves; auto.
  - revert s Hs Hpush. intros s Hs _. revert s Hs. change (preserves P (runTick env)).
    unfold runTick, emitNeedsCheckQueue. pres.
  - unfold runResolved, mbind, M_bind, bind, gets, modify. simpl.
    destruct (resolved s) as [|[i k] rest] eqn:Er; simpl; [exact Hs|].
    destruct k as [o| |eid|eid]; simpl.
    + specialize (Hpush i o rest eq_refl eq_refl).
      unfold mbind, M_bind, bind.
      destruct (push_body env o i (set_resolved rest s)) as [[a|e|] s']; exact Hpush.
    + apply checkQueue_body_preserves; auto.
    + apply finalize_body_preserves; auto.
    + apply cancel_body_preserves; auto.
  - apply exitHandler_preserves; exact Hs.
  - unfold fireTimer. destruct (t_onFire t).
    + apply onEncodeTimeout_preserves; exact Hs.
    + apply onGetExecutionTimeout_preserves; exact Hs.
Qed.

(** An invariant of the updates is an invariant of the manager. *)
Lemma Reachable_invariant s :
  (forall o i, preserves P (push_body env o i)) -> P init -> Reachable env s -> P s.
Proof using All.
  intros Hp H0 Hr. induction Hr as [|s ev Hr IH]; [exact H0|].
  apply step_stable; [exact IH|]. intros i o rest _ _. apply Hp. auto.
Qed.

End QueueStable.

Lemma push_body_preserves env (P : State -> Prop) o i :
  (forall v s, P s -> P (set_lockId v s)) ->
  (forall t s, P s -> P (set_exeQueue (insertTicket t (exeQueue s)) s)) ->
  (forall s, P s -> P (set_exeQueue (tail (exeQueue s)) s)) ->
  (forall v s, P s -> P (set_listeners v s)) ->
  (forall v s, P s -> P (set_timerCnt v s)) ->
  (forall v s, P s -> P (set_ticketCnt v s)) ->
  (forall v s, P s -> P (set_resolved v s)) ->
  (forall e s, P s -> P (set_trace (trace s ++ [e]) s)) ->
  (forall v s, P s -> P (set_waitQueue v s)) ->
  (forall v s, P s -> P (set_store v s)) ->
  (forall v s, P s -> P (set_idCnt v s)) ->
  preserves P (push_body env o i).
Proof.
  intros.
  pose proof (unLockExecution_preserves P).
  pose proof (checkQueue_preserves env P).
  unfold push_body, alloc, emitNeedsCheckQueue, log, effect. pres.
Qed.

(** ** Methods that always return *)

Lemma effect_total e : total (effect e).
Proof. unfold effect. pres. Qed.

Lemma setTimeout_total a d : total (setTimeout a d).
Proof. unfold setTimeout, effect. pres. Qed.

Lemma emitUnlockEvent_total i : total (emitUnlockEvent i).
Proof. unfold emitUnlockEvent, onDone, clearTimeout, effect. pres. Qed.

Lemma unLockExecution_total i : total (unLockExecution i).
Proof.
  pose proof emitUnlockEvent_total. unfold unLockExecution. pres.
Qed.

Lemma getExecution_total env p k : total (getExecution env p k).
Proof.
  pose proof unLockExecution_total. pose proof setTimeout_total.
  unfold getExecution. pres.
Qed.

Lemma checkQueue_total env : total (checkQueue env).
Proof. pose proof (getExecution_total env). unfold checkQueue. pres. Qed.

(** A method that returns [unit] and is total returns [tt]. *)
Lemma total_unit (m : M unit) s : total m -> (m s).1 = Return tt.
Proof. intros H. destruct (H s) as [[] Ht]. exact Ht. Qed.

Lemma total_run (m : M unit) s : total m -> m s = (Return tt, (m s).2).
Proof. intros H. pose proof (total_unit m s H). destruct (m s); simpl in *. congruence. Qed.

(** ** The execution gate *)

Lemma emitUnlockEvent_gate i s :
  lockId (emitUnlockEvent i s).2 = lockId s /\ exeQueue (emitUnlockEvent i s).2 = exeQueue s.
Proof.
  apply (emitUnlockEvent_preserves (fun s' => lockId s' = lockId s /\ exeQueue s' = exeQueue s));
    auto.
Qed.

(** A release by somebody who is not the holder does nothing. *)
Lemma unLockExecution_foreign s h i :
  lockId s = Some h -> i <> h -> unLockExecution i s = (Return tt, s).
Proof.
  intros Hl Hne. unfold unLockExecution, mbind, M_bind, bind, gets, modify, mret, M_ret, ret.
  simpl. destruct (decide (lockId s = Some i)) as [E|E]; [congruence|].
  simpl. rewrite Hl. reflexivity.
Qed.

(** A release by the holder, or a call while the gate is free, hands the
    gate to the head of the ticket queue. *)
Lemma unLockExecution_handoff s i x rest :
  lockId s = None \/ lockId s = Some i ->
  exeQueue s = x :: rest ->
  lockId (unLockExecution i s).2 = Some (id x)
  /\ exeQueue (unLockExecution i s).2 = rest.
Proof.
  intros Hl Hq. unfold unLockExecution, mbind, M_bind, bind, gets, modify, mret, M_ret, ret.
  simpl. destruct (decide (lockId s = Some i)) as [E|E]; simpl.
  - rewrite Hq.
    pose proof (emitUnlockEvent_gate (id x) (set_lockId (Some (id x)) (set_exeQueue rest (set_lockId None s)))) as [H1 H2].
    destruct (emitUnlockEvent _ _) as [[[]|e|] s']; simpl in *; auto.
  - destruct Hl as [Hl|Hl]; [|congruence]. rewrite Hl, Hq.
    pose proof (emitUnlockEvent_gate (id x) (set_lockId (Some (id x)) (set_exeQueue rest s))) as [H1 H2].
    destruct (emitUnlockEvent _ _) as [[[]|e|] s']; simpl in *; auto.
Qed.

(** [unLockExecution] takes at most the head off the ticket queue. *)
Lemma unLockExecution_exeQueue i s :
  exeQueue (unLockExecution i s).2 = exeQueue s
  \/ exists x, exeQueue s = x :: exeQueue (unLockExecution i s).2
               /\ lockId (unLockExecution i s).2 = Some (id x).
Proof.
  destruct (lockId s) as [h|] eqn:Hl.
  - destruct (decide (i = h)) as [->|Hne].
    + destruct (exeQueue s) as [|x rest] eqn:Hq.
      * left. unfold unLockExecution, mbind, M_bind, bind, gets, modify, mret, M_ret, ret.
        simpl. rewrite Hl. destruct (decide (Some h = Some h)); [|congruence].
        simpl. rewrite Hq. simpl. exact Hq.
      * right. exists x.
        destruct (unLockExecution_handoff s h x rest) as [H1 H2]; auto.
        rewrite H2. auto.
    + left. rewrite (unLockExecution_foreign s h i); auto.
  - destruct (exeQueue s) as [|x rest] eqn:Hq.
    + left. unfold unLockExecution, mbind, M_bind, bind, gets, modify, mret, M_ret, ret.
      simpl. rewrite Hl. destruct (decide (None = Some i)); [congruence|].
      simpl. rewrite Hl, Hq. simpl. exact Hq.
    + right. exists x.
      destruct (unLockExecution_handoff s i x rest) as [H1 H2]; auto.
      rewrite H2. auto.
Qed.

Lemma findPosition_take p q :
  Forall (fun x => p <= priority x) (take (findPosition p q) q).
Proof.
  induction q as [|x q IH]; simpl; [constructor|].
  destruct (priority x <? p) eqn:E; simpl; [constructor|].
  constructor; [lia | exact IH].
Qed.

Lemma findPosition_drop p q :
  match drop (findPosition p q) q with
  | [] => True
  | x :: _ => priority x < p
  end.
Proof.
  induction q as [|x q IH]; simpl; [exact I|].
  destruct (priority x <? p) eqn:E; simpl; [lia | exact IH].
Qed.

Lemma gate_sorted_app_r l1 l2 : gate_sorted (l1 ++ l2) -> gate_sorted l2.
Proof.
  unfold gate_sorted. induction l1 as [|x l1 IH]; simpl; [auto|].
  intros H. inversion H; subst. auto.
Qed.

Lemma gate_sorted_below p l :
  gate_sorted l ->
  match l with [] => True | x :: _ => priority x < p end ->
  Forall (fun x => priority x < p) l.
Proof.
  unfold gate_sorted. intros Hs Hh. destruct l as [|x l]; [constructor|].
  inversion Hs as [|? ? Hs' Hall]; subst. constructor; [exact Hh|].
  eapply Forall_impl; [exact Hall|]. simpl. intros y Hy. lia.
Qed.

(** Where [getExecution] puts a ticket in a sorted queue: behind every ticket
    of the same or a higher priority, in front of every lower one. *)
Lemma insertTicket_split t q :
  gate_sorted q ->
  exists before after,
    q = before ++ after
    /\ insertTicket t q = before ++ t :: after
    /\ Forall (fun x => priority t <= priority x) before
    /\ Forall (fun x => priority x < priority t) after.
Proof.
  intros Hs.
  exists (take (findPosition (priority t) q) q), (drop (findPosition (priority t) q) q).
  split; [symmetry; apply take_drop|].
  split; [reflexivity|].
  split; [apply findPosition_take|].
  apply gate_sorted_below; [|apply findPosition_drop].
  apply (gate_sorted_app_r (take (findPosition (priority t) q) q)).
  rewrite take_drop. exact Hs.
Qed.

Lemma gate_sorted_insert l1 t l2 :
  gate_sorted (l1 ++ l2) ->
  Forall (fun x => priority t <= priority x) l1 ->
  Forall (fun x => priority x < priority t) l2 ->
  gate_sorted (l1 ++ t :: l2).
Proof.
  unfold gate_sorted. induction l1 as [|x l1 IH]; simpl; intros Hs H1 H2.
  - constructor; [exact Hs|].
    eapply Forall_impl; [exact H2|]. simpl. intros y Hy. lia.
  - inversion Hs as [|? ? Hs' Hall]; subst.
    inversion H1 as [|? ? Hx H1']; subst.
    constructor; [apply IH; auto|].
    apply Forall_app in Hall as [Ha Hb].
    apply Forall_app. split; [exact Ha|].
    constructor; [lia | exact Hb].
Qed.

Lemma insertTicket_sorted t q : gate_sorted q -> gate_sorted (insertTicket t q).
Proof.
  intros Hs. destruct (insertTicket_split t q Hs) as (l1 & l2 & Hq & Hi & H1 & H2).
  rewrite Hi. apply gate_sorted_insert; auto. rewrite <- Hq. exact Hs.
Qed.

Lemma gate_sorted_tail q : gate_sorted q -> gate_sorted (tail q).
Proof.
  unfold gate_sorted. destruct q as [|x q]; simpl; [auto|].
  intros H. inversion H; auto.
Qed.

(** The ticket queue is sorted in every state the manager can be in. *)
Lemma Reachable_gate_sorted env s : Reachable env s -> gate_sorted (exeQueue s).
Proof.
  intros Hr.
  apply (Reachable_invariant env (fun s => gate_sorted (exeQueue s))); auto;
    try (intros; simpl; auto using insertTicket_sorted, gate_sorted_tail; fail).
  - intros o i. apply push_body_preserves;
      intros; simpl; auto using insertTicket_sorted, gate_sorted_tail.
  - constructor.
Qed.

(** What [getExecution] does to the ticket queue: the new ticket is put in,
    then [unLockExecution] may take the head. *)
Lemma getExecution_exeQueue env p k s :
  let t := mkExeQueueData (ticketId env (ticketCnt s)) p in
  exeQueue (getExecution env p k s).2 = insertTicket t (exeQueue s)
  \/ exists x, insertTicket t (exeQueue s) = x :: exeQueue (getExecution env p k s).2
               /\ lockId (getExecution env p k s).2 = Some (id x).
Proof.
  intros t. unfold getExecution, setTimeout, effect.
  unfold mbind, M_bind, bind, gets, modify, mret, M_ret, ret. simpl.
  match goal with |- context [unLockExecution ?i ?s0] =>
    pose proof (unLockExecution_exeQueue i s0) as H;
    destruct (unLockExecution i s0) as [[[]|e|] s'] end; simpl in *; exact H.
Qed.

(** ** Histories *)

Lemma add_effects_app l1 l2 s : add_effects l2 (add_effects l1 s) = add_effects (l1 ++ l2) s.
Proof. unfold add_effects. simpl. rewrite app_assoc. reflexivity. Qed.

Lemma effect_run e s : effect e s = (Return tt, add_effects [e] s).
Proof. reflexivity. Qed.

Lemma effectsOf_extends {A} Q (m : M A) s :
  extends_by Q (trace s) (m s).2 ->
  trace (m s).2 = trace s ++ effectsOf m s /\ Forall Q (effectsOf m s).
Proof.
  intros (l & Hl & HQ). unfold effectsOf. rewrite Hl.
  rewrite drop_app_length. auto.
Qed.

Lemma extends_by_refl Q s : extends_by Q (trace s) s.
Proof. exists []. rewrite app_nil_r. auto. Qed.

Lemma extends_by_effect Q t0 e s :
  Q e -> extends_by Q t0 s -> extends_by Q t0 (set_trace (trace s ++ [e]) s).
Proof.
  intros He (l & Hl & HQ). exists (l ++ [e]). simpl. rewrite Hl, app_assoc.
  split; [reflexivity|]. apply Forall_app; auto.
Qed.

(** The gate sets and clears timers, and does nothing else to the outside. *)
Lemma getExecution_effects env p k s :
  extends_by isTimerEffect (trace s) (getExecution env p k s).2.
Proof.
  apply (getExecution_preserves env (extends_by isTimerEffect (trace s)));
    try (intros; apply extends_by_effect; simpl; auto; fail);
    try (intros ? ? H; exact H); try (intros ? H; exact H).
  apply extends_by_refl.
Qed.

Lemma unLockExecution_effects i s :
  extends_by isTimerEffect (trace s) (unLockExecution i s).2.
Proof.
  apply (unLockExecution_preserves (extends_by isTimerEffect (trace s)));
    try (intros; apply extends_by_effect; simpl; auto; fail);
    try (intros ? ? H; exact H); try (intros ? H; exact H).
  apply extends_by_refl.
Qed.

(** No event takes anything out of the history. *)
Lemma step_extends env ev s : extends_by (fun _ => True) (trace s) (step env ev s).
Proof.
  apply (step_stable env (extends_by (fun _ => True) (trace s)));
    try (intros; apply extends_by_effect; simpl; auto; fail);
    try (intros ? ? H; exact H); try (intros ? H; exact H).
  - apply extends_by_refl.
  - intros i o rest _ _.
    apply (push_body_preserves env (extends_by (fun _ => True) (trace s)));
      try (intros; apply extends_by_effect; simpl; auto; fail);
      try (intros ? ? H; exact H); try (intros ? H; exact H).
    exact (extends_by_refl _ s).
Qed.

(** ** The exit handler, branch by branch *)

Lemma add_effects_nil s : add_effects [] s = s.
Proof. destruct s. unfold add_effects, set_trace. simpl. rewrite app_nil_r. reflexivity. Qed.

Ltac run_monad :=
  unfold log, effect, modify, gets, mbind, M_bind, bind, mret, M_ret, ret, add_effects;
  simpl.

Lemma deleteOutputFile_run env out s :
  deleteOutputFile env out s = (Return tt, add_effects (cleanupEffects env out) s).
Proof.
  unfold deleteOutputFile, cleanupEffects. destruct out as [p|].
  - destruct (unlink env p) as [err|[]]; run_monad;
      rewrite <- ?app_assoc; reflexivity.
  - rewrite add_effects_nil. reflexivity.
Qed.

Lemma deref_run r s item : store s !! r = Some item -> deref r s = (Return item, s).
Proof.
  intros H. unfold deref, mbind, M_bind, bind, gets. simpl. rewrite H. reflexivity.
Qed.

(** The entry is gone: the handler logs, cleans up, reports an error and
    goes on to [finalize]. *)
Lemma exitHandler_absent env r out code signal s item :
  store s !! r = Some item ->
  getRunnginQueueItem (encodeId item) s = None ->
  exitHandler env r out code signal s =
  finalize env (encodeId item)
    (add_effects ([Log Info (ExitCode code signal);
                   Log Fatal (EncodeItemIsRemoved (recordedId item))]
                  ++ cleanupEffects env out ++ [EmitErrorEncode]) s).
Proof.
  intros Hst Hget. unfold exitHandler.
  unfold mbind at 1, M_bind, bind at 1. rewrite (deref_run r s item Hst).
  unfold log.
  unfold mbind at 1, M_bind, bind at 1. rewrite effect_run.
  unfold mbind at 1, M_bind, bind at 1, gets at 1.
  change (getRunnginQueueItem (encodeId item) (add_effects [Log Info (ExitCode code signal)] s))
    with (getRunnginQueueItem (encodeId item) s).
  rewrite Hget.
  unfold mbind at 1, M_bind, bind at 1.
  unfold mbind at 1, M_bind, bind at 1. rewrite effect_run.
  unfold mret at 1, M_ret, ret at 1.
  unfold mbind at 1, M_bind, bind at 1.
  unfold mbind at 1, M_bind, bind at 1. rewrite deleteOutputFile_run.
  rewrite effect_run. rewrite !add_effects_app. reflexivity.
Qed.

(** The entry was cancelled: the same, with another log line. *)
Lemma exitHandler_canceld env r out code signal s item q :
  store s !! r = Some item ->
  getRunnginQueueItem (encodeId item) s = Some q ->
  isCanceld q = true ->
  exitHandler env r out code signal s =
  finalize env (encodeId item)
    (add_effects ([Log Info (ExitCode code signal);
                   Log Info (CanceldEncode (encodeId item))]
                  ++ cleanupEffects env out ++ [EmitErrorEncode]) s).
Proof.
  intros Hst Hget Hc. unfold exitHandler.
  unfold mbind at 1, M_bind, bind at 1. rewrite (deref_run r s item Hst).
  unfold log.
  unfold mbind at 1, M_bind, bind at 1. rewrite effect_run.
  unfold mbind at 1, M_bind, bind at 1, gets at 1.
  change (getRunnginQueueItem (encodeId item) (add_effects [Log Info (ExitCode code signal)] s))
    with (getRunnginQueueItem (encodeId item) s).
  rewrite Hget, Hc.
  unfold mbind at 1, M_bind, bind at 1.
  unfold mbind at 1, M_bind, bind at 1. rewrite effect_run.
  unfold mret at 1, M_ret, ret at 1.
  unfold mbind at 1, M_bind, bind at 1.
  unfold mbind at 1, M_bind, bind at 1. rewrite deleteOutputFile_run.
  rewrite effect_run. rewrite !add_effects_app. reflexivity.
Qed.

(** The entry is there, not cancelled, and the exit code is 0. *)
Lemma exitHandler_success env r out signal s item q :
  store s !! r = Some item ->
  getRunnginQueueItem (encodeId item) s = Some q ->
  isCanceld q = false ->
  exitHandler env r out (Some 0) signal s =
  finalize env (encodeId item)
    (add_effects [Log Info (ExitCode (Some 0) signal);
                  Log Info (SuccessfullyEncod (encodeId item) out);
                  EmitFinishEncode
                    (finishInfo env item out
                       (removeOriginal item
                        && negb (hasSamVideoFileIdItem (sourceVideoFileId item) s)))]
       (if removeOriginal item && hasSamVideoFileIdItem (sourceVideoFileId item) s
        then set_store (<[r := keepOriginal item]> (store s)) s
        else s)).
Proof.
  intros Hst Hget Hc. unfold exitHandler.
  unfold mbind at 1, M_bind, bind at 1. rewrite (deref_run r s item Hst).
  unfold log.
  unfold mbind at 1, M_bind, bind at 1. rewrite effect_run.
  unfold mbind at 1, M_bind, bind at 1, gets at 1.
  change (getRunnginQueueItem (encodeId item) (add_effects [Log Info (ExitCode (Some 0) signal)] s))
    with (getRunnginQueueItem (encodeId item) s).
  rewrite Hget, Hc. simpl negb. cbv iota.
  unfold mbind at 1, M_bind, bind at 1.
  unfold mbind at 1, M_bind, bind at 1. rewrite effect_run.
  unfold mbind at 1, M_bind, bind at 1, gets at 1.
  rewrite add_effects_app.
  match goal with |- context [hasSamVideoFileIdItem ?v (add_effects ?l s)] =>
    change (hasSamVideoFileIdItem v (add_effects l s)) with (hasSamVideoFileIdItem v s) end.
  destruct (removeOriginal item) eqn:Ero;
    destruct (hasSamVideoFileIdItem (sourceVideoFileId item) s) eqn:Ehas; simpl andb; cbv iota.
  - unfold clearRemoveOriginal.
    unfold mbind at 1, M_bind, bind at 1.
    unfold mbind at 1, M_bind, bind at 1.
    rewrite (deref_run r _ item) by exact Hst.
    unfold modify at 1.
    unfold mbind at 1, M_bind, bind at 1.
    rewrite (deref_run r _ (keepOriginal item)).
    2:{ simpl. apply list_lookup_insert_eq. eapply lookup_lt_Some, Hst. }
    unfold mbind at 1, M_bind, bind at 1. rewrite effect_run.
    unfold mret at 1, M_ret, ret at 1.
    unfold mbind at 1, M_bind, bind at 1.
    unfold mret at 1, M_ret, ret at 1.
    f_equal. unfold add_effects, finishInfo, keepOriginal, set_store, set_trace; simpl.
    rewrite <- app_assoc. reflexivity.
  - unfold mbind at 1, M_bind, bind at 1.
    unfold mret at 1, M_ret, ret at 1.
    unfold mbind at 1, M_bind, bind at 1.
    rewrite (deref_run r _ item) by exact Hst.
    unfold mbind at 1, M_bind, bind at 1. rewrite effect_run.
    unfold mret at 1, M_ret, ret at 1.
    unfold mbind at 1, M_bind, bind at 1.
    unfold mret at 1, M_ret, ret at 1.
    rewrite add_effects_app. unfold finishInfo. rewrite Ero. reflexivity.
  - unfold mbind at 1, M_bind, bind at 1.
    unfold mret at 1, M_ret, ret at 1.
    unfold mbind at 1, M_bind, bind at 1.
    rewrite (deref_run r _ item) by exact Hst.
    unfold mbind at 1, M_bind, bind at 1. rewrite effect_run.
    unfold mret at 1, M_ret, ret at 1.
    unfold mbind at 1, M_bind, bind at 1.
    unfold mret at 1, M_ret, ret at 1.
    rewrite add_effects_app. unfold finishInfo. rewrite Ero. reflexivity.
  - unfold mbind at 1, M_bind, bind at 1.
    unfold mret at 1, M_ret, ret at 1.
    unfold mbind at 1, M_bind, bind at 1.
    rewrite (deref_run r _ item) by exact Hst.
    unfold mbind at 1, M_bind, bind at 1. rewrite effect_run.
    unfold mret at 1, M_ret, ret at 1.
    unfold mbind at 1, M_bind, bind at 1.
    unfold mret at 1, M_ret, ret at 1.
    rewrite add_effects_app. unfold finishInfo. rewrite Ero. reflexivity.
Qed.

Lemma effectsOf_finalize_after env eid l s (m : M unit) :
  m s = finalize env eid (add_effects l s) ->
  exists gate, Forall isTimerEffect gate /\ effectsOf m s = l ++ gate.
Proof.
  intros Hm. unfold effectsOf. rewrite Hm.
  destruct (getExecution_effects env CLEAR_QUEUE_PRIPORITY (KFinalize eid) (add_effects l s))
    as (gate & Hg & HQ).
  exists gate. split; [exact HQ|].
  unfold finalize. rewrite Hg. simpl.
  rewrite <- app_assoc, drop_app_length. reflexivity.
Qed.

Lemma hasSamVideoFileIdItem_own s r item q :
  store s !! r = Some item ->
  In q (runningQueue s) ->
  encodeProgram q = r ->
  hasSamVideoFileIdItem (sourceVideoFileId item) s = true.
Proof.
  intros Hst Hin Hr. unfold hasSamVideoFileIdItem.
  destruct (List.find _ (runningQueue s)) eqn:Ef; [reflexivity|].
  exfalso. pose proof (find_none _ _ Ef q Hin) as Hn. simpl in Hn.
  unfold fieldIs in Hn. rewrite Hr, Hst in Hn.
  rewrite Z.eqb_refl in Hn. discriminate.
Qed.

(** C1. A job whose process exits with code 0, whose entry in the running
    queue is found and is not cancelled, reports [removeOriginal = false] in
    its finish event, whatever it asked for and whether or not another entry
    names the same source video file: [hasSamVideoFileIdItem] finds the
    entry of the job itself. *)
Theorem success_reports_removeOriginal_false env r out signal s item q :
  store s !! r = Some item ->
  getRunnginQueueItem (encodeId item) s = Some q ->
  encodeProgram q = r ->
  isCanceld q = false ->
  exists gate,
    Forall isTimerEffect gate
    /\ effectsOf (exitHandler env r out (Some 0) signal) s =
         [Log Info (ExitCode (Some 0) signal);
          Log Info (SuccessfullyEncod (encodeId item) out);
          EmitFinishEncode (finishInfo env item out false)] ++ gate.
Proof.
  intros Hst Hget Hr Hc.
  assert (Hhas : hasSamVideoFileIdItem (sourceVideoFileId item) s = true).
  { apply (hasSamVideoFileIdItem_own s r item q); auto.
    unfold getRunnginQueueItem in Hget. apply find_some in Hget. tauto. }
  pose proof (exitHandler_success env r out signal s item q Hst Hget Hc) as He.
  rewrite Hhas in He. rewrite andb_false_r in He.
  unfold effectsOf. rewrite He.
  match goal with |- context [add_effects ?l ?s1] =>
    destruct (getExecution_effects env CLEAR_QUEUE_PRIPORITY (KFinalize (encodeId item))
                (add_effects l s1)) as (gate & Hg & HQ);
    assert (Ht : trace (add_effects l s1) = trace s ++ l)
      by (destruct (removeOriginal item); reflexivity)
  end.
  exists gate. split; [exact HQ|].
  unfold finalize. rewrite Hg, Ht.
  rewrite <- app_assoc, drop_app_length. reflexivity.
Qed.

(** The only job there is asked for the removal of its source, exits with
    code 0, and is told to keep it. *)
Lemma success_reports_removeOriginal_false_witness :
  store s_running !! 0%nat = Some (cloneDeep optA 1)
  /\ removeOriginal (cloneDeep optA 1) = true
  /\ waitQueue s_running = []
  /\ map encodeProgram (runningQueue s_running) = [0%nat]
  /\ exists gate,
       Forall isTimerEffect gate
       /\ effectsOf (exitHandler env0 0%nat (Some "/enc/a.mp4") (Some 0) None) s_running =
            [Log Info (ExitCode (Some 0) None);
             Log Info (SuccessfullyEncod 1 (Some "/enc/a.mp4"));
             EmitFinishEncode (finishInfo env0 (cloneDeep optA 1) (Some "/enc/a.mp4") false)]
            ++ gate.
Proof.
  split; [reflexivity|]. split; [reflexivity|]. split; [reflexivity|].
  split; [reflexivity|].
  apply (success_reports_removeOriginal_false env0 0%nat (Some "/enc/a.mp4") None s_running
           (cloneDeep optA 1)
           (mkRunningQueueItem (mkChildProcess 100 true) 0%nat false
              (mkTimer 2 (120 # 1)%Q (EncodeTimeout 0%nat (Some "/enc/a.mp4"))))).
  - reflexivity.
  - reflexivity.
  - reflexivity.
  - reflexivity.
Defined.

(** C2, as it is written, fails: the exit of a cancelled job does emit an
    error event. *)
Lemma canceld_exit_emits_error :
  (isCanceld <$> getRunnginQueueItem 1 s_canceld) = Some true
  /\ effectsOf (exitHandler env0 0%nat (Some "/enc/a.mp4") None (Some "SIGTERM")) s_canceld =
       [Log Info (ExitCode None (Some "SIGTERM"));
        Log Info (CanceldEncode 1);
        Log Info (DeleteEncodeOutputFile "/enc/a.mp4");
        Sleep 1000;
        Unlink "/enc/a.mp4";
        EmitErrorEncode;
        SetTimeout (mkTimer 4 UNLOCK_TIMEOUT (GetExecutionTimeout "t3" 3));
        ClearTimeout (mkTimer 4 UNLOCK_TIMEOUT (GetExecutionTimeout "t3" 3))].
Proof. split; reflexivity. Qed.

(** C2, amended. When the entry of the job is marked as cancelled at the
    exit of its process, the handler logs, deletes the output file if there
    is one, emits an error event and calls [finalize]; it emits no finish
    event. *)
Theorem canceld_exit_cleans_up_and_reports env r out code signal s item q :
  store s !! r = Some item ->
  getRunnginQueueItem (encodeId item) s = Some q ->
  isCanceld q = true ->
  exitHandler env r out code signal s =
    finalize env (encodeId item)
      (add_effects ([Log Info (ExitCode code signal); Log Info (CanceldEncode (encodeId item))]
                    ++ cleanupEffects env out ++ [EmitErrorEncode]) s)
  /\ exists gate,
       Forall isTimerEffect gate
       /\ effectsOf (exitHandler env r out code signal) s =
            ([Log Info (ExitCode code signal); Log Info (CanceldEncode (encodeId item))]
             ++ cleanupEffects env out ++ [EmitErrorEncode]) ++ gate
       /\ In EmitErrorEncode (effectsOf (exitHandler env r out code signal) s)
       /\ Forall (fun e => ~ isFinishEvent e) (effectsOf (exitHandler env r out code signal) s).
Proof.
  intros Hst Hget Hc.
  pose proof (exitHandler_canceld env r out code signal s item q Hst Hget Hc) as He.
  split; [exact He|].
  destruct (effectsOf_finalize_after env _ _ s _ He) as (gate & HQ & Heff).
  exists gate. split; [exact HQ|]. split; [exact Heff|].
  rewrite Heff. split.
  - apply in_or_app. left. apply in_or_app. right. apply in_or_app. right. left. reflexivity.
  - apply Forall_app. split.
    + apply Forall_app. split; [repeat constructor; simpl; tauto|].
      apply Forall_app. split; [|repeat constructor; simpl; tauto].
      unfold cleanupEffects. destruct out as [p|]; [|constructor].
      destruct (unlink env p); repeat constructor; simpl; tauto.
    + eapply Forall_impl; [exact HQ|]. intros [] Ht Hf; simpl in *; tauto.
Qed.

Lemma canceld_exit_cleans_up_and_reports_witness :
  store s_canceld !! 0%nat = Some (cloneDeep optA 1)
  /\ (isCanceld <$> getRunnginQueueItem 1 s_canceld) = Some true
  /\ In EmitErrorEncode
       (effectsOf (exitHandler env0 0%nat (Some "/enc/a.mp4") None (Some "SIGTERM")) s_canceld).
Proof.
  split; [reflexivity|]. split; [reflexivity|].
  destruct (canceld_exit_cleans_up_and_reports env0 0%nat (Some "/enc/a.mp4") None
              (Some "SIGTERM") s_canceld (cloneDeep optA 1)
              (mkRunningQueueItem (mkChildProcess 100 true) 0%nat true
                 (mkTimer 2 (120 # 1)%Q (EncodeTimeout 0%nat (Some "/enc/a.mp4")))))
    as (_ & gate & _ & _ & Hin & _).
  - reflexivity.
  - reflexivity.
  - reflexivity.
  - exact Hin.
Defined.

(** C3, as it is written, fails: when the entry is gone the handler does
    not stop after the log line; it deletes the output file, emits an error
    event and calls [finalize], whose ticket is granted at once here. *)
Lemma absent_entry_exit_goes_on :
  getRunnginQueueItem 1 s_done = None
  /\ effectsOf (exitHandler env0 0%nat (Some "/enc/a.mp4") (Some 0) None) s_done =
       [Log Info (ExitCode (Some 0) None);
        Log Fatal (EncodeItemIsRemoved 5);
        Log Info (DeleteEncodeOutputFile "/enc/a.mp4");
        Sleep 1000;
        Unlink "/enc/a.mp4";
        EmitErrorEncode;
        SetTimeout (mkTimer 4 UNLOCK_TIMEOUT (GetExecutionTimeout "t3" 3));
        ClearTimeout (mkTimer 4 UNLOCK_TIMEOUT (GetExecutionTimeout "t3" 3))]
  /\ resolved (exitHandler env0 0%nat (Some "/enc/a.mp4") (Some 0) None s_done).2 =
       [("t3", KFinalize 1)].
Proof. split; [|split]; reflexivity. Qed.

(** C3, amended. When no entry of the running queue has the id of the job
    at the exit of its process, the handler logs a fatal line, deletes the
    output file if there is one, emits an error event and calls [finalize];
    it emits no finish event. *)
Theorem absent_entry_exit_cleans_up_and_reports env r out code signal s item :
  store s !! r = Some item ->
  getRunnginQueueItem (encodeId item) s = None ->
  exitHandler env r out code signal s =
    finalize env (encodeId item)
      (add_effects ([Log Info (ExitCode code signal);
                     Log Fatal (EncodeItemIsRemoved (recordedId item))]
                    ++ cleanupEffects env out ++ [EmitErrorEncode]) s)
  /\ exists gate,
       Forall isTimerEffect gate
       /\ effectsOf (exitHandler env r out code signal) s =
            ([Log Info (ExitCode code signal);
              Log Fatal (EncodeItemIsRemoved (recordedId item))]
             ++ cleanupEffects env out ++ [EmitErrorEncode]) ++ gate
       /\ In EmitErrorEncode (effectsOf (exitHandler env r out code signal) s)
       /\ (forall p, out = Some p -> In (Unlink p) (effectsOf (exitHandler env r out code signal) s))
       /\ Forall (fun e => ~ isFinishEvent e) (effectsOf (exitHandler env r out code signal) s).
Proof.
  intros Hst Hget.
  pose proof (exitHandler_absent env r out code signal s item Hst Hget) as He.
  split; [exact He|].
  destruct (effectsOf_finalize_after env _ _ s _ He) as (gate & HQ & Heff).
  exists gate. split; [exact HQ|]. split; [exact Heff|].
  rewrite Heff. split; [|split].
  - apply in_or_app. left. apply in_or_app. right. apply in_or_app. right. left. reflexivity.
  - intros p ->. apply in_or_app. left. apply in_or_app. right. apply in_or_app. left.
    simpl. tauto.
  - apply Forall_app. split.
    + apply Forall_app. split; [repeat constructor; simpl; tauto|].
      apply Forall_app. split; [|repeat constructor; simpl; tauto].
      unfold cleanupEffects. destruct out as [p|]; [|constructor].
      destruct (unlink env p); repeat constructor; simpl; tauto.
    + eapply Forall_impl; [exact HQ|]. intros [] Ht Hf; simpl in *; tauto.
Qed.

Lemma absent_entry_exit_cleans_up_and_reports_witness :
  store s_done !! 0%nat = Some (keepOriginal (cloneDeep optA 1))
  /\ getRunnginQueueItem 1 s_done = None
  /\ In EmitErrorEncode
       (effectsOf (exitHandler env0 0%nat (Some "/enc/a.mp4") (Some 0) None) s_done).
Proof.
  split; [reflexivity|]. split; [reflexivity|].
  destruct (absent_entry_exit_cleans_up_and_reports env0 0%nat (Some "/enc/a.mp4") (Some 0)
              None s_done (keepOriginal (cloneDeep optA 1)))
    as (_ & gate & _ & _ & Hin & _).
  - reflexivity.
  - reflexivity.
  - exact Hin.
Defined.

(** ** Reachable states *)

Lemma Reachable_run env evs s : Reachable env s -> Reachable env (run env evs s).
Proof.
  revert s. induction evs as [|ev evs IH]; intros s Hs; simpl; [exact Hs|].
  apply IH. apply Reachable_step, Hs.
Qed.

Lemma Reachable_runLoop env n s : Reachable env s -> Reachable env (runLoop env n s).
Proof.
  revert s. induction n as [|n IH]; intros s Hs; simpl; [exact Hs|].
  destruct (ticks s); [destruct (resolved s)|]; auto using Reachable_step.
Qed.

Lemma Reachable_s_running : Reachable env0 s_running.
Proof. apply Reachable_runLoop, Reachable_step, Reachable_init. Qed.

Lemma Reachable_s_contended : Reachable env0 s_contended.
Proof. apply Reachable_run, Reachable_s_running. Qed.

(** ** The claims about the gate, the guards and the counter *)

(** C6. In every state the manager can be in, the ticket queue is sorted by
    non-increasing priority; [getExecution] puts the new ticket behind every
    ticket of the same or a higher priority and in front of every ticket of
    a lower priority, so tickets of one priority keep their order of
    arrival; and when [unLockExecution] hands the gate over, it hands it to
    the head of the queue. *)
Theorem ticket_queue_priority_order env s :
  Reachable env s ->
  gate_sorted (exeQueue s)
  /\ (forall t, exists before after,
        exeQueue s = before ++ after
        /\ insertTicket t (exeQueue s) = before ++ t :: after
        /\ Forall (fun x => priority t <= priority x) before
        /\ Forall (fun x => priority x < priority t) after)
  /\ (forall p k,
        let t := mkExeQueueData (ticketId env (ticketCnt s)) p in
        exeQueue (getExecution env p k s).2 = insertTicket t (exeQueue s)
        \/ exists x, insertTicket t (exeQueue s) = x :: exeQueue (getExecution env p k s).2
                     /\ lockId (getExecution env p k s).2 = Some (id x))
  /\ (forall i x rest,
        exeQueue s = x :: rest ->
        lockId s = None \/ lockId s = Some i ->
        lockId (unLockExecution i s).2 = Some (id x)
        /\ exeQueue (unLockExecution i s).2 = rest).
Proof.
  intros Hr. pose proof (Reachable_gate_sorted env s Hr) as Hs.
  split; [exact Hs|]. split; [|split].
  - intros t. apply insertTicket_split, Hs.
  - intros p k. apply getExecution_exeQueue.
  - intros i x rest Hq Hl. apply unLockExecution_handoff; auto.
Qed.

Lemma ticket_queue_priority_order_witness :
  Reachable env0 s_contended
  /\ lockId s_contended = Some "t2"
  /\ exeQueue s_contended =
       [mkExeQueueData "t5" 3; mkExeQueueData "t4" 2; mkExeQueueData "t6" 2;
        mkExeQueueData "t3" 1]
  /\ gate_sorted (exeQueue s_contended)
  /\ lockId (unLockExecution "t2" s_contended).2 = Some "t5".
Proof.
  split; [exact Reachable_s_contended|]. split; [reflexivity|]. split; [reflexivity|].
  destruct (ticket_queue_priority_order env0 s_contended Reachable_s_contended)
    as (Hs & _ & _ & Hun).
  split; [exact Hs|].
  apply (Hun "t2" (mkExeQueueData "t5" 3)
           [mkExeQueueData "t4" 2; mkExeQueueData "t6" 2; mkExeQueueData "t3" 1]).
  - reflexivity.
  - right. reflexivity.
Defined.

(** C9. While the gate is held, [unLockExecution] with an id that is not
    the holder's changes nothing: same holder, same ticket queue, nothing
    announced.  So a call that does change the state was made by the holder
    or while the gate was free. *)
Theorem unLockExecution_only_by_holder s i :
  (forall h, lockId s = Some h -> i <> h -> unLockExecution i s = (Return tt, s))
  /\ ((unLockExecution i s).2 <> s -> lockId s = None \/ lockId s = Some i).
Proof.
  split.
  - intros h Hl Hne. apply unLockExecution_foreign with h; auto.
  - intros Hch. destruct (lockId s) as [h|] eqn:Hl; [|left; reflexivity].
    right. destruct (decide (i = h)) as [->|Hne]; [reflexivity|].
    exfalso. apply Hch. rewrite (unLockExecution_foreign s h i); auto.
Qed.

Lemma unLockExecution_only_by_holder_witness :
  lockId s_contended = Some "t2"
  /\ unLockExecution "t4" s_contended = (Return tt, s_contended).
Proof.
  split; [reflexivity|].
  destruct (unLockExecution_only_by_holder s_contended "t4") as [H _].
  apply (H "t2").
  - reflexivity.
  - discriminate.
Defined.

(** C8. When the running queue already holds [concurrentEncodeNum] entries
    or more, or the wait queue is empty, [checkQueue] returns and leaves the
    state as it is: no ticket is drawn, no queue and no holder changes.  A
    second call does the same. *)
Theorem checkQueue_guard_changes_nothing env s :
  concurrentEncodeNum env <= Z.of_nat (length (runningQueue s)) \/ waitQueue s = [] ->
  checkQueue env s = (Return tt, s)
  /\ checkQueue env (checkQueue env s).2 = checkQueue env s.
Proof.
  intros H.
  assert (E : checkQueue env s = (Return tt, s)).
  { unfold checkQueue, mbind, M_bind, bind, gets, mret, M_ret, ret. simpl.
    destruct H as [H|H].
    - apply Z.leb_le in H. rewrite H. reflexivity.
    - rewrite H. simpl. rewrite orb_true_r. reflexivity. }
  split; [exact E|]. rewrite E. simpl. exact E.
Qed.

Lemma checkQueue_guard_changes_nothing_witness :
  concurrentEncodeNum env0 = 1
  /\ length (runningQueue s_running) = 1%nat
  /\ checkQueue env0 s_running = (Return tt, s_running).
Proof.
  split; [reflexivity|]. split; [reflexivity|].
  destruct (checkQueue_guard_changes_nothing env0 s_running) as [H _].
  - left. vm_compute. discriminate.
  - exact H.
Defined.

(** C7. With [concurrentEncodeNum <= 0], [push] throws before it asks for a
    ticket and leaves the whole state as it is; the message of the error is
    spelled [CncurrentEncodeNumIsZero], which is not the name
    [ConcurrentEncodeNumIsZero]. *)
Theorem push_disabled_throws env s addOption :
  concurrentEncodeNum env <= 0 ->
  push env addOption s = (Throw (Error "CncurrentEncodeNumIsZero"), s)
  /\ message (Error "CncurrentEncodeNumIsZero") <> "ConcurrentEncodeNumIsZero".
Proof.
  intros H. split; [|discriminate].
  unfold push. apply Z.leb_le in H. rewrite H. reflexivity.
Qed.

Lemma push_disabled_throws_witness :
  concurrentEncodeNum env_off = 0
  /\ push env_off optA init = (Throw (Error "CncurrentEncodeNumIsZero"), init).
Proof.
  split; [reflexivity|].
  destruct (push_disabled_throws env_off init optA) as [H _].
  - vm_compute. discriminate.
  - exact H.
Defined.

(** ** finalize *)

Ltac framed := try (intros; simpl; assumption).

Lemma on_throw_of_preserves {A} P (m : M A) : preserves P m -> on_throw P m.
Proof. intros H s Hs. specialize (H s Hs). destruct ((m s).1); auto. Qed.

Lemma on_throw_total {A} P (m : M A) : total m -> on_throw P m.
Proof. intros H s Hs. destruct (H s) as [a Ha]. rewrite Ha. exact I. Qed.

Lemma on_throw_bind {A B} P (m : M A) (f : A -> M B) :
  preserves P m -> (forall a, on_throw P (f a)) -> on_throw P (m ≫= f).
Proof.
  intros Hm Hf s Hs. unfold mbind, M_bind, bind.
  specialize (Hm s Hs). destruct (m s) as [[a|e|] s1]; simpl in *; auto.
  apply Hf, Hm.
Qed.

Lemma find_none_filter {A} (f : A -> bool) l :
  List.find f l = None -> List.filter (fun x => negb (f x)) l = l.
Proof.
  induction l as [|x l IH]; simpl; [reflexivity|].
  destruct (f x); [discriminate|]. simpl. intros H. rewrite IH; auto.
Qed.

Lemma set_runningQueue_same s : set_runningQueue (runningQueue s) s = s.
Proof. destruct s. reflexivity. Qed.

(** With no entry for the id, [finalize] releases the ticket and asks for
    the next check of the queue, and that is all. *)
Lemma finalize_body_unknown eid exeId s :
  getRunnginQueueItem eid s = None ->
  finalize_body eid exeId s
  = (unLockExecution exeId;; nextTick_emitNeedsCheckQueue) s.
Proof.
  intros Hget. unfold finalize_body.
  unfold mbind at 1, M_bind, bind at 1, gets at 1. rewrite Hget.
  unfold mbind at 1, M_bind, bind at 1, mret at 1, M_ret, ret at 1.
  unfold mbind at 1, M_bind, bind at 1, modify at 1.
  unfold getRunnginQueueItem in Hget.
  rewrite (find_none_filter _ _ Hget), set_runningQueue_same. reflexivity.
Qed.

Lemma unLockExecution_queues i s :
  runningQueue (unLockExecution i s).2 = runningQueue s
  /\ ticks (unLockExecution i s).2 = ticks s.
Proof.
  apply (unLockExecution_preserves
           (fun s' => runningQueue s' = runningQueue s /\ ticks s' = ticks s)); framed.
  auto.
Qed.

(** [addQueue] appends to the running queue after its last step that can
    throw. *)
Lemma addQueue_throw_runningQueue env r rq : on_throw (fun s => runningQueue s = rq) (addQueue env r).
Proof.
  pose proof (getFilePath_preserves env (fun s => runningQueue s = rq)).
  pose proof effect_total. pose proof setTimeout_total.
  assert (forall e, preserves (fun s => runningQueue s = rq) (effect e))
    by (intros e; unfold effect; pres).
  unfold addQueue, deref, orThrow, getDirPath, log.
  repeat first
    [ apply on_throw_of_preserves; solve [pres]
    | apply on_throw_total; solve [pres]
    | apply on_throw_bind; [solve [pres] | intros ?]
    | match goal with |- on_throw _ (match ?x with _ => _ end) => destruct x end
    | progress cbv zeta ].
Qed.

(** A promotion that throws: [checkQueue] logs, emits an error event,
    releases its ticket and calls [finalize] with the id of the job. *)
Lemma checkQueue_body_failure env exeId s r rest e s1 item :
  waitQueue s = r :: rest ->
  addQueue env r (set_waitQueue rest s) = (Throw e, s1) ->
  store s1 !! r = Some item ->
  checkQueue_body env exeId s =
  finalize env (encodeId item)
    (unLockExecution exeId
       (add_effects [Log ErrorLevel (CreateEncodeProcessError (encodeId item));
                     Log ErrorLevel (ErrorObject e);
                     EmitErrorEncode] s1)).2.
Proof.
  intros Hw Ha Hst. unfold checkQueue_body.
  unfold mbind at 1, M_bind, bind at 1, gets at 1. rewrite Hw.
  unfold mbind at 1, M_bind, bind at 1.
  unfold mbind at 1, M_bind, bind at 1, modify at 1.
  unfold try_catch.
  unfold mbind at 1, M_bind, bind at 1. rewrite Ha.
  unfold mbind at 1, M_bind, bind at 1. rewrite (deref_run r s1 item Hst).
  unfold log.
  unfold mbind at 1, M_bind, bind at 1. rewrite effect_run.
  unfold mbind at 1, M_bind, bind at 1. rewrite effect_run.
  unfold mbind at 1, M_bind, bind at 1. rewrite effect_run.
  unfold mret at 1, M_ret, ret at 1.
  unfold mbind at 1, M_bind, bind at 1.
  rewrite (total_run (unLockExecution exeId) _ (unLockExecution_total exeId)).
  rewrite !add_effects_app. reflexivity.
Qed.


(** ** The id counter *)

Lemma checkQueue_idCnt env s : idCnt (checkQueue env s).2 = idCnt s.
Proof.
  apply (checkQueue_preserves env (fun s' => idCnt s' = idCnt s)); framed. reflexivity.
Qed.

Lemma unLockExecution_idCnt i s : idCnt (unLockExecution i s).2 = idCnt s.
Proof.
  apply (unLockExecution_preserves (fun s' => idCnt s' = idCnt s)); framed. reflexivity.
Qed.

(** [push], once it holds the ticket, step by step. *)
Lemma push_body_run env addOption exeId s :
  push_body env addOption exeId s =
  (Return (idCnt s),
   add_effects [EmitAddEncode (idCnt s)]
     (unLockExecution exeId
        (add_effects [Log Info (AddNewEncode (idCnt s))]
           (checkQueue env
              (set_waitQueue (waitQueue s ++ [length (store s)])
                 (set_idCnt ((if idCnt s =? MAX_SAFE_INTEGER then 0 else idCnt s) + 1)
                    (set_store (store s ++ [cloneDeep addOption (idCnt s)]) s)))).2)).2).
Proof.
  unfold push_body, alloc, emitNeedsCheckQueue, log.
  unfold mbind at 1, M_bind, bind at 1, gets at 1.
  unfold mbind at 1, M_bind, bind at 1.
  unfold mbind at 1, M_bind, bind at 1, gets at 1.
  unfold mbind at 1, M_bind, bind at 1, modify at 1.
  unfold mret at 1, M_ret, ret at 1.
  unfold mbind at 1, M_bind, bind at 1.
  destruct (idCnt s =? MAX_SAFE_INTEGER).
  - unfold modify at 1.
    unfold mbind at 1, M_bind, bind at 1, modify at 1.
    unfold mbind at 1, M_bind, bind at 1, modify at 1.
    unfold mbind at 1, M_bind, bind at 1.
    rewrite (total_run (checkQueue env) _ (checkQueue_total env)).
    unfold mbind at 1, M_bind, bind at 1. rewrite effect_run.
    unfold mbind at 1, M_bind, bind at 1.
    rewrite (total_run (unLockExecution exeId) _ (unLockExecution_total exeId)).
    unfold mbind at 1, M_bind, bind at 1. rewrite effect_run.
    reflexivity.
  - unfold mret at 1, M_ret, ret at 1.
    unfold mbind at 1, M_bind, bind at 1, modify at 1.
    unfold mbind at 1, M_bind, bind at 1, modify at 1.
    unfold mbind at 1, M_bind, bind at 1.
    rewrite (total_run (checkQueue env) _ (checkQueue_total env)).
    unfold mbind at 1, M_bind, bind at 1. rewrite effect_run.
    unfold mbind at 1, M_bind, bind at 1.
    rewrite (total_run (unLockExecution exeId) _ (unLockExecution_total exeId)).
    unfold mbind at 1, M_bind, bind at 1. rewrite effect_run.
    reflexivity.
Qed.

(** [push], once it holds the ticket, returns the counter and moves it on:
    by one, and from [MAX_SAFE_INTEGER] to 1. *)
Lemma push_body_counter env addOption exeId s :
  (push_body env addOption exeId s).1 = Return (idCnt s)
  /\ idCnt (push_body env addOption exeId s).2
     = (if idCnt s =? MAX_SAFE_INTEGER then 0 else idCnt s) + 1.
Proof.
  rewrite push_body_run. split; [reflexivity|].
  change (idCnt (add_effects ?l ?st)) with (idCnt st). simpl snd.
  unfold add_effects at 1. simpl.
  rewrite unLockExecution_idCnt. simpl. rewrite checkQueue_idCnt. reflexivity.
Qed.

(** An event that is not the resumption of a push leaves the counter. *)
Lemma step_idCnt env ev s :
  (forall i o rest, resolved s = (i, KPush o) :: rest -> ev <> RunResolved) ->
  idCnt (step env ev s) = idCnt s.
Proof.
  intros Hno.
  apply (step_stable env (fun s' => idCnt s' = idCnt s)); framed; [reflexivity|].
  intros i o rest -> Hr. exfalso. exact (Hno i o rest Hr eq_refl).
Qed.

(** C5, as it is written, fails: the push after the one that returned
    [MAX_SAFE_INTEGER] returns 1. *)
Lemma counter_wraps_to_one_not_zero :
  idCnt s_max = MAX_SAFE_INTEGER
  /\ addedIds (trace s_wrapped) = [MAX_SAFE_INTEGER; 1]
  /\ addedIds (trace s_wrapped) <> [MAX_SAFE_INTEGER; 0].
Proof. split; [reflexivity|]. split; [vm_compute; reflexivity | vm_compute; discriminate]. Qed.

(** C5, amended. The call of [push] that finds the counter at
    [MAX_SAFE_INTEGER] returns that id and leaves the counter at 1: the
    counter is set to 0 and incremented at once.  Nothing but [push] writes
    the counter, so the next call of [push] that gets its ticket returns 1;
    0 is not handed out. *)
Theorem idCnt_wraps_to_one env addOption exeId s :
  idCnt s = MAX_SAFE_INTEGER ->
  (push_body env addOption exeId s).1 = Return MAX_SAFE_INTEGER
  /\ idCnt (push_body env addOption exeId s).2 = 1
  /\ (forall ev s1,
        (forall i o rest, resolved s1 = (i, KPush o) :: rest -> ev <> RunResolved) ->
        idCnt (step env ev s1) = idCnt s1)
  /\ (forall o i s1, idCnt s1 = 1 -> (push_body env o i s1).1 = Return 1).
Proof.
  intros Hmax. destruct (push_body_counter env addOption exeId s) as [H1 H2].
  rewrite Hmax in H1, H2. split; [exact H1|]. split; [exact H2|]. split.
  - intros ev s1. apply step_idCnt.
  - intros o i s1 Hs1. destruct (push_body_counter env o i s1) as [H _].
    rewrite Hs1 in H. exact H.
Qed.

Lemma idCnt_wraps_to_one_witness :
  idCnt s_max = MAX_SAFE_INTEGER
  /\ (push_body env0 optA "t0" s_max).1 = Return MAX_SAFE_INTEGER
  /\ idCnt (push_body env0 optA "t0" s_max).2 = 1.
Proof.
  split; [reflexivity|].
  destruct (idCnt_wraps_to_one env0 optA "t0" s_max) as (H1 & H2 & _).
  - reflexivity.
  - split; [exact H1 | exact H2].
Defined.

(** ** The deadline of a promoted job *)

Lemma bind_Return_inv {A B} (m : M A) (f : A -> M B) s b s' :
  (m ≫= f) s = (Return b, s') ->
  exists a s1, m s = (Return a, s1) /\ f a s1 = (Return b, s').
Proof.
  unfold mbind, M_bind, bind. destruct (m s) as [[a|e|] s1]; try discriminate.
  intros H. eauto.
Qed.

Lemma preserves_run {A} (P : State -> Prop) (m : M A) s o s' :
  preserves P m -> m s = (o, s') -> P s -> P s'.
Proof. intros Hm E Hs. specialize (Hm s Hs). rewrite E in Hm. exact Hm. Qed.

Lemma await_inv {A} (r : JsError + A) s a s' :
  await r s = (Return a, s') -> r = inr a /\ s' = s.
Proof. destruct r; simpl; intros H; inversion H; auto. Qed.

Lemma orThrow_inv {A} (o : option A) msg s a s' :
  orThrow o msg s = (Return a, s') -> o = Some a /\ s' = s.
Proof. destruct o; simpl; intros H; inversion H; auto. Qed.

Lemma deref_inv r s it s' :
  deref r s = (Return it, s') -> store s !! r = Some it /\ s' = s.
Proof.
  unfold deref, mbind, M_bind, bind, gets. simpl.
  destruct (store s !! r); simpl; intros H; inversion H; auto.
Qed.

Ltac keep P Hm HP :=
  match type of Hm with
  | ?m _ = _ =>
      let Hp := fresh "Hp" in
      assert (Hp : preserves P m) by pres;
      apply (preserves_run P m _ _ _ Hp Hm) in HP; clear Hp Hm
  end.

(** What a promotion that succeeds leaves behind: one new entry at the end
    of the running queue, with a timer of [recorded.duration * rate]. *)
Lemma addQueue_Return_inv env r s s' :
  addQueue env r s = (Return tt, s') ->
  exists queueItem recorded encodeCmd child out,
    store s !! r = Some queueItem
    /\ recordedDB_findId env (recordedId queueItem) = inr (Some recorded)
    /\ List.find (fun enc => String.eqb (name enc) (mode queueItem)) (encode env)
       = Some encodeCmd
    /\ runningQueue s' =
       runningQueue s ++
       [mkRunningQueueItem child r false
          (mkTimer (timerCnt s) (timeoutDelay recorded encodeCmd) (EncodeTimeout r out))]
    /\ In (SetTimeout (mkTimer (timerCnt s) (timeoutDelay recorded encodeCmd)
                         (EncodeTimeout r out)))
          (trace s').
Proof.
  intros H.
  set (P := fun st : State => runningQueue st = runningQueue s /\ timerCnt st = timerCnt s).
  assert (HP : P s) by (split; reflexivity).
  assert (Heff : forall e, preserves P (effect e)) by (intros e; unfold effect; pres).
  assert (Hlog : forall l m, preserves P (log l m)) by (intros; apply Heff).
  assert (Hdir : forall q, preserves P (getDirPath env q))
    by (intros q; unfold getDirPath; pres).
  pose proof (getFilePath_preserves env P) as Hfile.
  unfold addQueue in H.
  apply bind_Return_inv in H as (queueItem & s1 & Hm & H).
  apply deref_inv in Hm as [Hst ->].
  apply bind_Return_inv in H as (video & s1 & Hm & H).
  apply await_inv in Hm as [_ ->].
  apply bind_Return_inv in H as (v & s1 & Hm & H).
  apply orThrow_inv in Hm as [_ ->].
  apply bind_Return_inv in H as (recorded0 & s1 & Hm & H).
  apply await_inv in Hm as [Hrec ->].
  apply bind_Return_inv in H as (recorded & s1 & Hm & H).
  apply orThrow_inv in Hm as [-> ->].
  apply bind_Return_inv in H as (input0 & s1 & Hm & H).
  apply await_inv in Hm as [_ ->].
  apply bind_Return_inv in H as (inputFilePath & s1 & Hm & H).
  apply orThrow_inv in Hm as [_ ->].
  apply bind_Return_inv in H as (u1 & s1 & Hm & H).
  keep P Hm HP.
  apply bind_Return_inv in H as (encodeCmd & s2 & Hm & H).
  apply orThrow_inv in Hm as [Hcmd ->].
  apply bind_Return_inv in H as (outputDirPath & s2 & Hm & H).
  keep P Hm HP.
  apply bind_Return_inv in H as (u2 & s3 & Hm & H).
  keep P Hm HP.
  apply bind_Return_inv in H as (outputFilePath & s4 & Hm & H).
  keep P Hm HP.
  apply bind_Return_inv in H as (u3 & s5 & Hm & H).
  keep P Hm HP.
  cbv zeta in H.
  apply bind_Return_inv in H as (u4 & s6 & Hm & H).
  keep P Hm HP.
  apply bind_Return_inv in H as (child & s7 & Hm & H).
  apply await_inv in Hm as [_ ->].
  destruct HP as [Hrq Htc].
  exists queueItem, recorded, encodeCmd, child, outputFilePath.
  split; [exact Hst|]. split; [exact Hrec|]. split; [exact Hcmd|].
  unfold setTimeout, effect, modify, gets, mbind, M_bind, bind, mret, M_ret, ret in H.
  simpl in H. rewrite Htc in H.
  destruct (stderr child); simpl in H; inversion H; subst s'; simpl; rewrite Hrq;
    (split; [reflexivity|]);
    rewrite !in_app_iff; simpl; tauto.
Qed.

(** C4, as it is written, fails: for a recording whose duration field is 60
    and a profile of rate 2, the timer is set with 120, which [setTimeout]
    reads as 120 milliseconds, not as 120 seconds. *)
Lemma deadline_is_not_in_seconds :
  recordedDB_findId env0 5 = inr (Some (mkRecorded 5 "prog" (60 # 1)%Q))
  /\ map rate (encode env0) = [Some (2 # 1)%Q]
  /\ map (fun q => t_delay (timerId q)) (runningQueue s_running) = [(120 # 1)%Q]
  /\ ~ Qeq (120 # 1)%Q (deadline_in_seconds_ms (60 # 1)%Q (2 # 1)%Q).
Proof.
  split; [reflexivity|]. split; [reflexivity|]. split; [reflexivity|].
  vm_compute. discriminate.
Qed.

(** C4, amended. A promotion that succeeds puts one entry at the end of the
    running queue whose timer was set with the delay
    [recorded.duration * rate], the number that [setTimeout] reads as
    milliseconds, where [rate] is the rate of the encoder profile and 4.0
    when the profile has none; when the timer fires, its callback logs and
    calls [cancel] with the id of the job. *)
Theorem addQueue_installs_deadline env r s s' :
  addQueue env r s = (Return tt, s') ->
  exists queueItem recorded encodeCmd child out,
    store s !! r = Some queueItem
    /\ recordedDB_findId env (recordedId queueItem) = inr (Some recorded)
    /\ List.find (fun enc => String.eqb (name enc) (mode queueItem)) (encode env)
       = Some encodeCmd
    /\ let timer :=
         mkTimer (timerCnt s)
           (Qmult (duration recorded)
                  (match rate encodeCmd with
                   | Some x => x
                   | None => (4 # 1)%Q
                   end))
           (EncodeTimeout r out) in
       runningQueue s' = runningQueue s ++ [mkRunningQueueItem child r false timer]
       /\ In (SetTimeout timer) (trace s')
       /\ (forall s2, store s2 !! r = Some queueItem ->
             fireTimer env timer s2 =
             cancel env (encodeId queueItem)
               (add_effects
                  [Log ErrorLevel (EncodeProcessIsTimeOut (encodeId queueItem) out)] s2)).
Proof.
  intros H.
  destruct (addQueue_Return_inv env r s s' H)
    as (queueItem & recorded & encodeCmd & child & out & Hst & Hrec & Hcmd & Hrq & Hin).
  exists queueItem, recorded, encodeCmd, child, out.
  split; [exact Hst|]. split; [exact Hrec|]. split; [exact Hcmd|].
  assert (Hd : timeoutDelay recorded encodeCmd =
               Qmult (duration recorded)
                     (match rate encodeCmd with Some x => x | None => (4 # 1)%Q end)).
  { unfold timeoutDelay, DEFAULT_TIMEOUT_RATE. destruct (rate encodeCmd); reflexivity. }
  rewrite Hd in Hrq, Hin. cbv zeta.
  split; [exact Hrq|]. split; [exact Hin|].
  intros s2 Hs2. unfold fireTimer. simpl. unfold onEncodeTimeout.
  unfold mbind at 1, M_bind, bind at 1. rewrite (deref_run r s2 queueItem Hs2).
  unfold mbind at 1, M_bind, bind at 1. unfold log. rewrite effect_run. reflexivity.
Qed.

Lemma addQueue_installs_deadline_witness :
  addQueue env0 0%nat s_wait = (Return tt, (addQueue env0 0%nat s_wait).2)
  /\ exists child out,
       runningQueue (addQueue env0 0%nat s_wait).2 =
       [mkRunningQueueItem child 0%nat false
          (mkTimer (timerCnt s_wait) (120 # 1)%Q (EncodeTimeout 0%nat out))].
Proof.
  assert (E : addQueue env0 0%nat s_wait = (Return tt, (addQueue env0 0%nat s_wait).2))
    by reflexivity.
  split; [exact E|].
  destruct (addQueue_installs_deadline env0 0%nat s_wait _ E)
    as (queueItem & recorded & encodeCmd & child & out & Hst & Hrec & Hcmd & Hrq & _).
  exists child, out.
  assert (Hq : queueItem = cloneDeep optA 1).
  { assert (E1 : Some queueItem = Some (cloneDeep optA 1))
      by exact (eq_trans (eq_sym Hst) eq_refl).
    congruence. }
  subst queueItem.
  assert (recorded = mkRecorded 5 "prog" (60 # 1)%Q).
  { assert (E2 : @inr JsError _ (Some recorded) = inr (Some (mkRecorded 5 "prog" (60 # 1)%Q)))
      by exact (eq_trans (eq_sym Hrec) eq_refl).
    congruence. }
  assert (encodeCmd = mkEncodeCmd "H264" "ffmpeg" (Some ".mp4") (Some (2 # 1)%Q)).
  { assert (E3 : Some encodeCmd
                 = Some (mkEncodeCmd "H264" "ffmpeg" (Some ".mp4") (Some (2 # 1)%Q)))
      by exact (eq_trans (eq_sym Hcmd) eq_refl).
    congruence. }
  subst recorded encodeCmd. exact Hrq.
Defined.

(** ** More about the gate *)

Lemma forM_onDone_run hit s :
  forM_ hit onDone s =
  (Return tt,
   set_listeners (unsubscribe hit (listeners s))
     (set_resolved (resolved s ++ map (fun w => (w_id w, w_cont w)) hit)
        (add_effects (map (fun w => ClearTimeout (w_timer w)) hit) s))).
Proof.
  revert s. induction hit as [|w hit IH]; intros s.
  - simpl. unfold mret, M_ret, ret. f_equal. rewrite add_effects_nil.
    rewrite app_nil_r. destruct s; reflexivity.
  - change (forM_ (w :: hit) onDone) with (onDone w;; forM_ hit onDone).
    unfold mbind at 1, M_bind, bind at 1.
    assert (E : onDone w s =
              (Return tt,
               set_listeners
                 (List.filter (fun v => negb (t_handle (w_timer v) =? t_handle (w_timer w))%nat)
                    (listeners s))
                 (set_resolved (resolved s ++ [(w_id w, w_cont w)])
                    (add_effects [ClearTimeout (w_timer w)] s)))) by reflexivity.
    rewrite E, IH. f_equal.
    unfold add_effects, set_listeners, set_resolved, set_trace; simpl.
    rewrite <- !app_assoc. reflexivity.
Qed.

Lemma emitUnlockEvent_run i s :
  emitUnlockEvent i s =
  forM_ (List.filter (fun w => String.eqb (w_id w) i) (listeners s)) onDone s.
Proof. reflexivity. Qed.

(** The state after a handoff, field by field. *)
Lemma unLockExecution_grant s i x rest :
  lockId s = None \/ lockId s = Some i ->
  exeQueue s = x :: rest ->
  let hit := List.filter (fun w => String.eqb (w_id w) (id x)) (listeners s) in
  unLockExecution i s =
  (Return tt,
   set_listeners (unsubscribe hit (listeners s))
     (set_resolved (resolved s ++ map (fun w => (w_id w, w_cont w)) hit)
        (add_effects (map (fun w => ClearTimeout (w_timer w)) hit)
           (set_lockId (Some (id x)) (set_exeQueue rest s))))).
Proof.
  intros Hl Hq hit.
  unfold unLockExecution, mbind, M_bind, bind, gets, modify, mret, M_ret, ret. simpl.
  destruct (decide (lockId s = Some i)) as [E|E]; simpl.
  - rewrite Hq. rewrite emitUnlockEvent_run, forM_onDone_run. reflexivity.
  - destruct Hl as [Hl|Hl]; [|congruence]. rewrite Hl, Hq.
    rewrite emitUnlockEvent_run, forM_onDone_run. reflexivity.
Qed.

(** What a handoff of the gate does to the state. *)
Lemma unLockExecution_head_granted s i x rest :
  lockId s = None \/ lockId s = Some i ->
  exeQueue s = x :: rest ->
  let hit := List.filter (fun w => String.eqb (w_id w) (id x)) (listeners s) in
  let s' := (unLockExecution i s).2 in
  (unLockExecution i s).1 = Return tt
  /\ lockId s' = Some (id x)
  /\ exeQueue s' = rest
  /\ resolved s' = resolved s ++ map (fun w => (w_id w, w_cont w)) hit
  /\ listeners s' = unsubscribe hit (listeners s)
  /\ effectsOf (unLockExecution i) s = map (fun w => ClearTimeout (w_timer w)) hit
  /\ waitQueue s' = waitQueue s /\ runningQueue s' = runningQueue s /\ idCnt s' = idCnt s.
Proof.
  intros Hl Hq hit s'. subst s'. unfold effectsOf.
  rewrite (unLockExecution_grant s i x rest Hl Hq). simpl.
  repeat split; try reflexivity.
  rewrite drop_app_length. reflexivity.
Qed.

(** X1. When [unLockExecution] hands the gate over, the head ticket
    becomes the holder and leaves the queue, and exactly the listeners
    registered for that ticket are resumed, in the order they registered,
    each with its timeout timer cleared; nothing else is done. *)
Theorem handoff_resumes_waiters_of_head s i x rest :
  lockId s = None \/ lockId s = Some i ->
  exeQueue s = x :: rest ->
  let hit := List.filter (fun w => String.eqb (w_id w) (id x)) (listeners s) in
  let s' := (unLockExecution i s).2 in
  (unLockExecution i s).1 = Return tt
  /\ lockId s' = Some (id x)
  /\ exeQueue s' = rest
  /\ resolved s' = resolved s ++ map (fun w => (w_id w, w_cont w)) hit
  /\ listeners s' = unsubscribe hit (listeners s)
  /\ effectsOf (unLockExecution i) s = map (fun w => ClearTimeout (w_timer w)) hit
  /\ waitQueue s' = waitQueue s /\ runningQueue s' = runningQueue s /\ idCnt s' = idCnt s.
Proof. exact (unLockExecution_head_granted s i x rest). Qed.

Lemma handoff_resumes_waiters_of_head_witness :
  lockId s_contended = Some "t2"
  /\ lockId (unLockExecution "t2" s_contended).2 = Some "t5"
  /\ resolved (unLockExecution "t2" s_contended).2
     = resolved s_contended ++ [("t5", KFinalize 1)].
Proof.
  split; [reflexivity|].
  destruct (handoff_resumes_waiters_of_head s_contended "t2" (mkExeQueueData "t5" 3)
              [mkExeQueueData "t4" 2; mkExeQueueData "t6" 2; mkExeQueueData "t3" 1])
    as (_ & Hl & _ & Hr & _).
  - right. reflexivity.
  - reflexivity.
  - split; [exact Hl | exact Hr].
Defined.

(** X2. When the timer of [getExecution] fires for a listener that still
    waits, the caller is rejected with [GetExecutionTimeoutError] and its
    listener is removed, but its ticket stays in the ticket queue and the
    holder is not changed. *)
Theorem gate_timeout_keeps_ticket t prio s w :
  List.find (fun v => (t_handle (w_timer v) =? t_handle t)%nat) (listeners s) = Some w ->
  let s' := (onGetExecutionTimeout t prio s).2 in
  (onGetExecutionTimeout t prio s).1 = Return tt
  /\ lockId s' = lockId s
  /\ exeQueue s' = exeQueue s
  /\ resolved s' = resolved s
  /\ listeners s'
     = List.filter (fun v => negb (t_handle (w_timer v) =? t_handle t)%nat) (listeners s)
  /\ effectsOf (onGetExecutionTimeout t prio) s
     = [Log ErrorLevel (GetExecutionError prio);
        Reject (w_id w) (w_cont w) (Error "GetExecutionTimeoutError")].
Proof.
  intros Hf s'. subst s'.
  assert (E : onGetExecutionTimeout t prio s =
    (Return tt,
     add_effects [Log ErrorLevel (GetExecutionError prio);
                  Reject (w_id w) (w_cont w) (Error "GetExecutionTimeoutError")]
       (set_listeners
          (List.filter (fun v => negb (t_handle (w_timer v) =? t_handle t)%nat) (listeners s))
          s))).
  { unfold onGetExecutionTimeout, log.
    unfold mbind at 1, M_bind, bind at 1. rewrite effect_run.
    unfold mbind at 1, M_bind, bind at 1, gets at 1.
    change (listeners (add_effects [Log ErrorLevel (GetExecutionError prio)] s))
      with (listeners s).
    rewrite Hf.
    unfold mbind at 1, M_bind, bind at 1, modify at 1. rewrite effect_run.
    f_equal. unfold add_effects, set_listeners, set_trace; simpl.
    rewrite <- app_assoc. reflexivity. }
  unfold effectsOf. rewrite E. simpl.
  repeat split; try reflexivity.
  rewrite drop_app_length. reflexivity.
Qed.

Lemma gate_timeout_keeps_ticket_witness :
  In (mkExeQueueData "t5" 3)
     (exeQueue (onGetExecutionTimeout
                  (mkTimer 6 UNLOCK_TIMEOUT (GetExecutionTimeout "t5" 3)) 3 s_contended).2)
  /\ map w_id (listeners (onGetExecutionTimeout
                  (mkTimer 6 UNLOCK_TIMEOUT (GetExecutionTimeout "t5" 3)) 3 s_contended).2)
     = ["t3"; "t4"; "t6"].
Proof.
  destruct (gate_timeout_keeps_ticket
              (mkTimer 6 UNLOCK_TIMEOUT (GetExecutionTimeout "t5" 3)) 3 s_contended
              (mkWaiter "t5" (mkTimer 6 UNLOCK_TIMEOUT (GetExecutionTimeout "t5" 3))
                 (KFinalize 1)))
    as (_ & _ & Hq & _ & Hls & _).
  - reflexivity.
  - split.
    + rewrite Hq. vm_compute. tauto.
    + rewrite Hls. reflexivity.
Defined.

(** X3. A ticket whose listener is gone still gets the gate when it
    reaches the head of the queue: it becomes the holder, nobody is resumed
    and nothing is announced to anybody, and from then on a release under
    any other id leaves the gate as it is. *)
Theorem handoff_to_abandoned_ticket s i x rest :
  lockId s = None \/ lockId s = Some i ->
  exeQueue s = x :: rest ->
  Forall (fun w => w_id w <> id x) (listeners s) ->
  let s' := (unLockExecution i s).2 in
  lockId s' = Some (id x)
  /\ exeQueue s' = rest
  /\ resolved s' = resolved s
  /\ listeners s' = listeners s
  /\ effectsOf (unLockExecution i) s = []
  /\ (forall j, j <> id x -> unLockExecution j s' = (Return tt, s')).
Proof.
  intros Hl Hq Hno s'.
  assert (Hhit : List.filter (fun w => String.eqb (w_id w) (id x)) (listeners s) = []).
  { induction (listeners s) as [|w ls IH]; [reflexivity|].
    inversion Hno as [|? ? Hw Hls]; subst. simpl.
    destruct (String.eqb_spec (w_id w) (id x)); [contradiction|]. auto. }
  destruct (unLockExecution_head_granted s i x rest Hl Hq)
    as (_ & H1 & H2 & H3 & H4 & H5 & _).
  rewrite Hhit in H3, H4, H5. simpl in H3, H4, H5. rewrite app_nil_r in H3.
  subst s'. repeat split; auto.
  intros j Hj. apply unLockExecution_foreign with (id x); auto.
Qed.

Lemma handoff_to_abandoned_ticket_witness :
  lockId s_timedout = Some "t2"
  /\ lockId (unLockExecution "t2" s_timedout).2 = Some "t5"
  /\ resolved (unLockExecution "t2" s_timedout).2 = resolved s_timedout.
Proof.
  split; [reflexivity|].
  destruct (handoff_to_abandoned_ticket s_timedout "t2" (mkExeQueueData "t5" 3)
              [mkExeQueueData "t4" 2; mkExeQueueData "t6" 2; mkExeQueueData "t3" 1])
    as (Hl & _ & Hr & _).
  - right. reflexivity.
  - reflexivity.
  - vm_compute. repeat constructor; discriminate.
  - split; [exact Hl | exact Hr].
Defined.

(** [getExecution], step by step. *)
Lemma getExecution_run env p k s :
  let i := ticketId env (ticketCnt s) in
  let t := mkTimer (timerCnt s) UNLOCK_TIMEOUT (GetExecutionTimeout i p) in
  getExecution env p k s =
  unLockExecution i
    (set_listeners (listeners s ++ [mkWaiter i t k])
       (add_effects [SetTimeout t]
          (set_timerCnt (S (timerCnt s))
             (set_exeQueue (insertTicket (mkExeQueueData i p) (exeQueue s))
                (set_ticketCnt (S (ticketCnt s)) s))))).
Proof. reflexivity. Qed.

(** X4. A ticket asked for while the gate is free and no ticket waits is
    granted at once: the caller becomes the holder and is resumed, the
    timeout timer that was just set is cleared, and the ticket queue stays
    empty. *)
Theorem getExecution_on_free_gate env p k s :
  lockId s = None ->
  exeQueue s = [] ->
  Forall (fun w => w_id w <> ticketId env (ticketCnt s)) (listeners s) ->
  let i := ticketId env (ticketCnt s) in
  let t := mkTimer (timerCnt s) UNLOCK_TIMEOUT (GetExecutionTimeout i p) in
  let s' := (getExecution env p k s).2 in
  (getExecution env p k s).1 = Return tt
  /\ lockId s' = Some i
  /\ exeQueue s' = []
  /\ resolved s' = resolved s ++ [(i, k)]
  /\ effectsOf (getExecution env p k) s = [SetTimeout t; ClearTimeout t].
Proof.
  intros Hl Hq Hno i t s'. subst s'. unfold effectsOf.
  rewrite getExecution_run. fold i. fold t.
  assert (Hhit : List.filter (fun w => String.eqb (w_id w) i)
                   (listeners s ++ [mkWaiter i t k]) = [mkWaiter i t k]).
  { rewrite List.filter_app. simpl. rewrite String.eqb_refl.
    replace (List.filter _ (listeners s)) with (@nil Waiter); [reflexivity|].
    symmetry. induction (listeners s) as [|w ls IH]; [reflexivity|].
    inversion Hno as [|? ? Hw Hls]; subst. simpl.
    destruct (String.eqb_spec (w_id w) i); [contradiction|]. auto. }
  rewrite (unLockExecution_grant _ i (mkExeQueueData i p) []).
  - simpl. rewrite Hhit. simpl.
    repeat split; try reflexivity.
    rewrite <- !app_assoc, drop_app_length. reflexivity.
  - left. exact Hl.
  - simpl. rewrite Hq. reflexivity.
Qed.

Lemma getExecution_on_free_gate_witness :
  lockId init = None
  /\ lockId (getExecution env0 ADD_ENCODE_PRIPORITY (KPush optA) init).2 = Some "t0"
  /\ resolved (getExecution env0 ADD_ENCODE_PRIPORITY (KPush optA) init).2
     = [("t0", KPush optA)].
Proof.
  split; [reflexivity|].
  destruct (getExecution_on_free_gate env0 ADD_ENCODE_PRIPORITY (KPush optA) init)
    as (_ & Hl & _ & Hr & _).
  - reflexivity.
  - reflexivity.
  - constructor.
  - split; [exact Hl | exact Hr].
Defined.

(** X5. A ticket asked for while somebody else holds the gate waits: it is
    put into the ticket queue at its place, its listener and its timeout
    timer are set up, the holder stays and nobody is resumed. *)
Theorem getExecution_on_held_gate env p k s h :
  lockId s = Some h ->
  h <> ticketId env (ticketCnt s) ->
  let i := ticketId env (ticketCnt s) in
  let t := mkTimer (timerCnt s) UNLOCK_TIMEOUT (GetExecutionTimeout i p) in
  let s' := (getExecution env p k s).2 in
  (getExecution env p k s).1 = Return tt
  /\ lockId s' = Some h
  /\ exeQueue s' = insertTicket (mkExeQueueData i p) (exeQueue s)
  /\ resolved s' = resolved s
  /\ listeners s' = listeners s ++ [mkWaiter i t k]
  /\ effectsOf (getExecution env p k) s = [SetTimeout t].
Proof.
  intros Hl Hne i t s'. subst s'. unfold effectsOf.
  rewrite getExecution_run. fold i. fold t.
  rewrite (unLockExecution_foreign _ h i); [|exact Hl | exact (fun E => Hne (eq_sym E))].
  simpl. repeat split; try reflexivity; [exact Hl|].
  rewrite drop_app_length. reflexivity.
Qed.

Lemma getExecution_on_held_gate_witness :
  lockId s_contended = Some "t2"
  /\ lockId (getExecution env0 CANCEL_ENCODE_PRIPORITY (KCancel 1) s_contended).2 = Some "t2"
  /\ map id (exeQueue (getExecution env0 CANCEL_ENCODE_PRIPORITY (KCancel 1) s_contended).2)
     = ["t5"; "t4"; "t6"; "t3"; "t7"].
Proof.
  split; [reflexivity|].
  destruct (getExecution_on_held_gate env0 CANCEL_ENCODE_PRIPORITY (KCancel 1) s_contended "t2")
    as (_ & Hl & Hq & _).
  - reflexivity.
  - vm_compute. discriminate.
  - split; [exact Hl|]. rewrite Hq. reflexivity.
Defined.

(** ** Invariants that the gate itself keeps *)

Section OutsideGate.

Variable env : Env.
Variable P : State -> Prop.
Hypothesis P_unLock : forall i, preserves P (unLockExecution i).
Hypothesis P_getExecution : forall p k, preserves P (getExecution env p k).
Hypothesis P_listeners : forall v s, P s -> P (set_listeners v s).
Hypothesis P_timerCnt : forall v s, P s -> P (set_timerCnt v s).
Hypothesis P_resolved : forall v s, P s -> P (set_resolved v s).
Hypothesis P_effect : forall e s, P s -> P (set_trace (trace s ++ [e]) s).
Hypothesis P_waitQueue : forall v s, P s -> P (set_waitQueue v s).
Hypothesis P_runningQueue : forall v s, P s -> P (set_runningQueue v s).
Hypothesis P_store : forall v s, P s -> P (set_store v s).
Hypothesis P_ticks : forall v s, P s -> P (set_ticks v s).
Hypothesis P_idCnt : forall v s, P s -> P (set_idCnt v s).

(** Every event keeps a property that the two gate operations keep and
    that does not depend on the other fields. *)
Lemma step_outside_gate ev s : P s -> P (step env ev s).
Proof using All.
  assert (Heff : forall e, preserves P (effect e)) by (intros e; unfold effect; pres).
  assert (Hlog : forall l m, preserves P (log l m)) by (intros; apply Heff).
  assert (Hst : forall a d, preserves P (setTimeout a d))
    by (intros; unfold setTimeout; pres).
  assert (Hderef : forall r, preserves P (deref r)) by (intros; unfold deref; pres).
  assert (Hcq : preserves P (checkQueue env)) by (unfold checkQueue; pres).
  assert (Hfin : forall eid, preserves P (finalize env eid))
    by (intros; unfold finalize; pres).
  assert (Hcan : forall eid, preserves P (cancel env eid))
    by (intros; unfold cancel; pres).
  assert (Hfile : forall d f sfx, preserves P (getFilePath env d f sfx)).
  { intros d f sfx. unfold getFilePath. generalize 0. generalize (loopBound env).
    intros n. induction n as [|n IH]; intros c; simpl.
    - intros s0 H0. exact H0.
    - destruct (stat env _); [apply preserves_ret | apply IH]. }
  assert (Hadd : forall r, preserves P (addQueue env r))
    by (intros; unfold addQueue, orThrow, getDirPath; pres).
  assert (Hpush : forall o i, preserves P (push_body env o i))
    by (intros; unfold push_body, alloc, emitNeedsCheckQueue; pres).
  assert (Hcqb : forall i, preserves P (checkQueue_body env i))
    by (intros; unfold checkQueue_body; pres).
  assert (Hfb : forall eid i, preserves P (finalize_body eid i))
    by (intros; unfold finalize_body, nextTick_emitNeedsCheckQueue, clearTimeout; pres).
  assert (Hcb : forall eid i, preserves P (cancel_body env eid i))
    by (intros; unfold cancel_body, nextTick_emitNeedsCheckQueue; pres).
  assert (Hexit : forall r o c sg, preserves P (exitHandler env r o c sg))
    by (intros; unfold exitHandler, clearRemoveOriginal, deleteOutputFile; pres).
  intros Hs. revert s Hs. change (preserves P (handle env ev)).
  destruct ev; simpl;
    unfold push, runTick, runResolved, resume, fireTimer, onEncodeTimeout,
      onGetExecutionTimeout, emitNeedsCheckQueue; pres.
Qed.

Lemma Reachable_outside_gate s : P init -> Reachable env s -> P s.
Proof using All.
  intros H0 Hr. induction Hr as [|s ev Hr IH]; [exact H0|].
  apply step_outside_gate, IH.
Qed.

End OutsideGate.

Lemma unLockExecution_free_empty i s :
  lockId (unLockExecution i s).2 = None -> exeQueue (unLockExecution i s).2 = [].
Proof.
  intros Hn. destruct (lockId s) as [h|] eqn:Hl.
  - destruct (decide (i = h)) as [->|Hne].
    + destruct (exeQueue s) as [|x rest] eqn:Hq.
      * destruct (unLockExecution_exeQueue h s) as [E|(y & E & _)]; congruence.
      * destruct (unLockExecution_handoff s h x rest) as [H1 _]; auto. congruence.
    + rewrite (unLockExecution_foreign s h i) in Hn; auto. simpl in Hn. congruence.
  - destruct (exeQueue s) as [|x rest] eqn:Hq.
    + destruct (unLockExecution_exeQueue i s) as [E|(y & E & _)]; congruence.
    + destruct (unLockExecution_handoff s i x rest) as [H1 _]; auto. congruence.
Qed.

(** X6. In every state the manager can be in, a free gate has an empty
    ticket queue: no ticket is left waiting while nobody holds the gate. *)
Theorem free_gate_has_no_waiting_ticket env s :
  Reachable env s -> lockId s = None -> exeQueue s = [].
Proof.
  intros Hr.
  apply (Reachable_outside_gate env (fun s => lockId s = None -> exeQueue s = [])); auto.
  - intros i s0 _. apply unLockExecution_free_empty.
  - intros p k s0 _. rewrite getExecution_run. apply unLockExecution_free_empty.
Qed.

Lemma free_gate_has_no_waiting_ticket_witness :
  Reachable env0 s_running /\ lockId s_running = None /\ exeQueue s_running = [].
Proof.
  split; [exact Reachable_s_running|]. split; [reflexivity|].
  apply (free_gate_has_no_waiting_ticket env0 s_running Reachable_s_running). reflexivity.
Defined.

(** X7. In every state the manager can be in, the id counter is at least 1
    and at most [MAX_SAFE_INTEGER]: [push] never hands out 0 or an id above
    the safe integers. *)
Theorem idCnt_in_safe_range env s :
  Reachable env s -> 1 <= idCnt s <= MAX_SAFE_INTEGER.
Proof.
  intros Hr.
  apply (Reachable_invariant env (fun s => 1 <= idCnt s <= MAX_SAFE_INTEGER)); auto.
  - intros o i s0 H0. destruct (push_body_counter env o i s0) as [_ E]. rewrite E.
    destruct (idCnt s0 =? MAX_SAFE_INTEGER) eqn:Em.
    + unfold MAX_SAFE_INTEGER. simpl. lia.
    + apply Z.eqb_neq in Em. lia.
  - unfold MAX_SAFE_INTEGER. simpl. lia.
Qed.

Lemma idCnt_in_safe_range_witness :
  Reachable env0 s_running /\ 1 <= idCnt s_running <= MAX_SAFE_INTEGER.
Proof.
  split; [exact Reachable_s_running|].
  exact (idCnt_in_safe_range env0 s_running Reachable_s_running).
Defined.

(** ** push and checkQueue with the ticket *)

Lemma checkQueue_effects env s : extends_by isTimerEffect (trace s) (checkQueue env s).2.
Proof.
  apply (checkQueue_preserves env (extends_by isTimerEffect (trace s)));
    try (intros; apply extends_by_effect; simpl; auto; fail);
    try (intros ? ? H; exact H); try (intros ? H; exact H).
  apply extends_by_refl.
Qed.

Lemma checkQueue_queues env s :
  store (checkQueue env s).2 = store s
  /\ waitQueue (checkQueue env s).2 = waitQueue s
  /\ runningQueue (checkQueue env s).2 = runningQueue s.
Proof.
  apply (checkQueue_preserves env
           (fun s' => store s' = store s /\ waitQueue s' = waitQueue s
                      /\ runningQueue s' = runningQueue s)); framed.
  auto.
Qed.

Lemma unLockExecution_frame i s :
  store (unLockExecution i s).2 = store s
  /\ waitQueue (unLockExecution i s).2 = waitQueue s
  /\ runningQueue (unLockExecution i s).2 = runningQueue s.
Proof.
  apply (unLockExecution_preserves
           (fun s' => store s' = store s /\ waitQueue s' = waitQueue s
                      /\ runningQueue s' = runningQueue s)); framed.
  auto.
Qed.

Lemma addedIds_app l1 l2 : addedIds (l1 ++ l2) = addedIds l1 ++ addedIds l2.
Proof.
  induction l1 as [|e l1 IH]; [reflexivity|].
  destruct e; simpl; rewrite ?IH; reflexivity.
Qed.

Lemma addedIds_timer l : Forall isTimerEffect l -> addedIds l = [].
Proof.
  induction 1 as [|e l He Hl IH]; [reflexivity|].
  destruct e; simpl in *; try contradiction; exact IH.
Qed.

(** X8. Once it holds the ticket, [push] returns the value of the id
    counter, stores a copy of the request under that id, appends it at the
    tail of the wait queue, leaves the running queue alone and announces the
    id with exactly one [emitAddEncode]. *)
Theorem push_body_enqueues_at_tail env addOption exeId s :
  let s' := (push_body env addOption exeId s).2 in
  (push_body env addOption exeId s).1 = Return (idCnt s)
  /\ store s' = store s ++ [cloneDeep addOption (idCnt s)]
  /\ waitQueue s' = waitQueue s ++ [length (store s)]
  /\ runningQueue s' = runningQueue s
  /\ addedIds (effectsOf (push_body env addOption exeId) s) = [idCnt s].
Proof.
  intros s'. subst s'. unfold effectsOf. rewrite push_body_run.
  set (s1 := set_waitQueue _ _).
  destruct (checkQueue_queues env s1) as (Ha & Hb & Hc).
  destruct (checkQueue_effects env s1) as (l1 & Hl1 & HQ1).
  set (s2 := add_effects _ (checkQueue env s1).2).
  destruct (unLockExecution_frame exeId s2) as (Hd & He & Hf).
  destruct (unLockExecution_effects exeId s2) as (l2 & Hl2 & HQ2).
  simpl. rewrite Hd, He, Hf. subst s2. simpl. rewrite Ha, Hb, Hc. subst s1. simpl.
  repeat split; try reflexivity.
  rewrite Hl2. simpl. rewrite Hl1. simpl.
  rewrite <- !app_assoc, drop_app_length, !addedIds_app.
  rewrite (addedIds_timer l1 HQ1), (addedIds_timer l2 HQ2). reflexivity.
Qed.

Lemma addQueue_waitQueue env r w : preserves (fun s => waitQueue s = w) (addQueue env r).
Proof.
  assert (Heff : forall e, preserves (fun s => waitQueue s = w) (effect e))
    by (intros e; unfold effect; pres).
  assert (Hst : forall a d, preserves (fun s => waitQueue s = w) (setTimeout a d))
    by (intros; unfold setTimeout; pres).
  pose proof (getFilePath_preserves env (fun s => waitQueue s = w)).
  unfold addQueue, deref, orThrow, getDirPath, log. pres.
Qed.

Lemma bind_modify_run {A B} f (m : M A) (g : A -> M B) s :
  ((modify f;; m) ≫= g) s = (m ≫= g) (f s).
Proof.
  unfold mbind, M_bind, bind, modify. simpl. reflexivity.
Qed.

(** X9. With the ticket, [checkQueue] promotes the head of the wait queue
    whenever [addQueue] succeeds, without looking at the number of running
    jobs again: the running queue grows by one entry for the head and the
    rest of the wait queue keeps its order.  Two checks that passed the
    guard before either promotion therefore start two jobs under a cap of
    one. *)
Theorem checkQueue_body_promotes_head env exeId s r rest s1 :
  waitQueue s = r :: rest ->
  addQueue env r (set_waitQueue rest s) = (Return tt, s1) ->
  let s' := (checkQueue_body env exeId s).2 in
  checkQueue_body env exeId s = (Return tt, (unLockExecution exeId s1).2)
  /\ waitQueue s' = rest
  /\ (exists child timer,
        runningQueue s' = runningQueue s ++ [mkRunningQueueItem child r false timer])
  /\ length (runningQueue s') = S (length (runningQueue s)).
Proof.
  intros Hw Ha s'.
  assert (E : checkQueue_body env exeId s = (Return tt, (unLockExecution exeId s1).2)).
  { unfold checkQueue_body.
    unfold mbind at 1, M_bind, bind at 1, gets at 1. rewrite Hw.
    rewrite bind_modify_run.
    unfold mbind at 1, M_bind, bind at 1. unfold try_catch.
    unfold mbind at 1, M_bind, bind at 1. rewrite Ha.
    unfold mret at 1, M_ret, ret at 1.
    unfold mbind at 1, M_bind, bind at 1.
    rewrite (total_run (unLockExecution exeId) s1 (unLockExecution_total exeId)).
    reflexivity. }
  subst s'. rewrite E. simpl.
  destruct (unLockExecution_frame exeId s1) as (_ & Hwq & Hrq).
  pose proof (addQueue_waitQueue env r rest (set_waitQueue rest s) eq_refl) as Hw1.
  rewrite Ha in Hw1. simpl in Hw1.
  destruct (addQueue_Return_inv env r _ s1 Ha)
    as (qi & rec & cmd & child & out & _ & _ & _ & Hr1 & _).
  simpl in Hr1.
  split; [reflexivity|]. split; [congruence|]. split.
  - eexists _, _. rewrite Hrq. exact Hr1.
  - rewrite Hrq, Hr1. rewrite length_app. simpl. lia.
Qed.

Lemma checkQueue_body_promotes_head_witness :
  concurrentEncodeNum env0 = 1
  /\ length (runningQueue s_second) = 1%nat
  /\ waitQueue s_second = [1%nat]
  /\ length (runningQueue (checkQueue_body env0 "t3" s_second).2) = 2%nat.
Proof.
  split; [reflexivity|]. split; [reflexivity|]. split; [reflexivity|].
  destruct (checkQueue_body_promotes_head env0 "t3" s_second 1%nat []
              (addQueue env0 1%nat (set_waitQueue [] s_second)).2)
    as (_ & _ & _ & Hlen).
  - reflexivity.
  - reflexivity.
  - exact Hlen.
Defined.

Lemma getExecution_frame env p k s :
  store (getExecution env p k s).2 = store s
  /\ waitQueue (getExecution env p k s).2 = waitQueue s
  /\ runningQueue (getExecution env p k s).2 = runningQueue s
  /\ ticks (getExecution env p k s).2 = ticks s.
Proof.
  apply (getExecution_preserves env
           (fun s' => store s' = store s /\ waitQueue s' = waitQueue s
                      /\ runningQueue s' = runningQueue s /\ ticks s' = ticks s)); framed.
  auto.
Qed.

(** The wait queue after [checkQueue] ran with the ticket. *)
Lemma checkQueue_body_waitQueue env exeId s :
  waitQueue (checkQueue_body env exeId s).2 = tail (waitQueue s).
Proof.
  assert (Hun : forall w i, preserves (fun st => waitQueue st = w) (unLockExecution i))
    by (intros w i; apply (unLockExecution_preserves (fun st => waitQueue st = w)); framed).
  assert (Hfin : forall w eid, preserves (fun st => waitQueue st = w) (finalize env eid))
    by (intros w eid; unfold finalize;
        apply (getExecution_preserves env (fun st => waitQueue st = w)); framed).
  assert (Heff : forall w e, preserves (fun st => waitQueue st = w) (effect e))
    by (intros w e; unfold effect; pres).
  pose proof (addQueue_waitQueue env) as Hadd.
  unfold checkQueue_body.
  unfold mbind at 1, M_bind, bind at 1, gets at 1.
  destruct (waitQueue s) as [|r rest] eqn:Hw.
  - simpl tail. rewrite <- Hw.
    assert (Hp : preserves (fun st => waitQueue st = waitQueue s)
                   (mret None ≫= fun needsFinalize : option Z =>
                      unLockExecution exeId;;
                      match needsFinalize with
                      | Some eid => finalize env eid
                      | None => mret tt
                      end)) by pres.
    exact (Hp s eq_refl).
  - simpl tail. rewrite bind_modify_run.
    match goal with |- waitQueue (?m _).2 = _ =>
      assert (Hp : preserves (fun st => waitQueue st = rest) m)
        by (unfold deref, log; pres) end.
    exact (Hp (set_waitQueue rest s) eq_refl).
Qed.

(** X10. With the ticket, [checkQueue] takes the head off the wait queue
    and nothing else, however the promotion ends: a job whose promotion
    fails is not put back. *)
Theorem checkQueue_body_takes_head env exeId s :
  waitQueue (checkQueue_body env exeId s).2 = tail (waitQueue s).
Proof. exact (checkQueue_body_waitQueue env exeId s). Qed.

(** X11. A promotion that throws drops the job: it is gone from the wait
    queue and not in the running queue, the two error lines are logged, an
    error event is emitted, and [checkQueue] itself returns normally. *)
Theorem checkQueue_body_drops_failed_job env exeId s r rest e s1 item :
  waitQueue s = r :: rest ->
  addQueue env r (set_waitQueue rest s) = (Throw e, s1) ->
  store s1 !! r = Some item ->
  let s' := (checkQueue_body env exeId s).2 in
  (checkQueue_body env exeId s).1 = Return tt
  /\ waitQueue s' = rest
  /\ runningQueue s' = runningQueue s
  /\ exists before gate,
       Forall isTimerEffect gate
       /\ effectsOf (checkQueue_body env exeId) s =
          before ++ [Log ErrorLevel (CreateEncodeProcessError (encodeId item));
                     Log ErrorLevel (ErrorObject e);
                     EmitErrorEncode] ++ gate.
Proof.
  intros Hw Ha Hst s'. subst s'.
  pose proof (checkQueue_body_waitQueue env exeId s) as Htl. rewrite Hw in Htl.
  pose proof (checkQueue_body_failure env exeId s r rest e s1 item Hw Ha Hst) as E.
  pose proof (addQueue_throw_runningQueue env r (runningQueue s) (set_waitQueue rest s) eq_refl)
    as Hrq1.
  rewrite Ha in Hrq1. simpl in Hrq1.
  assert (Hx1 : extends_by (fun _ => True) (trace s) s1).
  { pose proof (addQueue_preserves env (extends_by (fun _ => True) (trace s))) as Hp.
    specialize (Hp ltac:(intros ? ? H; exact H) ltac:(intros ? ? H; exact H)
                   ltac:(intros ? H; exact H) ltac:(intros ? ? H; exact H)
                   ltac:(intros ? ? H; exact H) ltac:(intros ? ? H; exact H)
                   ltac:(intros ? ? H; exact H)
                   ltac:(intros; apply extends_by_effect; simpl; auto)
                   ltac:(intros ? ? H; exact H) ltac:(intros ? ? H; exact H)
                   ltac:(intros ? ? H; exact H) ltac:(intros ? ? H; exact H)
                   r (set_waitQueue rest s) (extends_by_refl _ s)).
    rewrite Ha in Hp. exact Hp. }
  destruct Hx1 as (before & Hb & _).
  set (errs := [Log ErrorLevel (CreateEncodeProcessError (encodeId item));
                Log ErrorLevel (ErrorObject e); EmitErrorEncode]) in *.
  destruct (unLockExecution_effects exeId (add_effects errs s1)) as (g1 & Hg1 & HQ1).
  destruct (unLockExecution_frame exeId (add_effects errs s1)) as (_ & _ & Hr2).
  set (s2 := (unLockExecution exeId (add_effects errs s1)).2) in *.
  destruct (getExecution_effects env CLEAR_QUEUE_PRIPORITY (KFinalize (encodeId item)) s2)
    as (g2 & Hg2 & HQ2).
  destruct (getExecution_frame env CLEAR_QUEUE_PRIPORITY (KFinalize (encodeId item)) s2)
    as (_ & _ & Hr3 & _).
  split.
  { rewrite E. exact (total_unit (finalize env (encodeId item)) s2 (getExecution_total env _ _)). }
  split; [exact Htl|]. split.
  { rewrite E. unfold finalize. rewrite Hr3. subst s2. rewrite Hr2. simpl. exact Hrq1. }
  exists before, (g1 ++ g2). split; [apply Forall_app; auto|].
  unfold effectsOf. rewrite E. unfold finalize. rewrite Hg2. subst s2. rewrite Hg1.
  simpl. rewrite Hb. rewrite <- !app_assoc. rewrite drop_app_length. reflexivity.
Qed.

Lemma checkQueue_body_drops_failed_job_witness :
  waitQueue s_wait = [0%nat]
  /\ waitQueue (checkQueue_body env_novideo "t1" s_wait).2 = []
  /\ runningQueue (checkQueue_body env_novideo "t1" s_wait).2 = [].
Proof.
  split; [reflexivity|].
  destruct (checkQueue_body_drops_failed_job env_novideo "t1" s_wait 0%nat []
              (Error "VideoFileIdIsNotFound") (set_waitQueue [] s_wait) (cloneDeep optA 1))
    as (_ & Hw & Hr & _).
  - reflexivity.
  - reflexivity.
  - reflexivity.
  - split; [exact Hw | exact Hr].
Defined.

(** ** cancel and finalize with the ticket *)

Lemma cancel_body_waiting_run env eid exeId s :
  getRunnginQueueItem eid s = None ->
  cancel_body env eid exeId s =
  unLockExecution exeId
    (set_ticks (S (ticks s))
       (set_waitQueue
          (List.filter (fun q => negb (fieldIs (store s) encodeId eid q)) (waitQueue s))
          (add_effects [Log Info (CancelEncode eid)] s))).
Proof.
  intros Hget. unfold cancel_body, log.
  unfold mbind at 1, M_bind, bind at 1.
  unfold mbind at 1, M_bind, bind at 1. rewrite effect_run.
  unfold mbind at 1, M_bind, bind at 1, gets at 1.
  change (getRunnginQueueItem eid (add_effects [Log Info (CancelEncode eid)] s))
    with (getRunnginQueueItem eid s).
  rewrite Hget. reflexivity.
Qed.

(** What [cancel] does when no running entry has the id. *)
Lemma cancel_body_waiting_facts env eid exeId s :
  getRunnginQueueItem eid s = None ->
  let s' := (cancel_body env eid exeId s).2 in
  (cancel_body env eid exeId s).1 = Return tt
  /\ waitQueue s'
     = List.filter (fun q => negb (fieldIs (store s) encodeId eid q)) (waitQueue s)
  /\ runningQueue s' = runningQueue s
  /\ store s' = store s
  /\ ticks s' = S (ticks s)
  /\ exists gate, Forall isTimerEffect gate
       /\ effectsOf (cancel_body env eid exeId) s = Log Info (CancelEncode eid) :: gate.
Proof.
  intros Hget s'. subst s'. unfold effectsOf.
  rewrite (cancel_body_waiting_run env eid exeId s Hget).
  match goal with |- context [unLockExecution exeId ?s0] => set (s1 := s0) end.
  destruct (unLockExecution_frame exeId s1) as (Hst & Hw & Hr).
  destruct (unLockExecution_queues exeId s1) as (_ & Htk).
  destruct (unLockExecution_effects exeId s1) as (gate & Hg & HQ).
  split; [apply total_unit, unLockExecution_total|].
  rewrite Hw, Hr, Hst, Htk. subst s1. simpl.
  repeat split; try reflexivity.
  exists gate. split; [exact HQ|].
  rewrite Hg. simpl. rewrite <- app_assoc, drop_app_length. reflexivity.
Qed.

(** X12. [cancel] of an id that no running entry has takes every entry
    with that id out of the wait queue and keeps the others in their order;
    it sends no kill, leaves the running queue alone, schedules a check of
    the queue on the next tick and returns normally. *)
Theorem cancel_body_removes_waiting env eid exeId s :
  getRunnginQueueItem eid s = None ->
  let s' := (cancel_body env eid exeId s).2 in
  (cancel_body env eid exeId s).1 = Return tt
  /\ waitQueue s'
     = List.filter (fun q => negb (fieldIs (store s) encodeId eid q)) (waitQueue s)
  /\ runningQueue s' = runningQueue s
  /\ store s' = store s
  /\ ticks s' = S (ticks s)
  /\ exists gate, Forall isTimerEffect gate
       /\ effectsOf (cancel_body env eid exeId) s = Log Info (CancelEncode eid) :: gate.
Proof. exact (cancel_body_waiting_facts env eid exeId s). Qed.

Lemma cancel_body_removes_waiting_witness :
  waitQueue s_queued = [1%nat]
  /\ getRunnginQueueItem 2 s_queued = None
  /\ waitQueue (cancel_body env0 2 "t9" s_queued).2 = []
  /\ runningQueue (cancel_body env0 2 "t9" s_queued).2 = runningQueue s_queued.
Proof.
  split; [reflexivity|]. split; [reflexivity|].
  destruct (cancel_body_removes_waiting env0 2 "t9" s_queued) as (_ & Hw & Hr & _).
  - reflexivity.
  - split; [rewrite Hw; reflexivity | exact Hr].
Defined.

(** X13. [cancel] of an id that neither queue has is a no-op on the
    queues: both stay as they are, no kill is sent and nothing is thrown;
    only a check of the queue is scheduled. *)
Theorem cancel_body_unknown_id env eid exeId s :
  getRunnginQueueItem eid s = None ->
  List.find (fun q => fieldIs (store s) encodeId eid q) (waitQueue s) = None ->
  let s' := (cancel_body env eid exeId s).2 in
  (cancel_body env eid exeId s).1 = Return tt
  /\ waitQueue s' = waitQueue s
  /\ runningQueue s' = runningQueue s
  /\ Forall (fun e => match e with Kill _ => False | _ => True end)
       (effectsOf (cancel_body env eid exeId) s).
Proof.
  intros Hget Hw s'. subst s'.
  destruct (cancel_body_waiting_facts env eid exeId s Hget)
    as (H1 & H2 & H3 & _ & _ & gate & HQ & He).
  split; [exact H1|]. split; [rewrite H2; apply find_none_filter, Hw|].
  split; [exact H3|]. rewrite He. constructor; [exact I|].
  eapply Forall_impl; [exact HQ|]. intros []; simpl; tauto.
Qed.

Lemma cancel_body_unknown_id_witness :
  waitQueue (cancel_body env0 9 "t9" s_queued).2 = waitQueue s_queued
  /\ runningQueue (cancel_body env0 9 "t9" s_queued).2 = runningQueue s_queued.
Proof.
  destruct (cancel_body_unknown_id env0 9 "t9" s_queued) as (_ & Hw & Hr & _).
  - reflexivity.
  - reflexivity.
  - split; [exact Hw | exact Hr].
Defined.

Lemma find_markCanceld st eid rq q :
  List.find (fun q => fieldIs st encodeId eid (encodeProgram q)) rq = Some q ->
  List.find (fun q => fieldIs st encodeId eid (encodeProgram q)) (markCanceld st eid rq)
  = Some (canceld q)
  /\ length (markCanceld st eid rq) = length rq
  /\ map encodeProgram (markCanceld st eid rq) = map encodeProgram rq.
Proof.
  induction rq as [|x rq IH]; simpl; [discriminate|].
  destruct (fieldIs st encodeId eid (encodeProgram x)) eqn:E; simpl.
  - intros H. inversion H; subst. rewrite E. auto.
  - intros H. rewrite E. destruct (IH H) as (H1 & H2 & H3).
    rewrite H1, H2, H3. auto.
Qed.

(** [cancel] of a running job, step by step. *)
Lemma cancel_body_running_run env eid exeId s q :
  getRunnginQueueItem eid s = Some q ->
  cancel_body env eid exeId s =
  unLockExecution exeId
    (add_effects ([Log Info (CancelEncode eid); Kill (process q)]
                  ++ match kill env (process q) with
                     | inl err => [Log ErrorLevel (KillEncodeProcessFailed eid);
                                   Log ErrorLevel (ErrorObject err)]
                     | inr _ => []
                     end)
       (set_runningQueue (markCanceld (store s) eid (runningQueue s)) s)).
Proof.
  intros Hget. unfold cancel_body, log.
  unfold mbind at 1, M_bind, bind at 1.
  unfold mbind at 1, M_bind, bind at 1. rewrite effect_run.
  unfold mbind at 1, M_bind, bind at 1, gets at 1.
  change (getRunnginQueueItem eid (add_effects [Log Info (CancelEncode eid)] s))
    with (getRunnginQueueItem eid s).
  rewrite Hget.
  unfold mbind at 1, M_bind, bind at 1, modify at 1.
  unfold mbind at 1, M_bind, bind at 1. rewrite effect_run.
  destruct (kill env (process q)) as [err|[]].
  - unfold mbind at 1, M_bind, bind at 1. rewrite effect_run. rewrite effect_run.
    f_equal. unfold add_effects, set_runningQueue, set_trace; simpl.
    rewrite <- !app_assoc. reflexivity.
  - unfold mret at 1, M_ret, ret at 1.
    f_equal. unfold add_effects, set_runningQueue, set_trace; simpl.
    rewrite <- !app_assoc. reflexivity.
Qed.

(** X14. [cancel] of a running job marks its entry as cancelled and sends
    one kill to its process; the entry stays in the running queue, the wait
    queue is not touched and no check of the queue is scheduled.  A kill
    that fails is logged and [cancel] still returns normally. *)
Theorem cancel_body_marks_and_kills env eid exeId s q :
  getRunnginQueueItem eid s = Some q ->
  let s' := (cancel_body env eid exeId s).2 in
  (cancel_body env eid exeId s).1 = Return tt
  /\ getRunnginQueueItem eid s' = Some (canceld q)
  /\ map encodeProgram (runningQueue s') = map encodeProgram (runningQueue s)
  /\ waitQueue s' = waitQueue s
  /\ ticks s' = ticks s
  /\ exists gate, Forall isTimerEffect gate
       /\ effectsOf (cancel_body env eid exeId) s =
          [Log Info (CancelEncode eid); Kill (process q)]
          ++ match kill env (process q) with
             | inl err => [Log ErrorLevel (KillEncodeProcessFailed eid);
                           Log ErrorLevel (ErrorObject err)]
             | inr _ => []
             end
          ++ gate.
Proof.
  intros Hget s'. subst s'.
  set (errs := match kill env (process q) with
               | inl err => [Log ErrorLevel (KillEncodeProcessFailed eid);
                             Log ErrorLevel (ErrorObject err)]
               | inr _ => []
               end).
  pose proof (cancel_body_running_run env eid exeId s q Hget) as E. fold errs in E.
  unfold effectsOf. rewrite E.
  match goal with |- context [unLockExecution exeId ?s0] => set (s1 := s0) end.
  destruct (unLockExecution_frame exeId s1) as (Hst & Hw & Hr).
  destruct (unLockExecution_queues exeId s1) as (_ & Htk).
  destruct (unLockExecution_effects exeId s1) as (gate & Hg & HQ).
  destruct (find_markCanceld (store s) eid (runningQueue s) q Hget) as (Hf & _ & Hm).
  split; [apply total_unit, unLockExecution_total|].
  split; [unfold getRunnginQueueItem; rewrite Hst, Hr; subst s1; exact Hf|].
  split; [rewrite Hr; subst s1; exact Hm|].
  split; [rewrite Hw; reflexivity|]. split; [rewrite Htk; reflexivity|].
  exists gate. split; [exact HQ|].
  rewrite Hg. subst s1. simpl. rewrite <- !app_assoc, drop_app_length. reflexivity.
Qed.

Lemma cancel_body_marks_and_kills_witness :
  (isCanceld <$> getRunnginQueueItem 1 s_running) = Some false
  /\ (cancel_body env_nokill 1 "t9" s_running).1 = Return tt
  /\ (isCanceld <$> getRunnginQueueItem 1 (cancel_body env_nokill 1 "t9" s_running).2)
     = Some true.
Proof.
  split; [reflexivity|].
  destruct (cancel_body_marks_and_kills env_nokill 1 "t9" s_running
              (mkRunningQueueItem (mkChildProcess 100 true) 0%nat false
                 (mkTimer 2 (120 # 1)%Q (EncodeTimeout 0%nat (Some "/enc/a.mp4")))))
    as (H1 & H2 & _).
  - reflexivity.
  - split; [exact H1|]. rewrite H2. reflexivity.
Defined.

Lemma find_filter_negb {A} (f : A -> bool) l :
  List.find f (List.filter (fun x => negb (f x)) l) = None.
Proof.
  induction l as [|x l IH]; simpl; [reflexivity|].
  destruct (f x) eqn:E; simpl; [exact IH|]. rewrite E. exact IH.
Qed.

(** X15. [finalize] of an id that a running entry has clears the timer of
    the entry that the lookup finds, takes every entry with that id out of
    the running queue and keeps the others in their order; afterwards the
    lookup of the id finds nothing, the wait queue is as before and a check
    of the queue is scheduled on the next tick. *)
Theorem finalize_body_removes_entry eid exeId s q :
  getRunnginQueueItem eid s = Some q ->
  let s' := (finalize_body eid exeId s).2 in
  (finalize_body eid exeId s).1 = Return tt
  /\ runningQueue s'
     = List.filter (fun x => negb (fieldIs (store s) encodeId eid (encodeProgram x)))
         (runningQueue s)
  /\ getRunnginQueueItem eid s' = None
  /\ waitQueue s' = waitQueue s
  /\ ticks s' = S (ticks s)
  /\ exists gate, Forall isTimerEffect gate
       /\ effectsOf (finalize_body eid exeId) s = ClearTimeout (timerId q) :: gate.
Proof.
  intros Hget s'. subst s'.
  assert (E : finalize_body eid exeId s =
              (unLockExecution exeId;; nextTick_emitNeedsCheckQueue)
                (set_runningQueue
                   (List.filter (fun x => negb (fieldIs (store s) encodeId eid (encodeProgram x)))
                      (runningQueue s))
                   (add_effects [ClearTimeout (timerId q)] s))).
  { unfold finalize_body.
    unfold mbind at 1, M_bind, bind at 1, gets at 1. rewrite Hget.
    unfold mbind at 1, M_bind, bind at 1. unfold clearTimeout. rewrite effect_run.
    unfold mbind at 1, M_bind, bind at 1, modify at 1. reflexivity. }
  unfold effectsOf. rewrite E.
  match goal with |- context [(_ ;; _) ?s0] => set (s1 := s0) end.
  unfold mbind, M_bind, bind.
  rewrite (total_run (unLockExecution exeId) s1 (unLockExecution_total exeId)).
  destruct (unLockExecution_frame exeId s1) as (Hst & Hw & Hr).
  destruct (unLockExecution_queues exeId s1) as (_ & Htk).
  destruct (unLockExecution_effects exeId s1) as (gate & Hg & HQ).
  unfold nextTick_emitNeedsCheckQueue, modify. simpl.
  split; [reflexivity|]. split; [rewrite Hr; reflexivity|].
  split.
  { unfold getRunnginQueueItem. simpl. rewrite Hst, Hr. subst s1. simpl.
    apply (find_filter_negb (fun x => fieldIs (store s) encodeId eid (encodeProgram x))). }
  split; [rewrite Hw; reflexivity|]. split; [rewrite Htk; reflexivity|].
  exists gate. split; [exact HQ|].
  rewrite Hg. subst s1. simpl. rewrite <- app_assoc, drop_app_length. reflexivity.
Qed.

Lemma finalize_body_removes_entry_witness :
  length (runningQueue s_running) = 1%nat
  /\ runningQueue (finalize_body 1 "t9" s_running).2 = []
  /\ getRunnginQueueItem 1 (finalize_body 1 "t9" s_running).2 = None.
Proof.
  split; [reflexivity|].
  destruct (finalize_body_removes_entry 1 "t9" s_running
              (mkRunningQueueItem (mkChildProcess 100 true) 0%nat false
                 (mkTimer 2 (120 # 1)%Q (EncodeTimeout 0%nat (Some "/enc/a.mp4")))))
    as (_ & Hr & Hg & _).
  - reflexivity.
  - split; [rewrite Hr; reflexivity | exact Hg].
Defined.

(** ** The exit handler, all branches *)

(** The process failed: exit code other than 0, entry there, not
    cancelled. *)
Lemma exitHandler_failed env r out code signal s item q :
  store s !! r = Some item ->
  getRunnginQueueItem (encodeId item) s = Some q ->
  isCanceld q = false ->
  code <> Some 0 ->
  exitHandler env r out code signal s =
  finalize env (encodeId item)
    (add_effects ([Log Info (ExitCode code signal);
                   Log ErrorLevel (EncodeFailed (encodeId item) out)]
                  ++ cleanupEffects env out ++ [EmitErrorEncode]) s).
Proof.
  intros Hst Hget Hc Hcode. unfold exitHandler.
  unfold mbind at 1, M_bind, bind at 1. rewrite (deref_run r s item Hst).
  unfold log.
  unfold mbind at 1, M_bind, bind at 1. rewrite effect_run.
  unfold mbind at 1, M_bind, bind at 1, gets at 1.
  change (getRunnginQueueItem (encodeId item) (add_effects [Log Info (ExitCode code signal)] s))
    with (getRunnginQueueItem (encodeId item) s).
  rewrite Hget, Hc. rewrite bool_decide_eq_false_2 by exact Hcode. simpl negb. cbv iota.
  unfold mbind at 1, M_bind, bind at 1.
  unfold mbind at 1, M_bind, bind at 1. rewrite effect_run.
  unfold mret at 1, M_ret, ret at 1.
  unfold mbind at 1, M_bind, bind at 1.
  unfold mbind at 1, M_bind, bind at 1. rewrite deleteOutputFile_run.
  rewrite effect_run. rewrite !add_effects_app. reflexivity.
Qed.

Lemma emitted_app l1 l2 : emitted (l1 ++ l2) = emitted l1 ++ emitted l2.
Proof. apply List.filter_app. Qed.

Lemma emitted_timer l : Forall isTimerEffect l -> emitted l = [].
Proof.
  induction 1 as [|e l He Hl IH]; [reflexivity|].
  destruct e; simpl in *; try contradiction; exact IH.
Qed.

Lemma emitted_cleanup env out : emitted (cleanupEffects env out) = [].
Proof.
  unfold cleanupEffects. destruct out as [p|]; [|reflexivity].
  destruct (unlink env p); reflexivity.
Qed.

Lemma effectsOf_finalize_from env eid l s s1 (m : M unit) :
  trace s1 = trace s ->
  m s = finalize env eid (add_effects l s1) ->
  exists gate, Forall isTimerEffect gate /\ effectsOf m s = l ++ gate.
Proof.
  intros Ht Hm. unfold effectsOf. rewrite Hm.
  destruct (getExecution_effects env CLEAR_QUEUE_PRIPORITY (KFinalize eid) (add_effects l s1))
    as (gate & Hg & HQ).
  exists gate. split; [exact HQ|].
  unfold finalize. rewrite Hg. simpl. rewrite Ht.
  rewrite <- app_assoc, drop_app_length. reflexivity.
Qed.

(** The lifecycle event of an exit, by the state of the entry. *)
Lemma exitHandler_emitted env r out code signal s item :
  store s !! r = Some item ->
  emitted (effectsOf (exitHandler env r out code signal) s) =
  match getRunnginQueueItem (encodeId item) s with
  | Some q =>
      if isCanceld q then [EmitErrorEncode]
      else if bool_decide (code = Some 0)
           then [EmitFinishEncode
                   (finishInfo env item out
                      (removeOriginal item
                       && negb (hasSamVideoFileIdItem (sourceVideoFileId item) s)))]
           else [EmitErrorEncode]
  | None => [EmitErrorEncode]
  end.
Proof.
  intros Hst.
  destruct (getRunnginQueueItem (encodeId item) s) as [q|] eqn:Hget.
  - destruct (isCanceld q) eqn:Hc.
    + destruct (effectsOf_finalize_from env _ _ s s _ eq_refl
                  (exitHandler_canceld env r out code signal s item q Hst Hget Hc))
        as (gate & HQ & He).
      rewrite He, !emitted_app, emitted_cleanup, (emitted_timer gate HQ). reflexivity.
    + destruct (bool_decide (code = Some 0)) eqn:Hcode.
      * apply bool_decide_eq_true_1 in Hcode. subst code.
        pose proof (exitHandler_success env r out signal s item q Hst Hget Hc) as E.
        match type of E with _ = finalize _ _ (add_effects _ ?s1) =>
          assert (Ht : trace s1 = trace s)
            by (destruct (removeOriginal item && hasSamVideoFileIdItem _ s); reflexivity);
          destruct (effectsOf_finalize_from env _ _ s s1 _ Ht E) as (gate & HQ & He) end.
        rewrite He, emitted_app, (emitted_timer gate HQ). reflexivity.
      * apply bool_decide_eq_false_1 in Hcode.
        destruct (effectsOf_finalize_from env _ _ s s _ eq_refl
                    (exitHandler_failed env r out code signal s item q Hst Hget Hc Hcode))
          as (gate & HQ & He).
        rewrite He, !emitted_app, emitted_cleanup, (emitted_timer gate HQ). reflexivity.
  - destruct (effectsOf_finalize_from env _ _ s s _ eq_refl
                (exitHandler_absent env r out code signal s item Hst Hget))
      as (gate & HQ & He).
    rewrite He, !emitted_app, emitted_cleanup, (emitted_timer gate HQ). reflexivity.
Qed.

(** X16. The exit handler emits exactly one lifecycle event: a finish
    event when the entry of the job is found, is not cancelled and the exit
    code is 0, and an error event in every other case (entry gone,
    cancelled, exit code not 0 or none).  In every case it returns
    normally. *)
Theorem exit_emits_exactly_one_event env r out code signal s item :
  store s !! r = Some item ->
  (exitHandler env r out code signal s).1 = Return tt
  /\ emitted (effectsOf (exitHandler env r out code signal) s) =
     match getRunnginQueueItem (encodeId item) s with
     | Some q =>
         if isCanceld q then [EmitErrorEncode]
         else if bool_decide (code = Some 0)
              then [EmitFinishEncode
                      (finishInfo env item out
                         (removeOriginal item
                          && negb (hasSamVideoFileIdItem (sourceVideoFileId item) s)))]
              else [EmitErrorEncode]
     | None => [EmitErrorEncode]
     end.
Proof.
  intros Hst. split; [|exact (exitHandler_emitted env r out code signal s item Hst)].
  assert (Hfin : forall s1, (finalize env (encodeId item) s1).1 = Return tt)
    by (intros s1; exact (total_unit (finalize env (encodeId item)) s1
                            (getExecution_total env _ _))).
  destruct (getRunnginQueueItem (encodeId item) s) as [q|] eqn:Hget.
  - destruct (isCanceld q) eqn:Hc.
    + rewrite (exitHandler_canceld env r out code signal s item q Hst Hget Hc). apply Hfin.
    + destruct (decide (code = Some 0)) as [->|Hcode].
      * rewrite (exitHandler_success env r out signal s item q Hst Hget Hc). apply Hfin.
      * rewrite (exitHandler_failed env r out code signal s item q Hst Hget Hc Hcode).
        apply Hfin.
  - rewrite (exitHandler_absent env r out code signal s item Hst Hget). apply Hfin.
Qed.

Lemma exit_emits_exactly_one_event_witness :
  emitted (effectsOf (exitHandler env0 0%nat (Some "/enc/a.mp4") (Some 1) None) s_running)
  = [EmitErrorEncode].
Proof.
  destruct (exit_emits_exactly_one_event env0 0%nat (Some "/enc/a.mp4") (Some 1) None
              s_running (cloneDeep optA 1)) as (_ & He).
  - reflexivity.
  - rewrite He. reflexivity.
Defined.

(** X17. A job that was cancelled while it ran never reports success:
    whatever the exit code of its process, the exit handler that runs after
    [cancel] emits an error event and no finish event. *)
Theorem canceld_job_never_reports_success env r out code signal exeId s item q :
  store s !! r = Some item ->
  getRunnginQueueItem (encodeId item) s = Some q ->
  emitted (effectsOf (exitHandler env r out code signal)
             (cancel_body env (encodeId item) exeId s).2)
  = [EmitErrorEncode].
Proof.
  intros Hst Hget.
  assert (Hst' : store (cancel_body env (encodeId item) exeId s).2 !! r = Some item).
  { assert (Hp : preserves (fun st => store st = store s) (cancel_body env (encodeId item) exeId)).
    { assert (Hun : forall i, preserves (fun st => store st = store s) (unLockExecution i))
        by (intros i; apply (unLockExecution_preserves (fun st => store st = store s)); framed).
      assert (Heff : forall e, preserves (fun st => store st = store s) (effect e))
        by (intros e; unfold effect; pres).
      unfold cancel_body, nextTick_emitNeedsCheckQueue, log. pres. }
    rewrite (Hp s eq_refl). exact Hst. }
  assert (Hget' : getRunnginQueueItem (encodeId item)
                    (cancel_body env (encodeId item) exeId s).2 = Some (canceld q)).
  { rewrite (cancel_body_running_run env (encodeId item) exeId s q Hget).
    match goal with |- context [unLockExecution exeId ?s0] =>
      destruct (unLockExecution_frame exeId s0) as (Hs1 & _ & Hr1) end.
    unfold getRunnginQueueItem. rewrite Hs1, Hr1. simpl.
    apply (find_markCanceld (store s) (encodeId item) (runningQueue s) q Hget). }
  rewrite (exitHandler_emitted env r out code signal _ item Hst'), Hget'. reflexivity.
Qed.

Lemma canceld_job_never_reports_success_witness :
  emitted (effectsOf (exitHandler env0 0%nat (Some "/enc/a.mp4") (Some 0) None)
             (cancel_body env0 1 "t9" s_running).2)
  = [EmitErrorEncode].
Proof.
  apply (canceld_job_never_reports_success env0 0%nat (Some "/enc/a.mp4") (Some 0) None "t9"
           s_running (cloneDeep optA 1)
           (mkRunningQueueItem (mkChildProcess 100 true) 0%nat false
              (mkTimer 2 (120 # 1)%Q (EncodeTimeout 0%nat (Some "/enc/a.mp4"))))).
  - reflexivity.
  - reflexivity.
Defined.

(** ** The name of the output file *)

Lemma getFilePath_loop_sound env n dir base sfx c s p s' :
  getFilePath_loop env n dir base sfx c s = (Return p, s') ->
  s' = s
  /\ exists k, (k < n)%nat
       /\ p = candidate env dir base sfx (c + Z.of_nat k)
       /\ (exists err, stat env p = inl err)
       /\ forall j, (j < k)%nat ->
            stat env (candidate env dir base sfx (c + Z.of_nat j)) = inr tt.
Proof.
  revert c. induction n as [|n IH]; intros c; simpl; [discriminate|].
  fold (candidate env dir base sfx c).
  destruct (stat env (candidate env dir base sfx c)) as [err|[]] eqn:Est.
  - intros H. inversion H; subst. split; [reflexivity|].
    exists O. rewrite Z.add_0_r. split; [lia|]. split; [reflexivity|].
    split; [eauto|]. intros j Hj. lia.
  - intros H. destruct (IH _ H) as (-> & k & Hk & Hp & Herr & Hbelow).
    split; [reflexivity|]. exists (S k). split; [lia|].
    replace (c + Z.of_nat (S k)) with (c + 1 + Z.of_nat k) by lia.
    split; [exact Hp|]. split; [exact Herr|].
    intros [|j] Hj.
    + rewrite Z.add_0_r. exact Est.
    + replace (c + Z.of_nat (S j)) with (c + 1 + Z.of_nat j) by lia.
      apply Hbelow. lia.
Qed.

Lemma getFilePath_loop_complete env n dir base sfx c s k err :
  (k < n)%nat ->
  stat env (candidate env dir base sfx (c + Z.of_nat k)) = inl err ->
  (forall j, (j < k)%nat ->
     stat env (candidate env dir base sfx (c + Z.of_nat j)) = inr tt) ->
  getFilePath_loop env n dir base sfx c s
  = (Return (candidate env dir base sfx (c + Z.of_nat k)), s).
Proof.
  revert c k. induction n as [|n IH]; intros c k Hk Hfree Hbelow; [lia|].
  simpl. fold (candidate env dir base sfx c).
  destruct k as [|k].
  - rewrite Z.add_0_r in Hfree |- *. rewrite Hfree. reflexivity.
  - pose proof (Hbelow O ltac:(lia)) as H0. rewrite Z.add_0_r in H0. rewrite H0.
    replace (c + Z.of_nat (S k)) with (c + 1 + Z.of_nat k) in Hfree |- * by lia.
    apply IH; [lia | exact Hfree |].
    intros j Hj. replace (c + 1 + Z.of_nat j) with (c + Z.of_nat (S j)) by lia.
    apply Hbelow. lia.
Qed.

Lemma getFilePath_loop_no_throw env n dir base sfx c s e :
  (getFilePath_loop env n dir base sfx c s).1 <> Throw e.
Proof.
  revert c. induction n as [|n IH]; intros c; simpl; [discriminate|].
  destruct (stat env _); [discriminate | apply IH].
Qed.

(** X18. [getFilePath] returns the first name that does not exist in the
    series base+suffix, base(1)+suffix, base(2)+suffix, ... in the output
    directory, where base is the input file name without its extension: the
    name it returns fails [stat] and every earlier name of the series
    passes it; and when the series has a free name within the bound of the
    model, that name is returned.  It changes no field and never throws. *)
Theorem getFilePath_first_free_name env dir inputFilePath sfx s :
  let base := basename_ext env inputFilePath (extname env inputFilePath) in
  (forall p s',
     getFilePath env dir inputFilePath sfx s = (Return p, s') ->
     s' = s
     /\ exists k,
          p = candidate env dir base sfx (Z.of_nat k)
          /\ (exists err, stat env p = inl err)
          /\ forall j, (j < k)%nat ->
               stat env (candidate env dir base sfx (Z.of_nat j)) = inr tt)
  /\ (forall k err,
        (k < loopBound env)%nat ->
        stat env (candidate env dir base sfx (Z.of_nat k)) = inl err ->
        (forall j, (j < k)%nat ->
           stat env (candidate env dir base sfx (Z.of_nat j)) = inr tt) ->
        getFilePath env dir inputFilePath sfx s
        = (Return (candidate env dir base sfx (Z.of_nat k)), s))
  /\ (forall e, (getFilePath env dir inputFilePath sfx s).1 <> Throw e).
Proof.
  intros base. unfold getFilePath. fold base. split; [|split].
  - intros p s' H.
    destruct (getFilePath_loop_sound env _ dir base sfx 0 s p s' H)
      as (-> & k & _ & Hp & Herr & Hbelow).
    split; [reflexivity|]. exists k. rewrite Z.add_0_l in Hp.
    split; [exact Hp|]. split; [exact Herr|].
    intros j Hj. specialize (Hbelow j Hj). rewrite Z.add_0_l in Hbelow. exact Hbelow.
  - intros k err Hk Hfree Hbelow.
    pose proof (getFilePath_loop_complete env (loopBound env) dir base sfx 0 s k err Hk) as H.
    rewrite Z.add_0_l in H. apply H; [exact Hfree|].
    intros j Hj. rewrite Z.add_0_l. apply Hbelow, Hj.
  - intros e. apply getFilePath_loop_no_throw.
Qed.

Lemma getFilePath_first_free_name_witness :
  getFilePath env_taken "/enc" "/rec/a.ts" ".mp4" init = (Return "/enc/a(2).mp4", init).
Proof.
  destruct (getFilePath_first_free_name env_taken "/enc" "/rec/a.ts" ".mp4" init)
    as (_ & H & _).
  apply (H 2%nat (Error "ENOENT")).
  - vm_compute. lia.
  - reflexivity.
  - intros [|[|j]] Hj; [reflexivity | reflexivity | lia].
Defined.

(** ** Promotions that fail *)

Ltac bind1 := unfold mbind at 1, M_bind, bind at 1.

(** X19. [addQueue] looks up the video file row, the recorded row, the
    path of the input, the input file and the encoder profile, in this
    order, and the first lookup that finds nothing decides the error:
    [VideoFileIdIsNotFound], [RecordedIsNotFound], [VideoPathIsNotFound],
    the error of [stat] (after an error line in the log), or
    [EncodeCommandIsNotFound].  Up to there no field has changed. *)
Theorem addQueue_lookup_errors env r s item :
  store s !! r = Some item ->
  (videoFileDB_findId env (sourceVideoFileId item) = inr None ->
   addQueue env r s = (Throw (Error "VideoFileIdIsNotFound"), s))
  /\ (forall v,
        videoFileDB_findId env (sourceVideoFileId item) = inr (Some v) ->
        (recordedDB_findId env (recordedId item) = inr None ->
         addQueue env r s = (Throw (Error "RecordedIsNotFound"), s))
        /\ (forall rec,
              recordedDB_findId env (recordedId item) = inr (Some rec) ->
              (getFullFilePath env (sourceVideoFileId item) = inr None ->
               addQueue env r s = (Throw (Error "VideoPathIsNotFound"), s))
              /\ (forall path,
                    getFullFilePath env (sourceVideoFileId item) = inr (Some path) ->
                    (forall err,
                       stat env path = inl err ->
                       addQueue env r s
                       = (Throw err,
                          add_effects [Log ErrorLevel (VideoFileIsNotFound path)] s))
                    /\ (stat env path = inr tt ->
                        List.find (fun enc => String.eqb (name enc) (mode item)) (encode env)
                        = None ->
                        addQueue env r s
                        = (Throw (Error "EncodeCommandIsNotFound"), s))))).
Proof.
  intros Hst. split.
  { intros Hv. unfold addQueue. bind1. rewrite (deref_run r s item Hst).
    bind1. rewrite Hv. simpl. reflexivity. }
  intros v Hv. split.
  { intros Hr. unfold addQueue. bind1. rewrite (deref_run r s item Hst).
    bind1. rewrite Hv. simpl. bind1. simpl. bind1. rewrite Hr. simpl. reflexivity. }
  intros rec Hr. split.
  { intros Hp. unfold addQueue. bind1. rewrite (deref_run r s item Hst).
    bind1. rewrite Hv. simpl. bind1. simpl. bind1. rewrite Hr. simpl. bind1. simpl.
    bind1. rewrite Hp. simpl. reflexivity. }
  intros path Hp. split.
  { intros err Hs. unfold addQueue. bind1. rewrite (deref_run r s item Hst).
    bind1. rewrite Hv. simpl. bind1. simpl. bind1. rewrite Hr. simpl. bind1. simpl.
    bind1. rewrite Hp. simpl. bind1. simpl. bind1. unfold try_catch. rewrite Hs. simpl.
    reflexivity. }
  intros Hs Hf. unfold addQueue. bind1. rewrite (deref_run r s item Hst).
  bind1. rewrite Hv. simpl. bind1. simpl. bind1. rewrite Hr. simpl. bind1. simpl.
  bind1. rewrite Hp. simpl. bind1. simpl. bind1. unfold try_catch. rewrite Hs. simpl.
  bind1. rewrite Hf. simpl. reflexivity.
Qed.

Lemma addQueue_lookup_errors_witness :
  addQueue env_novideo 0%nat s_wait = (Throw (Error "VideoFileIdIsNotFound"), s_wait).
Proof.
  destruct (addQueue_lookup_errors env_novideo 0%nat s_wait (cloneDeep optA 1)) as (H & _).
  - reflexivity.
  - apply H. reflexivity.
Defined.

Lemma addQueue_on_throw_installs env r t0 :
  on_throw (extends_by (fun e => ~ installs e) t0) (addQueue env r).
Proof.
  set (P := extends_by (fun e => ~ installs e) t0).
  assert (Hlog : forall l m, preserves P (log l m)).
  { intros l m st H. apply extends_by_effect; [simpl; tauto | exact H]. }
  assert (Hmk : forall d, preserves P (effect (Mkdir d))).
  { intros d st H. apply extends_by_effect; [simpl; tauto | exact H]. }
  assert (Hsp : forall o, preserves P (effect (Spawn o))).
  { intros o st H. apply extends_by_effect; [simpl; tauto | exact H]. }
  assert (Hfile : forall d f sfx, preserves P (getFilePath env d f sfx)).
  { intros d f sfx. unfold getFilePath. generalize 0. generalize (loopBound env).
    intros n. induction n as [|n IH]; intros c; simpl.
    - intros s0 H0. exact H0.
    - destruct (stat env _); [apply preserves_ret | apply IH]. }
  pose proof effect_total. pose proof setTimeout_total.
  unfold addQueue, deref, orThrow, getDirPath.
  repeat first
    [ apply on_throw_of_preserves; solve [pres]
    | apply on_throw_total; solve [pres]
    | apply on_throw_bind; [solve [pres] | intros ?]
    | match goal with |- on_throw _ (match ?x with _ => _ end) => destruct x end
    | progress cbv zeta ].
Qed.

(** X20. A promotion that does not return normally leaves nothing behind
    for the job: no timer was set, no listener was put on a child process,
    and the running queue is as it was. *)
Theorem addQueue_failure_installs_nothing env r s :
  (addQueue env r s).1 <> Return tt ->
  runningQueue (addQueue env r s).2 = runningQueue s
  /\ Forall (fun e => ~ installs e) (effectsOf (addQueue env r) s).
Proof.
  intros Hne.
  pose proof (addQueue_throw_runningQueue env r (runningQueue s) s eq_refl) as H1.
  pose proof (addQueue_on_throw_installs env r (trace s) s (extends_by_refl _ s)) as H2.
  destruct ((addQueue env r s).1) as [[]| |] eqn:E; [congruence| |];
    (split; [exact H1 | exact (proj2 (effectsOf_extends _ _ s H2))]).
Qed.

Lemma addQueue_failure_installs_nothing_witness :
  runningQueue (addQueue env_novideo 0%nat s_wait).2 = runningQueue s_wait.
Proof.
  destruct (addQueue_failure_installs_nothing env_novideo 0%nat s_wait) as (H & _).
  - vm_compute. discriminate.
  - exact H.
Defined.

(** ** The index by recorded id *)

Lemma indexItems_run st index refs items s :
  store s = st ->
  derefAll st refs = Some items ->
  indexItems index refs s = (Return (foldl addToIndex index items), s).
Proof.
  intros Hs. revert index items. induction refs as [|r refs IH]; intros index items; simpl.
  - intros H. inversion H; subst. reflexivity.
  - destruct (st !! r) as [it|] eqn:Er; [|discriminate].
    destruct (derefAll st refs) as [its|] eqn:Ed; [|discriminate].
    intros H. inversion H; subst items.
    unfold mbind at 1, M_bind, bind at 1.
    rewrite (deref_run r s it) by (rewrite Hs; exact Er).
    simpl. apply IH. reflexivity.
Qed.

Lemma foldl_addToIndex_lookup items index rid :
  foldl addToIndex index items !! rid =
  match ofRecorded rid items with
  | [] => index !! rid
  | l => Some (default [] (index !! rid) ++ map toIndexItem l)
  end.
Proof.
  revert index. induction items as [|it items IH]; intros index; simpl; [reflexivity|].
  rewrite IH. unfold addToIndex.
  destruct (recordedId it =? rid) eqn:E.
  - apply Z.eqb_eq in E. subst rid. rewrite lookup_insert_eq. simpl.
    destruct (ofRecorded (recordedId it) items) as [|x l]; simpl.
    + reflexivity.
    + rewrite <- app_assoc. reflexivity.
  - apply Z.eqb_neq in E. rewrite lookup_insert_ne by exact E. reflexivity.
Qed.

Lemma derefAll_app st r1 r2 items :
  derefAll st (r1 ++ r2) = Some items ->
  exists i1 i2, derefAll st r1 = Some i1 /\ derefAll st r2 = Some i2 /\ items = i1 ++ i2.
Proof.
  revert items. induction r1 as [|r r1 IH]; intros items; simpl.
  - intros H. exists [], items. auto.
  - destruct (st !! r) as [it|]; [|discriminate].
    destruct (derefAll st (r1 ++ r2)) as [its|] eqn:E; [|discriminate].
    intros H. inversion H; subst. destruct (IH its eq_refl) as (i1 & i2 & H1 & H2 & ->).
    exists (it :: i1), i2. rewrite H1. auto.
Qed.

(** X21. [getRecordedIndex] groups the jobs by recorded id: under each
    recorded id that some job has, it lists the encode id and the mode of
    every running job with that recorded id, in the order of the running
    queue, followed by those of the waiting jobs, in the order of the wait
    queue; a recorded id that no job has is not a key.  It changes no
    field. *)
Theorem getRecordedIndex_groups_jobs s items :
  derefAll (store s) (map encodeProgram (runningQueue s) ++ waitQueue s) = Some items ->
  exists index,
    getRecordedIndex s = (Return index, s)
    /\ forall rid,
         index !! rid =
         match ofRecorded rid items with
         | [] => None
         | l => Some (map toIndexItem l)
         end.
Proof.
  intros H. destruct (derefAll_app _ _ _ _ H) as (i1 & i2 & H1 & H2 & ->).
  exists (foldl addToIndex (foldl addToIndex ∅ i1) i2). split.
  - unfold getRecordedIndex.
    unfold mbind at 1, M_bind, bind at 1, gets at 1.
    unfold mbind at 1, M_bind, bind at 1.
    rewrite (indexItems_run (store s) ∅ _ i1 s eq_refl H1).
    unfold mbind at 1, M_bind, bind at 1, gets at 1.
    apply (indexItems_run (store s) _ _ i2 s eq_refl H2).
  - intros rid. rewrite <- foldl_app. rewrite foldl_addToIndex_lookup.
    rewrite lookup_empty. reflexivity.
Qed.

Lemma getRecordedIndex_groups_jobs_witness :
  exists index,
    getRecordedIndex s_queued = (Return index, s_queued)
    /\ index !! 5 = Some [mkIndexItem 1 "H264"]
    /\ index !! 6 = Some [mkIndexItem 2 "H264"]
    /\ index !! 7 = None.
Proof.
  destruct (getRecordedIndex_groups_jobs s_queued [cloneDeep optA 1; cloneDeep optB 2])
    as (index & Hrun & Hidx).
  - reflexivity.
  - exists index. split; [exact Hrun|].
    split; [rewrite Hidx; reflexivity|]. split; [rewrite Hidx; reflexivity|].
    rewrite Hidx. reflexivity.
Defined.

Lemma idsOfRecorded_run st rid refs items s :
  store s = st ->
  derefAll st refs = Some items ->
  idsOfRecorded rid refs s = (Return (map encodeId (ofRecorded rid items)), s).
Proof.
  intros Hs. revert items. induction refs as [|r refs IH]; intros items; simpl.
  - intros H. inversion H; subst. reflexivity.
  - destruct (st !! r) as [it|] eqn:Er; [|discriminate].
    destruct (derefAll st refs) as [its|] eqn:Ed; [|discriminate].
    intros H. inversion H; subst items.
    unfold mbind at 1, M_bind, bind at 1.
    rewrite (deref_run r s it) by (rewrite Hs; exact Er).
    unfold mbind at 1, M_bind, bind at 1. rewrite (IH its eq_refl).
    unfold mret, M_ret, ret. simpl. destruct (recordedId it =? rid); reflexivity.
Qed.

(** X22. The ids that [cancelEncodeByRecordedId] sets out to cancel are
    the encode ids of the waiting jobs with the recorded id, then those of
    the running jobs with it: as a collection, the ids that
    [getRecordedIndex] lists under that recorded id, and none when no job
    has it.  Collecting them changes no field. *)
Theorem cancelEncodeByRecordedId_ids_match_index s rid running waiting :
  derefAll (store s) (map encodeProgram (runningQueue s)) = Some running ->
  derefAll (store s) (waitQueue s) = Some waiting ->
  exists index,
    getRecordedIndex s = (Return index, s)
    /\ cancelEncodeByRecordedId_ids rid s
       = (Return (map encodeId (ofRecorded rid waiting)
                  ++ map encodeId (ofRecorded rid running)), s)
    /\ map i_encodeId (default [] (index !! rid))
       = map encodeId (ofRecorded rid running) ++ map encodeId (ofRecorded rid waiting).
Proof.
  intros Hr Hw.
  exists (foldl addToIndex (foldl addToIndex ∅ running) waiting). split; [|split].
  - unfold getRecordedIndex.
    unfold mbind at 1, M_bind, bind at 1, gets at 1.
    unfold mbind at 1, M_bind, bind at 1.
    rewrite (indexItems_run (store s) ∅ _ running s eq_refl Hr).
    unfold mbind at 1, M_bind, bind at 1, gets at 1.
    apply (indexItems_run (store s) _ _ waiting s eq_refl Hw).
  - unfold cancelEncodeByRecordedId_ids.
    unfold mbind at 1, M_bind, bind at 1, gets at 1.
    unfold mbind at 1, M_bind, bind at 1.
    rewrite (idsOfRecorded_run (store s) rid _ waiting s eq_refl Hw).
    unfold mbind at 1, M_bind, bind at 1, gets at 1.
    unfold mbind at 1, M_bind, bind at 1.
    rewrite (idsOfRecorded_run (store s) rid _ running s eq_refl Hr).
    reflexivity.
  - rewrite <- foldl_app, foldl_addToIndex_lookup, lookup_empty.
    unfold ofRecorded. rewrite List.filter_app.
    fold (ofRecorded rid running). fold (ofRecorded rid waiting).
    rewrite <- map_app.
    generalize (ofRecorded rid running ++ ofRecorded rid waiting). intros L.
    destruct L as [|x l]; [reflexivity|].
    simpl. f_equal. rewrite map_map. reflexivity.
Qed.

Lemma cancelEncodeByRecordedId_ids_match_index_witness :
  cancelEncodeByRecordedId_ids 6 s_queued = (Return [2], s_queued).
Proof.
  destruct (cancelEncodeByRecordedId_ids_match_index s_queued 6
              [cloneDeep optA 1] [cloneDeep optB 2]) as (index & _ & H & _).
  - reflexivity.
  - reflexivity.
  - exact H.
Defined.

(** ** The queues and the store *)

Lemma queues_wf_sub s s' :
  (length (store s) <= length (store s'))%nat ->
  refsOf s' `sublist_of` refsOf s ->
  queues_wf s -> queues_wf s'.
Proof.
  intros Hlen Hsub [Hv Hn]. split.
  - apply Forall_forall. intros x Hx.
    pose proof (elem_of_sublist _ _ _ Hx Hsub) as Hx'.
    rewrite Forall_forall in Hv. specialize (Hv x Hx'). lia.
  - eapply sublist_NoDup; eauto.
Qed.

Lemma queues_wf_frame s s' :
  store s' = store s -> waitQueue s' = waitQueue s -> runningQueue s' = runningQueue s ->
  queues_wf s -> queues_wf s'.
Proof.
  intros H1 H2 H3. apply queues_wf_sub.
  - rewrite H1. lia.
  - unfold refsOf. rewrite H2, H3. reflexivity.
Qed.

Lemma filter_sublist_of {A} (f : A -> bool) l : List.filter f l `sublist_of` l.
Proof.
  induction l as [|x l IH]; simpl; [constructor|].
  destruct (f x); [apply sublist_skip | apply sublist_cons]; exact IH.
Qed.

Lemma map_encodeProgram_markCanceld st eid rq :
  map encodeProgram (markCanceld st eid rq) = map encodeProgram rq.
Proof.
  induction rq as [|x rq IH]; simpl; [reflexivity|].
  destruct (fieldIs st encodeId eid (encodeProgram x)); simpl; [reflexivity|].
  rewrite IH. reflexivity.
Qed.

Lemma queues_wf_filter_running f s :
  queues_wf s -> queues_wf (set_runningQueue (List.filter f (runningQueue s)) s).
Proof.
  apply queues_wf_sub; [simpl; lia|]. unfold refsOf. simpl.
  apply sublist_app; [reflexivity|]. apply fmap_sublist, filter_sublist_of.
Qed.

Lemma queues_wf_filter_waiting f s :
  queues_wf s -> queues_wf (set_waitQueue (List.filter f (waitQueue s)) s).
Proof.
  apply queues_wf_sub; [simpl; lia|]. unfold refsOf. simpl.
  apply sublist_app; [apply filter_sublist_of | reflexivity].
Qed.

Lemma queues_wf_markCanceld eid s :
  queues_wf s -> queues_wf (set_runningQueue (markCanceld (store s) eid (runningQueue s)) s).
Proof.
  apply queues_wf_sub; [simpl; lia|]. unfold refsOf. simpl.
  rewrite map_encodeProgram_markCanceld. reflexivity.
Qed.

Lemma queues_wf_insert r x s :
  queues_wf s -> queues_wf (set_store (<[r := x]> (store s)) s).
Proof.
  apply queues_wf_sub; [simpl; rewrite length_insert; lia|]. reflexivity.
Qed.

Lemma unLockExecution_wf i : preserves queues_wf (unLockExecution i).
Proof.
  intros s H. destruct (unLockExecution_frame i s) as (H1 & H2 & H3).
  exact (queues_wf_frame s _ H1 H2 H3 H).
Qed.

Lemma getExecution_wf env p k : preserves queues_wf (getExecution env p k).
Proof.
  intros s H. destruct (getExecution_frame env p k s) as (H1 & H2 & H3 & _).
  exact (queues_wf_frame s _ H1 H2 H3 H).
Qed.

Lemma checkQueue_wf env : preserves queues_wf (checkQueue env).
Proof.
  intros s H. destruct (checkQueue_queues env s) as (H1 & H2 & H3).
  exact (queues_wf_frame s _ H1 H2 H3 H).
Qed.

Lemma effect_wf e : preserves queues_wf (effect e).
Proof. intros s H. exact H. Qed.

Lemma push_body_wf env o i : preserves queues_wf (push_body env o i).
Proof.
  intros s [Hv Hn]. rewrite push_body_run.
  match goal with |- queues_wf (_, add_effects _ (unLockExecution i ?s2).2).2 =>
    destruct (unLockExecution_frame i s2) as (H1 & H2 & H3) end.
  match goal with |- context [checkQueue env ?s1] =>
    destruct (checkQueue_queues env s1) as (H4 & H5 & H6) end.
  simpl in H1, H2, H3, H4, H5, H6.
  unfold queues_wf, refsOf. simpl. rewrite H1, H2, H3, H4, H5, H6. clear H1 H2 H3 H4 H5 H6.
  unfold refsOf in Hv, Hn.
  assert (Hfresh : length (store s) ∉ waitQueue s ++ map encodeProgram (runningQueue s)).
  { intros Hin. rewrite Forall_forall in Hv. specialize (Hv _ Hin). lia. }
  split.
  - rewrite length_app. simpl. rewrite <- app_assoc. apply Forall_app.
    apply Forall_app in Hv as [Hw Hr]. split; [|constructor].
    + eapply Forall_impl; [exact Hw|]. simpl. intros. lia.
    + lia.
    + eapply Forall_impl; [exact Hr|]. simpl. intros. lia.
  - rewrite <- app_assoc. apply NoDup_app in Hn as (Hnw & Hd & Hnr).
    apply NoDup_app. split; [exact Hnw|]. split.
    + intros x Hx Hin. apply elem_of_cons in Hin as [->|Hin].
      * apply Hfresh. apply elem_of_app. left. exact Hx.
      * exact (Hd x Hx Hin).
    + apply NoDup_cons. split; [|exact Hnr].
      intros Hin. apply Hfresh. apply elem_of_app. right. exact Hin.
Qed.

Lemma addQueue_store env r st : preserves (fun s => store s = st) (addQueue env r).
Proof.
  assert (Heff : forall e, preserves (fun s => store s = st) (effect e))
    by (intros e; unfold effect; pres).
  assert (Hst : forall a d, preserves (fun s => store s = st) (setTimeout a d))
    by (intros; unfold setTimeout; pres).
  pose proof (getFilePath_preserves env (fun s => store s = st)).
  unfold addQueue, deref, orThrow, getDirPath, log. pres.
Qed.

(** What [addQueue] does to the queues and the store, however it ends. *)
Lemma addQueue_queues env r s :
  let s1 := (addQueue env r s).2 in
  store s1 = store s
  /\ waitQueue s1 = waitQueue s
  /\ (runningQueue s1 = runningQueue s
      \/ (r < length (store s))%nat
         /\ exists entry, encodeProgram entry = r
                          /\ runningQueue s1 = runningQueue s ++ [entry]).
Proof.
  intros s1. subst s1.
  split; [exact (addQueue_store env r (store s) s eq_refl)|].
  split; [exact (addQueue_waitQueue env r (waitQueue s) s eq_refl)|].
  pose proof (addQueue_throw_runningQueue env r (runningQueue s) s eq_refl) as Ht.
  destruct (addQueue env r s) as [[[]|e|] s1] eqn:Ha; simpl in *; auto.
  right. destruct (addQueue_Return_inv env r s s1 Ha)
    as (qi & rec & cmd & child & out & Hst & _ & _ & Hrq & _).
  split; [eapply lookup_lt_Some; exact Hst|].
  eexists. split; [|exact Hrq]. reflexivity.
Qed.

Lemma queues_wf_promote s s1 r rest :
  waitQueue s = r :: rest ->
  queues_wf s ->
  store s1 = store s ->
  waitQueue s1 = rest ->
  (runningQueue s1 = runningQueue s
   \/ exists entry, encodeProgram entry = r /\ runningQueue s1 = runningQueue s ++ [entry]) ->
  queues_wf s1.
Proof.
  intros Hw [Hv Hn] Hst Hw1 Hr. unfold queues_wf, refsOf in *.
  rewrite Hst, Hw1. rewrite Hw in Hv, Hn. simpl in Hv, Hn.
  inversion Hv as [|? ? Hr0 Hv']; subst. apply NoDup_cons in Hn as [Hnin Hn'].
  destruct Hr as [->|(entry & He & ->)].
  - auto.
  - rewrite map_app. simpl. rewrite He. rewrite app_assoc. split.
    + apply Forall_app. split; [exact Hv' | constructor; [exact Hr0 | constructor]].
    + apply NoDup_app. split; [exact Hn'|]. split; [|apply NoDup_singleton].
      intros x Hx Hin. apply list_elem_of_singleton in Hin. subst x. contradiction.
Qed.

Lemma checkQueue_body_wf env i : preserves queues_wf (checkQueue_body env i).
Proof.
  pose proof unLockExecution_wf as Hun. pose proof (getExecution_wf env) as Hget.
  pose proof effect_wf as Heff.
  assert (Hfin : forall eid, preserves queues_wf (finalize env eid))
    by (intros; unfold finalize; auto).
  intros s Hs. unfold checkQueue_body.
  unfold mbind at 1, M_bind, bind at 1, gets at 1.
  destruct (waitQueue s) as [|r rest] eqn:Hw.
  - assert (Hp : preserves queues_wf
                   (mret None ≫= fun needsFinalize : option Z =>
                      unLockExecution i;;
                      match needsFinalize with
                      | Some eid => finalize env eid
                      | None => mret tt
                      end)) by pres.
    exact (Hp s Hs).
  - rewrite bind_modify_run.
    destruct (addQueue_queues env r (set_waitQueue rest s)) as (H1 & H2 & H3).
    simpl in H1, H2, H3.
    assert (Hs1 : queues_wf (addQueue env r (set_waitQueue rest s)).2).
    { apply (queues_wf_promote s _ r rest Hw Hs H1 H2).
      destruct H3 as [H3|(_ & H3)]; auto. }
    unfold mbind at 1, M_bind, bind at 1. unfold try_catch.
    unfold mbind at 1, M_bind, bind at 1.
    destruct (addQueue env r (set_waitQueue rest s)) as [[[]|e|] s1]; simpl in Hs1.
    + unfold mret at 1, M_ret, ret at 1.
      assert (Hp : preserves queues_wf (unLockExecution i;; mret tt)) by pres.
      exact (Hp s1 Hs1).
    + match goal with |- queues_wf (match ?m s1 with _ => _ end).2 =>
        assert (Hp : preserves queues_wf m) by (unfold deref, log; pres);
        pose proof (Hp s1 Hs1) as Hs2;
        destruct (m s1) as [[nf|e'|] s2] end; simpl in Hs2; simpl; auto.
      assert (Hp' : preserves queues_wf
                      (unLockExecution i;;
                       match nf with
                       | Some eid => finalize env eid
                       | None => mret tt
                       end)) by pres.
      exact (Hp' s2 Hs2).
    + exact Hs1.
Qed.

Lemma finalize_body_wf eid i : preserves queues_wf (finalize_body eid i).
Proof.
  pose proof unLockExecution_wf. pose proof effect_wf.
  unfold finalize_body, nextTick_emitNeedsCheckQueue, clearTimeout.
  pres; try apply queues_wf_filter_running; auto.
Qed.

Lemma cancel_body_wf env eid i : preserves queues_wf (cancel_body env eid i).
Proof.
  pose proof unLockExecution_wf. pose proof effect_wf.
  unfold cancel_body, nextTick_emitNeedsCheckQueue, log.
  pres; try apply queues_wf_filter_waiting; try apply queues_wf_markCanceld; auto.
Qed.

Lemma exitHandler_wf env r o c sg : preserves queues_wf (exitHandler env r o c sg).
Proof.
  pose proof (getExecution_wf env). pose proof effect_wf.
  unfold exitHandler, clearRemoveOriginal, deleteOutputFile, finalize, deref, log.
  pres; try apply queues_wf_insert; auto.
Qed.

Lemma queues_wf_other s s' :
  refsOf s' = refsOf s -> store s' = store s -> queues_wf s -> queues_wf s'.
Proof.
  intros H1 H2. apply queues_wf_sub; [rewrite H2; lia | rewrite H1; reflexivity].
Qed.

Ltac wf_other := try (intros; eapply queues_wf_other; [| |eassumption]; reflexivity).

Lemma step_wf env ev s : queues_wf s -> queues_wf (step env ev s).
Proof.
  pose proof (getExecution_wf env) as Hget. pose proof effect_wf as Heff.
  pose proof (checkQueue_wf env) as Hcq.
  assert (Hlog : forall l m, preserves queues_wf (log l m)) by (intros; apply Heff).
  assert (Hcan : forall eid, preserves queues_wf (cancel env eid))
    by (intros; unfold cancel; auto).
  intros Hs. revert s Hs. change (preserves queues_wf (handle env ev)).
  destruct ev as [o|eid| | |r out code signal|t]; simpl.
  - unfold push. pres.
  - auto.
  - unfold runTick, emitNeedsCheckQueue. pres; wf_other.
  - intros s Hs. unfold runResolved, mbind, M_bind, bind, gets, modify. simpl.
    destruct (resolved s) as [|[i k] rest] eqn:Er; simpl; [exact Hs|].
    assert (Hs' : queues_wf (set_resolved rest s))
      by (eapply queues_wf_other; [| |exact Hs]; reflexivity).
    destruct k as [o| |eid|eid]; simpl.
    + pose proof (push_body_wf env o i _ Hs') as Hp.
      unfold mbind, M_bind, bind.
      destruct (push_body env o i (set_resolved rest s)) as [[a|e|] s']; exact Hp.
    + apply checkQueue_body_wf; exact Hs'.
    + apply finalize_body_wf; exact Hs'.
    + apply cancel_body_wf; exact Hs'.
  - apply exitHandler_wf.
  - unfold fireTimer. destruct (t_onFire t).
    + unfold onEncodeTimeout, deref. pres.
    + unfold onGetExecutionTimeout. pres; wf_other.
Qed.

(** X23. In every state the manager can be in, no job is held twice: the
    references of the wait queue and of the running queue are pairwise
    different, so a job is never in both queues nor twice in one, and each
    of them has its item in the store. *)
Theorem queues_hold_each_job_once env s :
  Reachable env s ->
  NoDup (waitQueue s ++ map encodeProgram (runningQueue s))
  /\ Forall (fun r => is_Some (store s !! r))
       (waitQueue s ++ map encodeProgram (runningQueue s)).
Proof.
  intros Hr.
  assert (H : queues_wf s).
  { induction Hr as [|s ev Hr IH].
    - split; constructor.
    - apply step_wf, IH. }
  destruct H as [Hv Hn]. split; [exact Hn|].
  eapply Forall_impl; [exact Hv|]. simpl. intros r Hlt. apply lookup_lt_is_Some. exact Hlt.
Qed.

Lemma queues_hold_each_job_once_witness :
  Reachable env0 s_two
  /\ NoDup (waitQueue s_two ++ map encodeProgram (runningQueue s_two)).
Proof.
  assert (Hr : Reachable env0 s_two) by (apply Reachable_runLoop, Reachable_run, Reachable_init).
  split; [exact Hr|].
  exact (proj1 (queues_hold_each_job_once env0 s_two Hr)).
Defined.

(** ** The ids of the queued jobs *)

Lemma ids_wf_frame s s' :
  store s' = store s -> idCnt s' = idCnt s -> ids_wf s -> ids_wf s'.
Proof. unfold ids_wf. intros -> ->. auto. Qed.

Ltac ids_other := try (intros; eapply ids_wf_frame; [| |eassumption]; reflexivity).

Lemma clearRemoveOriginal_ids r : preserves ids_wf (clearRemoveOriginal r).
Proof.
  intros s H. unfold clearRemoveOriginal, deref, mbind, M_bind, bind, gets, modify. simpl.
  destruct (store s !! r) as [item|] eqn:Hr; simpl; [|exact H].
  unfold ids_wf in *. simpl. rewrite length_insert. intros Hlt.
  destruct (H Hlt) as [Hc Hi]. split; [exact Hc|].
  intros k it Hk. destruct (decide (r = k)) as [->|Hne].
  - rewrite list_lookup_insert_eq in Hk by (eapply lookup_lt_Some; exact Hr).
    injection Hk as <-. simpl. apply Hi, Hr.
  - rewrite list_lookup_insert_ne in Hk by exact Hne. apply Hi, Hk.
Qed.

Lemma unLockExecution_ids i : preserves ids_wf (unLockExecution i).
Proof.
  intros s H. destruct (unLockExecution_frame i s) as (H1 & _).
  exact (ids_wf_frame s _ H1 (unLockExecution_idCnt i s) H).
Qed.

Lemma getExecution_ids env p k : preserves ids_wf (getExecution env p k).
Proof.
  apply (getExecution_preserves env ids_wf); ids_other.
Qed.

Lemma checkQueue_ids env : preserves ids_wf (checkQueue env).
Proof.
  intros s H. destruct (checkQueue_queues env s) as (H1 & _).
  exact (ids_wf_frame s _ H1 (checkQueue_idCnt env s) H).
Qed.

Lemma effect_ids e : preserves ids_wf (effect e).
Proof. intros s H. exact H. Qed.

Lemma addQueue_ids env r : preserves ids_wf (addQueue env r).
Proof.
  pose proof effect_ids as Heff.
  assert (Hst : forall a d, preserves ids_wf (setTimeout a d))
    by (intros; unfold setTimeout; pres; ids_other).
  assert (Hfile : forall d f sfx, preserves ids_wf (getFilePath env d f sfx)).
  { intros d f sfx s H.
    pose proof (getFilePath_preserves env (fun st => st = s) d f sfx s eq_refl) as E.
    simpl in E. rewrite E. exact H. }
  unfold addQueue, deref, orThrow, getDirPath, log. pres; ids_other.
Qed.

Lemma push_body_ids env o i : preserves ids_wf (push_body env o i).
Proof.
  intros s H. rewrite push_body_run.
  match goal with |- ids_wf (_, add_effects _ (unLockExecution i ?s2).2).2 =>
    destruct (unLockExecution_frame i s2) as (H1 & _);
    pose proof (unLockExecution_idCnt i s2) as H2 end.
  match goal with |- context [checkQueue env ?s1] =>
    destruct (checkQueue_queues env s1) as (H3 & _);
    pose proof (checkQueue_idCnt env s1) as H4 end.
  simpl in H1, H2, H3, H4.
  unfold ids_wf. simpl. rewrite H1, H2, H3, H4. clear H1 H2 H3 H4.
  rewrite length_app. simpl. intros Hlt.
  destruct H as [Hc Hi]; [lia|].
  assert (Hne : (idCnt s =? MAX_SAFE_INTEGER) = false) by (apply Z.eqb_neq; lia).
  rewrite Hne. split; [lia|].
  intros k item Hk. apply lookup_app_Some in Hk as [Hk|[Hge Hk]].
  - apply Hi, Hk.
  - destruct (k - length (store s))%nat as [|n] eqn:En; simpl in Hk; [|discriminate].
    injection Hk as <-. simpl. lia.
Qed.

Lemma checkQueue_body_ids env i : preserves ids_wf (checkQueue_body env i).
Proof.
  pose proof unLockExecution_ids as Hun. pose proof (getExecution_ids env) as Hget.
  pose proof effect_ids as Heff. pose proof (addQueue_ids env) as Hadd.
  unfold checkQueue_body, finalize, deref, log. pres; ids_other.
Qed.

Lemma finalize_body_ids eid i : preserves ids_wf (finalize_body eid i).
Proof.
  pose proof unLockExecution_ids. pose proof effect_ids.
  unfold finalize_body, nextTick_emitNeedsCheckQueue, clearTimeout. pres; ids_other.
Qed.

Lemma cancel_body_ids env eid i : preserves ids_wf (cancel_body env eid i).
Proof.
  pose proof unLockExecution_ids. pose proof effect_ids.
  unfold cancel_body, nextTick_emitNeedsCheckQueue, log. pres; ids_other.
Qed.

Lemma exitHandler_ids env r o c sg : preserves ids_wf (exitHandler env r o c sg).
Proof.
  pose proof (getExecution_ids env). pose proof effect_ids.
  pose proof clearRemoveOriginal_ids.
  unfold exitHandler, deleteOutputFile, finalize, deref, log. pres; ids_other.
Qed.

Lemma step_ids env ev s : ids_wf s -> ids_wf (step env ev s).
Proof.
  pose proof (getExecution_ids env) as Hget. pose proof effect_ids as Heff.
  pose proof (checkQueue_ids env) as Hcq.
  assert (Hlog : forall l m, preserves ids_wf (log l m)) by (intros; apply Heff).
  assert (Hcan : forall eid, preserves ids_wf (cancel env eid))
    by (intros; unfold cancel; auto).
  intros Hs. revert s Hs. change (preserves ids_wf (handle env ev)).
  destruct ev as [o|eid| | |r out code signal|t]; simpl.
  - unfold push. pres.
  - auto.
  - unfold runTick, emitNeedsCheckQueue. pres; ids_other.
  - intros s Hs. unfold runResolved, mbind, M_bind, bind, gets, modify. simpl.
    destruct (resolved s) as [|[i k] rest] eqn:Er; simpl; [exact Hs|].
    assert (Hs' : ids_wf (set_resolved rest s))
      by (eapply ids_wf_frame; [| |exact Hs]; reflexivity).
    destruct k as [o| |eid|eid]; simpl.
    + pose proof (push_body_ids env o i _ Hs') as Hp.
      unfold mbind, M_bind, bind.
      destruct (push_body env o i (set_resolved rest s)) as [[a|e|] s']; exact Hp.
    + apply checkQueue_body_ids; exact Hs'.
    + apply finalize_body_ids; exact Hs'.
    + apply cancel_body_ids; exact Hs'.
  - apply exitHandler_ids.
  - unfold fireTimer. destruct (t_onFire t).
    + unfold onEncodeTimeout, deref. pres.
    + unfold onGetExecutionTimeout. pres; ids_other.
Qed.

Lemma Reachable_jobs env s : Reachable env s -> queues_wf s /\ ids_wf s.
Proof.
  induction 1 as [|s ev Hr [IH1 IH2]].
  - split; [split; constructor|]. intros _. split; [reflexivity|].
    intros k item Hk. discriminate.
  - split; [apply step_wf, IH1 | apply step_ids, IH2].
Qed.

(** While the id counter has not wrapped, the job at the head of the wait
    queue shares its id with no running job. *)
Lemma waiting_head_not_running env s r rest item :
  Reachable env s ->
  Z.of_nat (length (store s)) < MAX_SAFE_INTEGER ->
  waitQueue s = r :: rest ->
  store s !! r = Some item ->
  getRunnginQueueItem (encodeId item) s = None.
Proof.
  intros Hr Hlt Hw Hst. destruct (Reachable_jobs env s Hr) as [[_ Hn] Hids].
  destruct (Hids Hlt) as [_ Hi]. unfold refsOf in Hn. rewrite Hw in Hn.
  simpl in Hn. apply NoDup_cons in Hn as [Hnin _].
  unfold getRunnginQueueItem.
  destruct (List.find _ (runningQueue s)) as [q|] eqn:Hf; [|reflexivity].
  exfalso. apply find_some in Hf as [Hin Hq]. unfold fieldIs in Hq.
  destruct (store s !! encodeProgram q) as [it|] eqn:Hq'; [|discriminate].
  apply Z.eqb_eq in Hq. rewrite (Hi _ _ Hq'), (Hi _ _ Hst) in Hq.
  assert (encodeProgram q = r) by lia. subst r.
  apply Hnin. apply elem_of_app. right.
  apply list_elem_of_fmap_2. apply list_elem_of_In. exact Hin.
Qed.

(** The lookup of a running entry reads the running queue and the store. *)
Lemma getRunnginQueueItem_frame eid s s' :
  store s' = store s -> runningQueue s' = runningQueue s ->
  getRunnginQueueItem eid s' = getRunnginQueueItem eid s.
Proof. unfold getRunnginQueueItem. intros -> ->. reflexivity. Qed.

(** The callback of [process.nextTick] after a [finalize] that found no
    entry is [checkQueue], on the state that the release left. *)
Lemma finalize_body_unknown_tick env eid exeId s :
  getRunnginQueueItem eid s = None ->
  handle env RunTick (finalize_body eid exeId s).2
  = checkQueue env (unLockExecution exeId s).2.
Proof.
  intros Hget. rewrite (finalize_body_unknown eid exeId s Hget).
  unfold mbind at 1, M_bind, bind at 1.
  rewrite (total_run (unLockExecution exeId) s (unLockExecution_total exeId)).
  destruct (unLockExecution exeId s).2. reflexivity.
Qed.

(** ** finalize of an id without a running entry *)

(** The state in which [checkQueue] calls [finalize] after a promotion
    that threw has the running queue and the items of the state in which
    it took the ticket. *)
Lemma checkQueue_body_failure_frame env i s0 r rest e s1 l :
  addQueue env r (set_waitQueue rest s0) = (Throw e, s1) ->
  let s2 := (unLockExecution i (add_effects l s1)).2 in
  store s2 = store s0 /\ runningQueue s2 = runningQueue s0.
Proof.
  intros Ha s2. subst s2.
  destruct (unLockExecution_frame i (add_effects l s1)) as (H1 & _ & H3).
  rewrite H1, H3.
  pose proof (addQueue_store env r (store s0) (set_waitQueue rest s0) eq_refl) as Hst.
  pose proof (addQueue_throw_runningQueue env r (runningQueue s0)
                (set_waitQueue rest s0) eq_refl) as Hrq.
  rewrite Ha in Hst, Hrq. simpl in Hst, Hrq. split; assumption.
Qed.

(** C10. For an id that no entry of the running queue has, calling
    [finalize] does not throw; once its ticket is granted it returns
    normally, leaves the running queue as it is (it only releases the
    ticket; its lookup, its [clearTimeout] and its filter do nothing) and
    schedules [emitNeedsCheckQueue] on the next tick: the tick that then
    runs is [checkQueue], on the state that the release left.  A promotion
    that fails has not touched the running queue, and [checkQueue] then
    calls [finalize] with the id of the failed job; when no running entry
    had that id, none has it in the state of that call, so this [finalize]
    is of the kind above.  In every state the manager can be in, as long as
    the id counter has not wrapped, no running entry has the id of the job
    at the head of the wait queue. *)
Theorem finalize_of_unknown_id env s eid exeId :
  getRunnginQueueItem eid s = None ->
  (finalize env eid s).1 = Return tt
  /\ finalize_body eid exeId s = (unLockExecution exeId;; nextTick_emitNeedsCheckQueue) s
  /\ (finalize_body eid exeId s).1 = Return tt
  /\ runningQueue (finalize_body eid exeId s).2 = runningQueue s
  /\ ticks (finalize_body eid exeId s).2 = S (ticks s)
  /\ handle env RunTick (finalize_body eid exeId s).2
     = checkQueue env (unLockExecution exeId s).2
  /\ (forall r e s1, addQueue env r s = (Throw e, s1) -> runningQueue s1 = runningQueue s)
  /\ (forall i s0 r rest e s1 item,
        waitQueue s0 = r :: rest ->
        addQueue env r (set_waitQueue rest s0) = (Throw e, s1) ->
        store s1 !! r = Some item ->
        let s2 :=
          (unLockExecution i
             (add_effects [Log ErrorLevel (CreateEncodeProcessError (encodeId item));
                           Log ErrorLevel (ErrorObject e);
                           EmitErrorEncode] s1)).2 in
        runningQueue s1 = runningQueue s0
        /\ checkQueue_body env i s0 = finalize env (encodeId item) s2
        /\ store s0 !! r = Some item
        /\ (getRunnginQueueItem (encodeId item) s0 = None ->
            getRunnginQueueItem (encodeId item) s2 = None
            /\ forall j,
                 runningQueue (finalize_body (encodeId item) j s2).2 = runningQueue s0))
  /\ (forall s0 r rest item,
        Reachable env s0 ->
        Z.of_nat (length (store s0)) < MAX_SAFE_INTEGER ->
        waitQueue s0 = r :: rest ->
        store s0 !! r = Some item ->
        getRunnginQueueItem (encodeId item) s0 = None).
Proof.
  assert (Hbody : forall x j st,
            getRunnginQueueItem x st = None ->
            finalize_body x j st = (unLockExecution j;; nextTick_emitNeedsCheckQueue) st
            /\ (finalize_body x j st).1 = Return tt
            /\ runningQueue (finalize_body x j st).2 = runningQueue st
            /\ ticks (finalize_body x j st).2 = S (ticks st)).
  { intros x j st Hx. pose proof (finalize_body_unknown x j st Hx) as Hf.
    split; [exact Hf|]. rewrite Hf. unfold mbind, M_bind, bind.
    rewrite (total_run (unLockExecution j) st (unLockExecution_total j)).
    destruct (unLockExecution_queues j st) as [Hrq Htk].
    unfold nextTick_emitNeedsCheckQueue, modify. simpl.
    split; [reflexivity|]. split; [exact Hrq|]. rewrite Htk. reflexivity. }
  intros Hget.
  split; [exact (total_unit (finalize env eid) s (getExecution_total env _ _))|].
  destruct (Hbody eid exeId s Hget) as (Hf & Hret & Hrq & Htk).
  split; [exact Hf|]. split; [exact Hret|]. split; [exact Hrq|]. split; [exact Htk|].
  split; [exact (finalize_body_unknown_tick env eid exeId s Hget)|].
  split; [|split].
  - intros r e s1 Ha.
    pose proof (addQueue_throw_runningQueue env r (runningQueue s) s eq_refl) as Ht.
    rewrite Ha in Ht. exact Ht.
  - intros i s0 r rest e s1 item Hw Ha Hst s2.
    destruct (checkQueue_body_failure_frame env i s0 r rest e s1
                [Log ErrorLevel (CreateEncodeProcessError (encodeId item));
                 Log ErrorLevel (ErrorObject e); EmitErrorEncode] Ha) as [Hs2 Hr2].
    fold s2 in Hs2, Hr2.
    pose proof (addQueue_store env r (store s0) (set_waitQueue rest s0) eq_refl) as Hs1.
    rewrite Ha in Hs1. simpl in Hs1.
    split.
    { pose proof (addQueue_throw_runningQueue env r (runningQueue s0)
                    (set_waitQueue rest s0) eq_refl) as Ht.
      rewrite Ha in Ht. exact Ht. }
    split; [exact (checkQueue_body_failure env i s0 r rest e s1 item Hw Ha Hst)|].
    split; [rewrite <- Hs1; exact Hst|].
    intros Hnone.
    assert (Hn2 : getRunnginQueueItem (encodeId item) s2 = None)
      by (rewrite (getRunnginQueueItem_frame _ s0 s2 Hs2 Hr2); exact Hnone).
    split; [exact Hn2|]. intros j.
    destruct (Hbody (encodeId item) j s2 Hn2) as (_ & _ & Hq & _).
    rewrite Hq. exact Hr2.
  - intros s0 r rest item Hr Hlt Hw Hst.
    exact (waiting_head_not_running env s0 r rest item Hr Hlt Hw Hst).
Qed.

Lemma finalize_of_unknown_id_witness :
  (getRunnginQueueItem 9 s_running = None
   /\ runningQueue (finalize_body 9 "t2" s_running).2 = runningQueue s_running
   /\ ticks (finalize_body 9 "t2" s_running).2 = 1%nat
   /\ handle env0 RunTick (finalize_body 9 "t2" s_running).2
      = checkQueue env0 (unLockExecution "t2" s_running).2)
  /\ (Reachable env_novideo s_wait
      /\ waitQueue s_wait = [0%nat]
      /\ addQueue env_novideo 0%nat (set_waitQueue [] s_wait)
         = (Throw (Error "VideoFileIdIsNotFound"), set_waitQueue [] s_wait)
      /\ getRunnginQueueItem 1 s_wait = None
      /\ forall j,
           runningQueue
             (finalize_body 1 j
                (unLockExecution "t1"
                   (add_effects [Log ErrorLevel (CreateEncodeProcessError 1);
                                 Log ErrorLevel (ErrorObject (Error "VideoFileIdIsNotFound"));
                                 EmitErrorEncode] (set_waitQueue [] s_wait))).2).2
           = runningQueue s_wait).
Proof.
  split.
  - split; [reflexivity|].
    destruct (finalize_of_unknown_id env0 s_running 9 "t2")
      as (_ & _ & _ & Hrq & Htk & Ht & _).
    + reflexivity.
    + split; [exact Hrq|]. split; [exact Htk | exact Ht].
  - assert (Hr : Reachable env_novideo s_wait).
    { assert (E : step env_novideo RunResolved (step env_novideo (CallPush optA) init)
                  = s_wait) by (vm_compute; reflexivity).
      rewrite <- E. apply Reachable_step, Reachable_step, Reachable_init. }
    destruct (finalize_of_unknown_id env_novideo s_wait 1 "t1")
      as (_ & _ & _ & _ & _ & _ & _ & Hfail & Hhead).
    + reflexivity.
    + pose proof (Hhead s_wait 0%nat [] (cloneDeep optA 1) Hr) as Hn.
      assert (Hn' : getRunnginQueueItem 1 s_wait = None).
      { apply Hn; [vm_compute; reflexivity | reflexivity | reflexivity]. }
      destruct (Hfail "t1" s_wait 0%nat [] (Error "VideoFileIdIsNotFound")
                  (set_waitQueue [] s_wait) (cloneDeep optA 1))
        as (_ & _ & _ & Hk); [reflexivity | reflexivity | reflexivity |].
      destruct (Hk Hn') as [_ Hq].
      split; [exact Hr|]. split; [reflexivity|]. split; [reflexivity|].
      split; [exact Hn' | exact Hq].
Defined.
